(** * GigAPI query engine: partition resolution, time-predicate extraction
      and result normalisation

    A shallow embedding of [QueryClient.js] (the later class definition,
    which is the one in force), of the [/query] and [/debug] handlers of
    [QueryServer.js] and of [lineProtocol.js], followed by the properties
    that the specification states about them and by further properties of
    the code.

    Conventions.
    - JavaScript strings are modelled as [string]; the characters are read
      as code units below 256.  [toUpperCase] gives the capitals of these
      characters; the patterns of the source hold ASCII letters only, which
      the [i] flag compares with ASCII letters without case.
    - A JavaScript number that holds a time is an integer-valued double or
      NaN: [jsnum]; what [parseInt] returns is a [number], which can also
      be an infinity.  [null] is [None] of an [option].
    - What belongs to the runtime and not to the repository (the clock,
      [Date] parsing and calendar fields, [fs], the DuckDB connection) is a
      field of the record [Runtime]; every definition takes it as its first
      argument and every theorem holds for all runtimes. *)

From Stdlib Require Import ZArith List Bool Ascii String Lia.
From Stdlib Require Import Numbers.DecimalString Numbers.DecimalNat.
From Stdlib Require Numbers.DecimalPos.
Import ListNotations.

Set Warnings "-register-all".

Local Open Scope string_scope.
Local Open Scope Z_scope.

(** ** JavaScript values used by the core *)

Module JS.

(** A number holding an instant: NaN or an integer-valued double. *)
Inductive jsnum : Type :=
| NaN
| Num (z : Z).

(** [a < b], [a > b], [a <= b], [a >= b]: every comparison with NaN
    is false. *)
Definition lt (a b : jsnum) : bool :=
  match a, b with Num x, Num y => x <? y | _, _ => false end.
Definition gt (a b : jsnum) : bool := lt b a.
Definition le (a b : jsnum) : bool :=
  match a, b with Num x, Num y => x <=? y | _, _ => false end.
Definition ge (a b : jsnum) : bool := le b a.

(** [a === b] on numbers: NaN is not equal to itself. *)
Definition strict_eq (a b : jsnum) : bool :=
  match a, b with Num x, Num y => x =? y | _, _ => false end.

(** Truthiness of [null | number]: null, 0 and NaN are falsy. *)
Definition truthy (v : option jsnum) : bool :=
  match v with
  | Some (Num z) => negb (z =? 0)
  | Some NaN => false
  | None => false
  end.

(** The double nearest to an integer (round to nearest, ties to even):
    integers below 2^53 in magnitude are exact. *)
Definition round53 (x : Z) : Z :=
  let a := Z.abs x in
  if a <? 2 ^ 53 then x
  else
    let e := Z.log2 a - 52 in
    let q := a / 2 ^ e in
    let r := a mod 2 ^ e in
    let half := 2 ^ (e - 1) in
    let q' := if (half <? r) || ((r =? half) && Z.odd q) then q + 1 else q in
    Z.sgn x * (q' * 2 ^ e).

(** [x * 1000000] in double arithmetic. *)
Definition times_1e6 (x : jsnum) : jsnum :=
  match x with
  | NaN => NaN
  | Num ms => Num (round53 (ms * 1000000))
  end.

(** *** Characters and strings *)

Definition code (c : ascii) : nat := nat_of_ascii c.

Definition between (lo hi : nat) (c : ascii) : bool :=
  (Nat.leb lo (code c) && Nat.leb (code c) hi)%bool.

(** [\s]: TAB, LF, VT, FF, CR, space and NBSP. *)
Definition is_space (c : ascii) : bool :=
  (between 9 13 c || Nat.eqb (code c) 32 || Nat.eqb (code c) 160)%bool.

Definition is_digit (c : ascii) : bool := between 48 57 c.
Definition is_upper (c : ascii) : bool := between 65 90 c.
Definition is_lower (c : ascii) : bool := between 97 122 c.

(** [\w]: letters, digits and the underscore. *)
Definition is_word (c : ascii) : bool :=
  (is_upper c || is_lower c || is_digit c || Nat.eqb (code c) 95)%bool.

(** [.] without the [s] flag: anything but a line terminator. *)
Definition is_dot (c : ascii) : bool :=
  negb (Nat.eqb (code c) 10 || Nat.eqb (code c) 13)%bool.

Definition is_not (l : list ascii) (c : ascii) : bool :=
  negb (existsb (Ascii.eqb c) l).

Definition upper (c : ascii) : ascii :=
  if is_lower c then ascii_of_nat (code c - 32) else c.

(** [c.toUpperCase()] for a text of one character, on the code units
    below 256: the ASCII letters and the Latin-1 letters from 224 to 254
    (247, the division sign, apart) lose 32, and 223, the sharp s, becomes
    the two letters [SS].  The capitals of 255 and of 181 lie above 255:
    each is one code unit and not an ASCII character, and the code unit
    itself stands for it. *)
Definition upperText (c : ascii) : string :=
  if is_lower c then String (ascii_of_nat (code c - 32)) EmptyString
  else if Nat.eqb (code c) 223 then String "S" (String "S" EmptyString)
  else if (between 224 254 c && negb (Nat.eqb (code c) 247))%bool
       then String (ascii_of_nat (code c - 32)) EmptyString
  else String c EmptyString.

(** [s.toUpperCase()] *)
Fixpoint toUpperCase (s : string) : string :=
  match s with
  | EmptyString => EmptyString
  | String c s' => upperText c ++ toUpperCase s'
  end.

Fixpoint trimStart (s : string) : string :=
  match s with
  | String c s' => if is_space c then trimStart s' else s
  | EmptyString => EmptyString
  end.

Fixpoint rev_string (s acc : string) : string :=
  match s with
  | EmptyString => acc
  | String c s' => rev_string s' (String c acc)
  end.

Definition trimEnd (s : string) : string :=
  rev_string (trimStart (rev_string s "")) "".

Definition trim (s : string) : string := trimEnd (trimStart s).

Definition is_empty (s : string) : bool :=
  match s with EmptyString => true | _ => false end.

(** [s.startsWith(p)] *)
Definition startsWith (p s : string) : bool := String.prefix p s.

Fixpoint drop (n : nat) (s : string) : string :=
  match n, s with
  | S n', String _ s' => drop n' s'
  | _, _ => s
  end.

Fixpoint take (n : nat) (s : string) : string :=
  match n, s with
  | S n', String c s' => String c (take n' s')
  | _, _ => EmptyString
  end.

(** [s.indexOf(p)]: position of the first occurrence, [None] for -1. *)
Fixpoint indexOf_from (p s : string) (i : nat) : option nat :=
  if String.prefix p s then Some i
  else match s with
       | EmptyString => None
       | String _ s' => indexOf_from p s' (S i)
       end.
Definition indexOf (p s : string) : option nat := indexOf_from p s 0.

(** [s.replace(p, '')] with a string pattern: removes the first
    occurrence only. *)
Definition remove_first (p s : string) : string :=
  match indexOf p s with
  | Some i => take i s ++ drop (i + String.length p) s
  | None => s
  end.

(** [s.endsWith(p)] *)
Definition endsWith (p s : string) : bool :=
  String.prefix (rev_string p "") (rev_string s "").

(** *** parseInt with no radix *)

Definition digit_val (hex : bool) (c : ascii) : option Z :=
  if is_digit c then Some (Z.of_nat (code c - 48))
  else if hex && between 97 102 c then Some (Z.of_nat (code c - 87))
  else if hex && between 65 70 c then Some (Z.of_nat (code c - 55))
  else None.

Fixpoint digits (hex : bool) (s : string) (acc : option Z) : option Z :=
  match s with
  | EmptyString => acc
  | String c s' =>
      match digit_val hex c with
      | Some d =>
          let base := if hex then 16 else 10 in
          digits hex s' (Some (match acc with Some a => a * base + d | None => d end))
      | None => acc
      end
  end.

Definition parseInt_unsigned (s : string) : option Z :=
  match s with
  | String "0" (String x s') =>
      if (Ascii.eqb x "x" || Ascii.eqb x "X")%bool then digits true s' None
      else digits false s None
  | _ => digits false s None
  end.

(** What [parseInt] returns: NaN, an integer-valued double, or an
    infinity. *)
Inductive number : Type :=
| NotANumber
| Integer (z : Z)
| Infinity (negative : bool).

(** The number that an integer is read as: the nearest double, which is
    an infinity from [2^1024 - 2^970] on. *)
Definition to_number (z : Z) : number :=
  let r := round53 z in
  if Z.abs r <? 2 ^ 1024 then Integer r else Infinity (z <? 0).

(** [a >= b] and [a <= b] for such a number and the number of a [Date]
    getter: every comparison with NaN is false. *)
Definition number_ge (a : number) (b : jsnum) : bool :=
  match a, b with
  | Integer x, Num y => y <=? x
  | Infinity negative, Num _ => negb negative
  | _, _ => false
  end.
Definition number_le (a : number) (b : jsnum) : bool :=
  match a, b with
  | Integer x, Num y => x <=? y
  | Infinity negative, Num _ => negative
  | _, _ => false
  end.

(** [parseInt(s)]: leading white space, a sign, an optional [0x]
    prefix, then the longest run of digits, read as a double; NaN when
    there is no digit.  The double is the one nearest to the integer
    written, as V8 computes it (past twenty digits the standard leaves the
    later digits to the implementation). *)
Definition parseInt (s : string) : number :=
  let t := trimStart s in
  let '(neg, u) :=
    match t with
    | String "-" t' => (true, t')
    | String "+" t' => (false, t')
    | _ => (false, t)
    end in
  match parseInt_unsigned u with
  | Some n => to_number (if neg then - n else n)
  | None => NotANumber
  end.

Definition string_of_nat (n : nat) : string :=
  NilEmpty.string_of_uint (Nat.to_uint n).

End JS.

(** ** Regular expressions

    The patterns of the source are written as values of [re] and run by a
    backtracking matcher with the priorities of [RegExp.prototype.exec]:
    alternatives left to right, greedy repetition longest first, lazy
    repetition shortest first.  Repetition is only ever applied to a
    character class in the source, so [Rep] takes a class. *)

Module Regex.
Import JS.

Inductive re : Type :=
| Eps
| Chr (c : ascii)                       (* a literal character *)
| Cls (p : ascii -> bool)               (* a class: \s \w \d . [^..] *)
| Rep (greedy : bool) (min : nat) (p : ascii -> bool)   (* p*, p+, p*? *)
| Seq (a b : re)
| Alt (a b : re)
| Opt (a : re)                          (* (?:a)? and a? *)
| Cap (n : nat) (a : re)                (* the n-th capturing group *)
| Eos                                   (* $ *)
| WordB.                                (* \b *)

(** Captures: group number and captured text, most recent first. *)
Definition caps : Type := list (nat * string).

Fixpoint cap_lookup (n : nat) (c : caps) : option string :=
  match c with
  | [] => None
  | (m, s) :: c' => if Nat.eqb n m then Some s else cap_lookup n c'
  end.

(** A successful match: where it starts, what it covers, its groups. *)
Record rmatch : Type := mkMatch {
  m_index : nat;
  m_text : string;
  m_caps : caps
}.

(** [group m n] is [m[n]], [None] for [undefined]. *)
Definition group (m : rmatch) (n : nat) : option string :=
  match n with
  | O => Some (m_text m)
  | _ => cap_lookup n (m_caps m)
  end.

Definition string_of_rev (l : list ascii) : string :=
  fold_left (fun acc c => String c acc) l EmptyString.

Section Matcher.
Variable R : Type.
Variable icase : bool.               (* the [i] flag *)

(** The input left, the input consumed so far (reversed, from the start
    of the subject) and the groups. *)
Definition cont : Type := string -> list ascii -> caps -> option R.

Definition chr_eq (c a : ascii) : bool :=
  if icase then Ascii.eqb (upper c) (upper a) else Ascii.eqb c a.

Fixpoint rep_greedy (p : ascii -> bool) (k : cont) (n : nat)
         (s : string) (pre : list ascii) (c : caps) : option R :=
  let stop := match n with O => k s pre c | S _ => None end in
  match s with
  | String a s' =>
      if p a then
        match rep_greedy p k (Nat.pred n) s' (a :: pre) c with
        | Some r => Some r
        | None => stop
        end
      else stop
  | EmptyString => stop
  end.

Fixpoint rep_lazy (p : ascii -> bool) (k : cont) (n : nat)
         (s : string) (pre : list ascii) (c : caps) : option R :=
  let more :=
    match s with
    | String a s' => if p a then rep_lazy p k (Nat.pred n) s' (a :: pre) c else None
    | EmptyString => None
    end in
  match n with
  | O => match k s pre c with Some r => Some r | None => more end
  | S _ => more
  end.

Definition at_word_boundary (s : string) (pre : list ascii) : bool :=
  let before := match pre with a :: _ => is_word a | [] => false end in
  let after := match s with String a _ => is_word a | EmptyString => false end in
  negb (Bool.eqb before after).

Fixpoint run (r : re) (k : cont) (s : string) (pre : list ascii) (c : caps)
  : option R :=
  match r with
  | Eps => k s pre c
  | Chr x =>
      match s with
      | String a s' => if chr_eq x a then k s' (a :: pre) c else None
      | EmptyString => None
      end
  | Cls p =>
      match s with
      | String a s' => if p a then k s' (a :: pre) c else None
      | EmptyString => None
      end
  | Rep true n p => rep_greedy p k n s pre c
  | Rep false n p => rep_lazy p k n s pre c
  | Seq a b => run a (run b k) s pre c
  | Alt a b =>
      match run a k s pre c with
      | Some x => Some x
      | None => run b k s pre c
      end
  | Opt a =>
      match run a k s pre c with
      | Some x => Some x
      | None => k s pre c
      end
  | Cap n a =>
      run a (fun s' pre' c' =>
               let got := firstn (List.length pre' - List.length pre) pre' in
               k s' pre' ((n, string_of_rev got) :: c'))
          s pre c
  | Eos => match s with EmptyString => k s pre c | _ => None end
  | WordB => if at_word_boundary s pre then k s pre c else None
  end.
End Matcher.

Arguments run {R}.

(** One attempt at the current position. *)
Definition match_here (icase : bool) (r : re) (s : string) (pre : list ascii)
  : option rmatch :=
  run icase r
      (fun _ pre' c =>
         Some (mkMatch (List.length pre)
                       (string_of_rev (firstn (List.length pre' - List.length pre) pre'))
                       c))
      s pre [].

(** The leftmost match at or after the current position. *)
Fixpoint search (icase : bool) (r : re) (s : string) (pre : list ascii)
  : option rmatch :=
  match match_here icase r s pre with
  | Some m => Some m
  | None =>
      match s with
      | EmptyString => None
      | String a s' => search icase r s' (a :: pre)
      end
  end.

(** [s.match(r)] for a pattern without the [g] flag. *)
Definition exec (icase : bool) (r : re) (s : string) : option rmatch :=
  search icase r s [].

(** [s.split(r)] for a separator that never matches the empty string:
    [skip] counts the characters of the separator still to pass. *)
Fixpoint split_go (icase : bool) (r : re) (s : string) (pre cur : list ascii)
         (skip : nat) : list string :=
  match s with
  | EmptyString => [string_of_rev cur]
  | String a s' =>
      match skip with
      | S n => split_go icase r s' (a :: pre) cur n
      | O =>
          match match_here icase r s pre with
          | Some m =>
              match String.length (m_text m) with
              | S n => string_of_rev cur :: split_go icase r s' (a :: pre) [] n
              | O => split_go icase r s' (a :: pre) (a :: cur) O
              end
          | None => split_go icase r s' (a :: pre) (a :: cur) O
          end
      end
  end.

Definition split (icase : bool) (r : re) (s : string) : list string :=
  split_go icase r s [] [] O.

(** [s.replace(r, f)] for a pattern with the [g] flag that never matches
    the empty string; [f] builds the replacement from the match. *)
Fixpoint replace_go (icase : bool) (r : re) (f : rmatch -> string) (s : string)
         (pre : list ascii) (skip : nat) : string :=
  match s with
  | EmptyString => EmptyString
  | String a s' =>
      match skip with
      | S n => replace_go icase r f s' (a :: pre) n
      | O =>
          match match_here icase r s pre with
          | Some m =>
              match String.length (m_text m) with
              | S n => f m ++ replace_go icase r f s' (a :: pre) n
              | O => String a (replace_go icase r f s' (a :: pre) O)
              end
          | None => String a (replace_go icase r f s' (a :: pre) O)
          end
      end
  end.

Definition replace_all (icase : bool) (r : re) (f : rmatch -> string) (s : string)
  : string :=
  replace_go icase r f s [] O.

(** [s.replace(r, '')] for a pattern without the [g] flag. *)
Definition remove_match (icase : bool) (r : re) (s : string) : string :=
  match exec icase r s with
  | Some m => take (m_index m) s ++ drop (m_index m + String.length (m_text m)) s
  | None => s
  end.

(** *** Pattern notation *)

Fixpoint lit (s : string) : re :=
  match s with
  | EmptyString => Eps
  | String c EmptyString => Chr c
  | String c s' => Seq (Chr c) (lit s')
  end.

Fixpoint seq (l : list re) : re :=
  match l with
  | [] => Eps
  | [r] => r
  | r :: l' => Seq r (seq l')
  end.

Definition ws0 : re := Rep true 0 is_space.          (* \s* *)
Definition ws1 : re := Rep true 1 is_space.          (* \s+ *)
Definition word1 : re := Rep true 1 is_word.         (* \w+ *)
Definition digits1 : re := Rep true 1 is_digit.      (* \d+ *)
Definition lazy_any : re := Rep false 0 is_dot.      (* .*? *)
Definition quoted (n : nat) : re :=                  (* '([^']+)' *)
  seq [Chr "'"; Cap n (Rep true 1 (is_not ["'"%char])); Chr "'"].
Fixpoint times (n : nat) (r : re) : re :=
  match n with
  | O => Eps
  | S O => r
  | S n' => Seq r (times n' r)
  end.

End Regex.

(** ** Data model and runtime *)

Module Model.
Import JS.

(** What a function returns: a value, or a thrown error. *)
Inductive result (A : Type) : Type :=
| Ok (a : A)
| Throw (msg : string).
Arguments Ok {A} a.
Arguments Throw {A} msg.

(** A [Date] object: its calendar fields in local time, or Invalid Date. *)
Record calendar : Type := mkCalendar {
  cal_year : Z;
  cal_month : Z;
  cal_day : Z;
  cal_hours : Z
}.
Definition date : Type := option calendar.

Definition getFullYear (d : date) : jsnum :=
  match d with Some c => Num (cal_year c) | None => NaN end.
Definition getMonth (d : date) : jsnum :=
  match d with Some c => Num (cal_month c) | None => NaN end.
Definition getDate (d : date) : jsnum :=
  match d with Some c => Num (cal_day c) | None => NaN end.
Definition getHours (d : date) : jsnum :=
  match d with Some c => Num (cal_hours c) | None => NaN end.

(** One file of a partition manifest. *)
Record file_entry : Type := mkFile {
  f_path : string;
  f_min_time : Z;
  f_max_time : Z
}.

(** A partition manifest ([metadata.json] once parsed); [md_files] is
    [None] when the document has no [files] array. *)
Record manifest : Type := mkManifest {
  md_min_time : Z;
  md_max_time : Z;
  md_files : option (list file_entry)
}.

(** The directory tree under a measurement.  A regular file carries what
    [JSON.parse] makes of its content ([None]: reading or parsing throws);
    a directory says whether [readdir] succeeds on it. *)
Inductive node : Type :=
| File (json : option manifest)
| Dir (readable : bool) (entries : list (string * node))
| Other.

Definition isFile (n : node) : bool :=
  match n with File _ => true | _ => false end.
Definition isDirectory (n : node) : bool :=
  match n with Dir _ _ => true | _ => false end.

(** JavaScript values of a result row. *)
Inductive value : Type :=
| VUndefined
| VNull
| VBool (b : bool)
| VNumber (n : Z)
| VFloat (repr : string)
| VString (s : string)
| VBigInt (z : Z)
| VDate (ms : jsnum)
| VArray (items : list value)
| VObject (props : list (string * value)).

(** A row: its own enumerable properties in the order of
    [Object.entries]. *)
Definition row : Type := list (string * value).

(** The time range of a query descriptor. *)
Record timeRange : Type := mkRange {
  start : option jsnum;
  end_ : option jsnum;
  timeCondition : option string
}.

Record descriptor : Type := mkDescriptor {
  columns : string;
  dbName : string;
  measurement : string;
  range : timeRange;
  whereConditions : string;
  orderBy : string;
  groupBy : string;
  having : string;
  limit : option number
}.

(** The runtime the core runs on. *)
Record Runtime : Type := mkRuntime {
  (** [Date.now()], in milliseconds *)
  date_now : Z;
  (** [new Date(s).getTime()] *)
  date_getTime : string -> jsnum;
  (** [new Date(s)] for a directory's date string *)
  date_of_string : string -> date;
  (** [new Date(v / 1000000)] for a bound in nanoseconds *)
  date_of_nanos : option jsnum -> date;
  (** [new Date(y, m, d)] as a number: local midnight *)
  date_only : jsnum -> jsnum -> jsnum -> jsnum;
  (** [path.join(a, b)] and [path.basename(p)] *)
  path_join : string -> string -> string;
  path_basename : string -> string;
  (** [fs.existsSync(p)] for a path recorded in a manifest *)
  existsSync : string -> bool;
  (** what lies at a measurement's base path, if anything *)
  fs_stat : string -> option node;
  (** [this.dataDir] *)
  dataDir : string;
  (** [connection.query(sql)] *)
  engine : string -> result (list row);
  (** [String(v)] for a value appended to a string *)
  to_string : value -> string;
  (** [s.replace(new RegExp(source, 'i'), '')] for a source and a text
      [s]: the text without the first match, or the SyntaxError of a
      source that is no pattern *)
  regexp_remove : string -> string -> result string
}.

End Model.

(** ** QueryClient.js *)

Module QueryClient.
Import JS Regex Model.

Section WithRuntime.
Context (rt : Runtime).

(** *** Time-predicate extractor *)

(** [/time\s*(>=|>)\s*'([^']+)'/i] *)
Definition timePattern0 : re :=
  seq [lit "time"; ws0; Cap 1 (Alt (lit ">=") (lit ">")); ws0; quoted 2].
(** [/time\s*(<=|<)\s*'([^']+)'/i] *)
Definition timePattern1 : re :=
  seq [lit "time"; ws0; Cap 1 (Alt (lit "<=") (lit "<")); ws0; quoted 2].
(** [/time\s*=\s*'([^']+)'/i] *)
Definition timePattern2 : re :=
  seq [lit "time"; ws0; Chr "="; ws0; quoted 1].
(** [/time\s+BETWEEN\s+'([^']+)'\s+AND\s+'([^']+)'/i] *)
Definition timePattern3 : re :=
  seq [lit "time"; ws1; lit "BETWEEN"; ws1; quoted 1; ws1; lit "AND"; ws1; quoted 2].

(** [/\bWHERE\s+(.*?)(?:\s+(?:GROUP\s+BY|ORDER\s+BY|LIMIT|HAVING|$))/i] *)
Definition wherePattern : re :=
  seq [WordB; lit "WHERE"; ws1; Cap 1 lazy_any;
       ws1;
       Alt (seq [lit "GROUP"; ws1; lit "BY"])
           (Alt (seq [lit "ORDER"; ws1; lit "BY"])
                (Alt (lit "LIMIT") (Alt (lit "HAVING") Eos)))].

(** A group that took part in the match; the empty string stands for a
    group that did not (none of the groups read below is optional). *)
Definition grp (m : rmatch) (n : nat) : string :=
  match group m n with Some s => s | None => "" end.

(** [new Date(s).getTime() * 1000000] *)
Definition nanos (s : string) : jsnum := times_1e6 (date_getTime rt s).

(** The variables of [_extractTimeRange] once the patterns have been
    tried. *)
Record extraction : Type := mkExtraction {
  x_start : option jsnum;
  x_end : option jsnum;
  x_timeCondition : option string;
  x_userSpecified : bool
}.

Definition noExtraction : extraction := mkExtraction None None None false.

(** The [>=]/[>] step. *)
Definition applyStart (m : option rmatch) (x : extraction) : extraction :=
  match m with
  | Some sm =>
      mkExtraction (Some (nanos (grp sm 2))) (x_end x)
                   (Some ("time " ++ grp sm 1 ++ " '" ++ grp sm 2 ++ "'"))
                   true
  | None => x
  end.

(** The [<=]/[<] step; a condition text is truthy when it is a
    non-empty string, and the texts built here never are empty. *)
Definition applyEnd (m : option rmatch) (x : extraction) : extraction :=
  match m with
  | Some em =>
      let cond := "time " ++ grp em 1 ++ " '" ++ grp em 2 ++ "'" in
      mkExtraction (x_start x) (Some (nanos (grp em 2)))
                   (Some (match x_timeCondition x with
                          | Some tc => if is_empty tc then cond else tc ++ " AND " ++ cond
                          | None => cond
                          end))
                   true
  | None => x
  end.

(** The [=] step. *)
Definition applyEqual (m : option rmatch) (x : extraction) : extraction :=
  match m with
  | Some qm =>
      let exactTime := nanos (grp qm 1) in
      mkExtraction (Some exactTime) (Some exactTime)
                   (Some ("time = '" ++ grp qm 1 ++ "'"))
                   true
  | None => x
  end.

(** The pattern block of [_extractTimeRange]: BETWEEN first, and only
    when it does not match the three comparisons, one after the other. *)
Definition matchTimePatterns (whereClause : string) : extraction :=
  match exec true timePattern3 whereClause with
  | Some bm =>
      mkExtraction (Some (nanos (grp bm 1))) (Some (nanos (grp bm 2)))
                   (Some ("time BETWEEN '" ++ grp bm 1 ++ "' AND '" ++ grp bm 2 ++ "'"))
                   true
  | None =>
      applyEqual (exec true timePattern2 whereClause)
        (applyEnd (exec true timePattern1 whereClause)
           (applyStart (exec true timePattern0 whereClause) noExtraction))
  end.

(** The end of [_extractTimeRange]: the defaults for a missing bound. *)
Definition defaultBounds (x : extraction) : timeRange :=
  if negb (x_userSpecified x) then mkRange None None None
  else if truthy (x_start x) && negb (truthy (x_end x)) then
    mkRange (x_start x) (Some (times_1e6 (Num (date_now rt)))) (x_timeCondition x)
  else if negb (truthy (x_start x)) && truthy (x_end x) then
    mkRange (Some (Num 0)) (x_end x) (x_timeCondition x)
  else mkRange (x_start x) (x_end x) (x_timeCondition x).

(** [_extractTimeRange(sql, whereClause = '')] *)
Definition _extractTimeRange (sql whereClause : string) : timeRange :=
  let whereClause :=
    if is_empty whereClause then
      match exec true wherePattern sql with
      | Some wm => trim (grp wm 1)
      | None => ""
      end
    else whereClause in
  defaultBounds (matchTimePatterns whereClause).

(** [_extractTimeRange(sql)] of the earlier class definition: the same
    patterns and defaults, tried on the whole statement. *)
Definition _extractTimeRange_v1 (sql : string) : timeRange :=
  defaultBounds (matchTimePatterns sql).

(** *** parseQuery (the later definition) *)

(** [/SELECT\s+(.*?)\s+FROM/i] *)
Definition selectPattern : re :=
  seq [lit "SELECT"; ws1; Cap 1 lazy_any; ws1; lit "FROM"].
(** [/FROM\s+(?:(\w+)\.)?(\w+)/i] *)
Definition fromPattern : re :=
  seq [lit "FROM"; ws1; Opt (Seq (Cap 1 word1) (Chr ".")); Cap 2 word1].
(** [/\s+WHERE\s+/i] and [/\s+FROM\s+/i] *)
Definition whereSplit : re := seq [ws1; lit "WHERE"; ws1].
Definition fromSplit : re := seq [ws1; lit "FROM"; ws1].
(** [/ORDER\s+BY\s+(.*?)(?:\s+(?:LIMIT|GROUP|HAVING|$))/i] *)
Definition orderByPattern : re :=
  seq [lit "ORDER"; ws1; lit "BY"; ws1; Cap 1 lazy_any; ws1;
       Alt (lit "LIMIT") (Alt (lit "GROUP") (Alt (lit "HAVING") Eos))].
(** [/GROUP\s+BY\s+(.*?)(?:\s+(?:ORDER|LIMIT|HAVING|$))/i] *)
Definition groupByPattern : re :=
  seq [lit "GROUP"; ws1; lit "BY"; ws1; Cap 1 lazy_any; ws1;
       Alt (lit "ORDER") (Alt (lit "LIMIT") (Alt (lit "HAVING") Eos))].
(** [/HAVING\s+(.*?)(?:\s+(?:ORDER|LIMIT|$))/i] *)
Definition havingPattern : re :=
  seq [lit "HAVING"; ws1; Cap 1 lazy_any; ws1;
       Alt (lit "ORDER") (Alt (lit "LIMIT") Eos)].
(** [/LIMIT\s+(\d+)/i] *)
Definition limitPattern : re := seq [lit "LIMIT"; ws1; Cap 1 digits1].

(** [sql.match(p)?.[1] || ''] *)
Definition clauseBody (p : re) (sql : string) : string :=
  match exec true p sql with
  | Some m => grp m 1
  | None => ""
  end.

Definition endClauseKeywords : list string :=
  [" GROUP BY "; " ORDER BY "; " LIMIT "; " HAVING "].

(** One turn of the loop that cuts the WHERE text at a clause keyword. *)
Definition cutAt (whereConditions keyword : string) : string :=
  match indexOf keyword (toUpperCase whereConditions) with
  | Some keywordIndex => take keywordIndex whereConditions
  | None => whereConditions
  end.

Definition normalizeWhitespace (sql : string) : string :=
  trim (replace_all false ws1 (fun _ => " ") sql).

Definition parseQuery (sql dbName : string) : result descriptor :=
  let sql := normalizeWhitespace sql in
  let columns :=
    match exec true selectPattern sql with
    | Some sm => trim (grp sm 1)
    | None => "*"
    end in
  match exec true fromPattern sql with
  | None => Throw "Invalid query: FROM clause not found or invalid"
  | Some fm =>
      let queryDbName :=
        match group fm 1 with
        | Some d => if is_empty d then dbName else d
        | None => dbName
        end in
      let measurement := grp fm 2 in
      let whereConditions :=
        match split true whereSplit sql with
        | _ :: part1 :: _ => fold_left cutAt endClauseKeywords part1
        | _ => ""
        end in
      let timeRange := mkRange None None None in
      let orderBy := clauseBody orderByPattern sql in
      let groupBy := clauseBody groupByPattern sql in
      let having := clauseBody havingPattern sql in
      let limit :=
        match exec true limitPattern sql with
        | Some lm => Some (parseInt (grp lm 1))
        | None => None
        end in
      Ok (mkDescriptor columns queryDbName measurement timeRange
                       whereConditions orderBy groupBy having limit)
  end.

(** *** Partition resolver *)

(** The test that skips a whole manifest:
    [startNs !== null && endNs !== null &&
     (metadata.max_time < startNs || metadata.min_time > endNs)] *)
Definition manifestSkipped (startNs endNs : option jsnum) (md : manifest) : bool :=
  match startNs, endNs with
  | Some s, Some e =>
      lt (Num (md_max_time md)) s || gt (Num (md_min_time md)) e
  | _, _ => false
  end.

(** The test that admits one listed file:
    [startNs === null || endNs === null ||
     (file.max_time >= startNs && file.min_time <= endNs)] *)
Definition fileSelected (startNs endNs : option jsnum) (f : file_entry) : bool :=
  match startNs, endNs with
  | Some s, Some e =>
      ge (Num (f_max_time f)) s && le (Num (f_min_time f)) e
  | _, _ => true
  end.

(** The path-existence step: the recorded path if it exists, else the
    directory joined with its base name if that exists, else none. *)
Definition existingPath (dirPath : string) (f : file_entry) : option string :=
  if existsSync rt (f_path f) then Some (f_path f)
  else
    let localPath := path_join rt dirPath (path_basename rt (f_path f)) in
    if existsSync rt localPath then Some localPath
    else None.

Definition pushExisting (dirPath : string) (filesList : list string)
           (f : file_entry) : list string :=
  match existingPath dirPath f with
  | Some p => filesList ++ [p]
  | None => filesList
  end.

(** The loop [for (const file of metadata.files)] of both
    [_findFilesByHiveStructure] and [_findMetadataFilesRecursively]. *)
Definition pushSelected (dirPath : string) (startNs endNs : option jsnum)
           (files : list file_entry) (filesList : list string) : list string :=
  fold_left
    (fun acc f =>
       if fileSelected startNs endNs f then pushExisting dirPath acc f else acc)
    files filesList.

(** First entry of a listing with the given name. *)
Fixpoint lookupEntry (name : string) (entries : list (string * node)) : option node :=
  match entries with
  | [] => None
  | (n, x) :: rest => if String.eqb n name then Some x else lookupEntry name rest
  end.

(** What a manifest that has been read adds to [relevantFiles]: nothing
    when it is skipped or has no [files] array (iterating over it
    throws, and the error is caught and logged). *)
Definition resolveManifest (hourPath : string) (metadata : manifest)
           (startNs endNs : option jsnum) (relevantFiles : list string)
  : list string :=
  if manifestSkipped startNs endNs metadata then relevantFiles
  else
    match md_files metadata with
    | Some files => pushSelected hourPath startNs endNs files relevantFiles
    | None => relevantFiles
    end.

(** The body of the loop over hour directories: what one partition
    adds to [relevantFiles].  A directory without [metadata.json] is
    passed over; so is one whose manifest cannot be read or parsed. *)
Definition resolvePartition (hourPath : string) (hourNode : node)
           (startNs endNs : option jsnum) (relevantFiles : list string)
  : list string :=
  match hourNode with
  | Dir _ entries =>
      match lookupEntry "metadata.json" entries with
      | Some (File (Some metadata)) =>
          resolveManifest hourPath metadata startNs endNs relevantFiles
      | _ => relevantFiles
      end
  | _ => relevantFiles
  end.

(** Same calendar day: year, month and day of the month all [===]. *)
Definition sameDay (a b : date) : bool :=
  strict_eq (getFullYear a) (getFullYear b)
  && strict_eq (getMonth a) (getMonth b)
  && strict_eq (getDate a) (getDate b).

(** [parseInt(hourDir.replace('hour=', ''))] *)
Definition hourOf (hourDir : string) : number :=
  parseInt (remove_first "hour=" hourDir).

(** The filter that [_getHourDirectoriesInRange] applies to the
    [hour=] entries of a date directory. *)
Definition hourFilter (dirDate startDate endDate : date) (hourDir : string) : bool :=
  if sameDay startDate dirDate && sameDay endDate dirDate then
    number_ge (hourOf hourDir) (getHours startDate)
    && number_le (hourOf hourDir) (getHours endDate)
  else if sameDay startDate dirDate then
    number_ge (hourOf hourDir) (getHours startDate)
  else if sameDay endDate dirDate then
    number_le (hourOf hourDir) (getHours endDate)
  else true.

(** [_getHourDirectoriesInRange(datePath, startDate, endDate)]: the
    date directory is given by its name and its node ([None] when the
    path does not exist).  Listing something that is not a readable
    directory throws. *)
Definition _getHourDirectoriesInRange (dateDir : string) (dateNode : option node)
           (startDate endDate : date) : result (list (string * node)) :=
  match dateNode with
  | None => Ok []
  | Some (Dir true allDirs) =>
      let hourDirs := filter (fun d => startsWith "hour=" (fst d)) allDirs in
      let dateStr := remove_first "date=" dateDir in
      let dirDate := date_of_string rt dateStr in
      Ok (filter (fun d => hourFilter dirDate startDate endDate (fst d)) hourDirs)
  | Some _ => Throw "readdir"
  end.

(** A date reduced to its day: [new Date(y, m, d)] as a number. *)
Definition dateOnly (d : date) : jsnum :=
  date_only rt (getFullYear d) (getMonth d) (getDate d).

Definition basePathOf (dbName measurement : string) : string :=
  path_join rt (path_join rt (dataDir rt) dbName) measurement.

(** [_getDateDirectoriesInRange(dbName, measurement, startDate, endDate)] *)
Definition _getDateDirectoriesInRange (dbName measurement : string)
           (startDate endDate : date) : result (list (string * node)) :=
  match fs_stat rt (basePathOf dbName measurement) with
  | None => Ok []
  | Some (Dir true allDirs) =>
      let dateDirs := filter (fun d => startsWith "date=" (fst d)) allDirs in
      Ok (filter
            (fun d =>
               let dirDate := date_of_string rt (remove_first "date=" (fst d)) in
               ge (dateOnly dirDate) (dateOnly startDate)
               && le (dateOnly dirDate) (dateOnly endDate))
            dateDirs)
  | Some _ => Throw "readdir"
  end.

(** The loop over date directories; an error raised while listing one
    of them leaves the function. *)
Fixpoint resolveDates (basePath : string) (dateDirectories : list (string * node))
         (startDate endDate : date) (startNs endNs : option jsnum)
         (relevantFiles : list string) : result (list string) :=
  match dateDirectories with
  | [] => Ok relevantFiles
  | (dateDir, dateNode) :: rest =>
      let datePath := path_join rt basePath dateDir in
      match _getHourDirectoriesInRange dateDir (Some dateNode) startDate endDate with
      | Throw msg => Throw msg
      | Ok hourDirs =>
          let relevantFiles :=
            fold_left
              (fun acc h =>
                 resolvePartition (path_join rt datePath (fst h)) (snd h)
                                  startNs endNs acc)
              hourDirs relevantFiles in
          resolveDates basePath rest startDate endDate startNs endNs relevantFiles
      end
  end.

(** [_findFilesByHiveStructure(dbName, measurement, startDate, endDate,
    startNs, endNs)] *)
Definition _findFilesByHiveStructure (dbName measurement : string)
           (startDate endDate : date) (startNs endNs : option jsnum)
  : result (list string) :=
  match _getDateDirectoriesInRange dbName measurement startDate endDate with
  | Throw msg => Throw msg
  | Ok dateDirectories =>
      resolveDates (basePathOf dbName measurement) dateDirectories
                   startDate endDate startNs endNs []
  end.

(** *** Fallback resolver *)

(** The state of a directory walk: the list the walk pushes to, and a
    log of the directories it has listed, each with its nesting level
    below the directory the walk started from.  The log is not in the
    source; it is kept to state where a walk goes. *)
Record walk : Type := mkWalk {
  filesList : list string;
  visited : list (nat * string)
}.

Definition enter (level : nat) (dirPath : string) (w : walk) : walk :=
  mkWalk (filesList w) (visited w ++ [(level, dirPath)]).

Definition push (p : string) (w : walk) : walk :=
  mkWalk (filesList w ++ [p]) (visited w).

Definition isMetadataEntry (e : string * node) : bool :=
  isFile (snd e) && String.eqb (fst e) "metadata.json".

(** The loop that collects the [.parquet] files of a directory. *)
Definition pushParquet (dirPath : string) (entries : list (string * node))
           (w : walk) : walk :=
  fold_left
    (fun acc e =>
       if isFile (snd e) && endsWith ".parquet" (fst e)
       then push (path_join rt dirPath (fst e)) acc
       else acc)
    entries w.

(** [_findMetadataFilesRecursively(dirPath, filesList, startNs, endNs)];
    [n] is what lies at [dirPath].  A directory whose manifest does not
    overlap the interval makes the function return at once, before its
    subdirectories are looked at. *)
Fixpoint _findMetadataFilesRecursively (level : nat) (dirPath : string) (n : node)
         (startNs endNs : option jsnum) (w : walk) : walk :=
  match n with
  | Dir true entries =>
      let w := enter level dirPath w in
      let subdirectories (w : walk) : walk :=
        fold_left
          (fun acc e =>
             let '(name, child) := e in
             if isDirectory child then
               _findMetadataFilesRecursively
                 (S level) (path_join rt dirPath name) child startNs endNs acc
             else acc)
          entries w in
      match find isMetadataEntry entries with
      | Some (_, File (Some metadata)) =>
          if manifestSkipped startNs endNs metadata then w
          else
            subdirectories
              match md_files metadata with
              | Some files =>
                  mkWalk (pushSelected dirPath startNs endNs files (filesList w))
                         (visited w)
              | None => w
              end
      | Some _ => subdirectories w
      | None => subdirectories (pushParquet dirPath entries w)
      end
  | _ => w
  end.

(** The loop of [_findFilesRecursively] over a manifest's files: only
    the recorded path is tried. *)
Definition pushRecorded (files : list file_entry) (w : walk) : walk :=
  fold_left
    (fun acc f => if existsSync rt (f_path f) then push (f_path f) acc else acc)
    files w.

(** [_findFilesRecursively(dirPath, filesList)] *)
Fixpoint _findFilesRecursively (level : nat) (dirPath : string) (n : node)
         (w : walk) : walk :=
  match n with
  | Dir true entries =>
      let w := enter level dirPath w in
      let w :=
        match find isMetadataEntry entries with
        | Some (_, File (Some metadata)) =>
            match md_files metadata with
            | Some files => pushRecorded files w
            | None => w
            end
        | _ => w
        end in
      let w := pushParquet dirPath entries w in
      fold_left
        (fun acc e =>
           let '(name, child) := e in
           if isDirectory child then
             _findFilesRecursively (S level) (path_join rt dirPath name) child acc
           else acc)
        entries w
  | _ => w
  end.

Definition emptyWalk : walk := mkWalk [] [].

(** The walk that [_findAllFiles] starts, with its log. *)
Definition allFilesWalk (dbName measurement : string) : walk :=
  let basePath := basePathOf dbName measurement in
  match fs_stat rt basePath with
  | None => emptyWalk
  | Some n => _findFilesRecursively 0 basePath n emptyWalk
  end.

(** [_findAllFiles(dbName, measurement)] *)
Definition _findAllFiles (dbName measurement : string) : list string :=
  filesList (allFilesWalk dbName measurement).

(** The walk that [findRelevantFiles] starts when the Hive structure
    gave nothing, with its log. *)
Definition fallbackWalk (dbName measurement : string)
           (startNs endNs : option jsnum) : walk :=
  let basePath := basePathOf dbName measurement in
  match fs_stat rt basePath with
  | None => emptyWalk
  | Some n => _findMetadataFilesRecursively 0 basePath n startNs endNs emptyWalk
  end.

(** *** findRelevantFiles *)

Definition isNull {A : Type} (v : option A) : bool :=
  match v with None => true | Some _ => false end.

Definition findRelevantFiles (dbName measurement : string) (tr : timeRange)
  : list string :=
  if isNull (start tr) && isNull (end_ tr) then _findAllFiles dbName measurement
  else
    let startDate := date_of_nanos rt (start tr) in
    let endDate := date_of_nanos rt (end_ tr) in
    match _findFilesByHiveStructure dbName measurement startDate endDate
                                    (start tr) (end_ tr) with
    | Ok [] => filesList (fallbackWalk dbName measurement (start tr) (end_ tr))
    | Ok relevantFiles => relevantFiles
    | Throw _ => []
    end.

(** *** query (the later definition) *)

Definition string_of_Z (z : Z) : string :=
  NilEmpty.string_of_int (Z.to_int z).

(** [`${n}`] for a number of [parseInt]: its digits below [10^21], and
    from there on what the runtime prints for it (an exponent form). *)
Definition string_of_number (n : number) : string :=
  match n with
  | NotANumber => "NaN"
  | Infinity negative => if negative then "-Infinity" else "Infinity"
  | Integer z => if Z.abs z <? 10 ^ 21 then string_of_Z z else to_string rt (VNumber z)
  end.

Definition dquote : ascii := ascii_of_nat 34.

(** The pattern [timestampRegex] of the source, with the [g] flag: one
    character that is neither quote, then
    [\d{4}-\d{2}-\d{2}T\d{2}:\d{2}:\d{2}(?:\.\d+)?Z?]. *)
Definition timestampRegex : re :=
  let d := Cls is_digit in
  seq [Cap 1 (Cls (is_not ["'"%char; dquote]));
       Cap 2 (seq [times 4 d; Chr "-"; times 2 d; Chr "-"; times 2 d; Chr "T";
                   times 2 d; Chr ":"; times 2 d; Chr ":"; times 2 d;
                   Opt (Seq (Chr ".") digits1); Opt (Chr "Z")])].

(** [text.replace(timestampRegex, ...)]: the second group comes back
    between single quotes, after the first. *)
Definition quoteTimestamps (text : string) : string :=
  replace_all false timestampRegex
              (fun m => grp m 1 ++ "'" ++ grp m 2 ++ "'") text.

(** [FROM read_parquet([...], union_by_name = true)] *)
Definition fromPart (files : list string) : string :=
  "FROM read_parquet(["
    ++ String.concat ", " (map (fun f => "'" ++ f ++ "'") files)
    ++ "], union_by_name = true)".

(** A text of word characters: in the source of a pattern it stands for
    itself. *)
Definition isWordText (s : string) : bool :=
  forallb is_word (list_ascii_of_string s).

(** The source [`(?:${parsed.dbName}\\.)?${parsed.measurement}\\b`] of
    the pattern that [new RegExp] is given. *)
Definition tableSource (parsed : descriptor) : string :=
  "(?:" ++ dbName parsed ++ "\.)?" ++ measurement parsed ++ "\b".

(** What that source denotes when the two names are made of word
    characters. *)
Definition tablePattern (parsed : descriptor) : re :=
  seq [Opt (Seq (lit (dbName parsed)) (Chr ".")); lit (measurement parsed); WordB].

(** [originalParts[1].replace(tablePattern, '')].  The names go into
    the source as they are: a name that holds other characters than word
    characters is read as pattern syntax, and what the pattern then is,
    or that it is none, is the runtime's to say. *)
Definition removeTable (parsed : descriptor) (part1 : string) : result string :=
  if isWordText (dbName parsed) && isWordText (measurement parsed)
  then Ok (remove_match true (tablePattern parsed) part1)
  else regexp_remove rt (tableSource parsed) part1.

Definition nonBlank (s : string) : bool := negb (is_empty (trim s)).

(** The statement built for the engine, or the SyntaxError of the
    table pattern. *)
Definition duckdbQuery (sql : string) (parsed : descriptor) (files : list string)
  : result string :=
  match split true fromSplit sql with
  | part0 :: part1 :: _ =>
      match removeTable parsed part1 with
      | Throw msg => Throw msg
      | Ok removed =>
          let restOfQuery := trim removed in
          Ok (if is_empty restOfQuery then part0 ++ " " ++ fromPart files
              else part0 ++ " " ++ fromPart files ++ " " ++ quoteTimestamps restOfQuery)
      end
  | _ =>
      let q := "SELECT " ++ columns parsed ++ " " ++ fromPart files in
      let q := if nonBlank (whereConditions parsed)
               then q ++ " WHERE " ++ quoteTimestamps (whereConditions parsed) else q in
      let q := if nonBlank (groupBy parsed)
               then q ++ " GROUP BY " ++ groupBy parsed else q in
      let q := if nonBlank (having parsed)
               then q ++ " HAVING " ++ having parsed else q in
      let q := if nonBlank (orderBy parsed)
               then q ++ " ORDER BY " ++ orderBy parsed else q in
      Ok match limit parsed with
         | Some l => q ++ " LIMIT " ++ string_of_number l
         | None => q
         end
  end.

(** What a call of [query] does: what it returns or throws, and the
    statements it has handed to the engine, in order. *)
Record outcome : Type := mkOutcome {
  returned : result (list row);
  engineCalls : list string
}.

(** [query(sql, dbName)]; [connected] says whether [this.connection]
    is set. *)
Definition query (connected : bool) (sql dbName : string) : outcome :=
  if negb connected then mkOutcome (Throw "QueryClient not initialized") []
  else
    match parseQuery sql dbName with
    | Throw msg => mkOutcome (Throw msg) []
    | Ok parsed =>
        let files :=
          findRelevantFiles (Model.dbName parsed) (measurement parsed) (range parsed) in
        match files with
        | [] => mkOutcome (Ok []) []
        | _ =>
            match duckdbQuery sql parsed files with
            | Throw msg => mkOutcome (Throw msg) []
            | Ok statement =>
                match engine rt statement with
                | Ok result => mkOutcome (Ok result) [statement]
                | Throw msg =>
                    mkOutcome (Throw ("DuckDB query execution failed: " ++ msg))
                              [statement]
                end
            end
        end
    end.

End WithRuntime.
End QueryClient.

(** ** QueryServer.js *)

Module QueryServer.
Import JS Model.

Section WithRuntime.
Context (rt : Runtime).

(** *** The normalisation step of the [/query] handler *)

(** [value[k]] on an object's own properties. *)
Fixpoint getProp (k : string) (props : list (string * value)) : option value :=
  match props with
  | [] => None
  | (n, v) :: rest => if String.eqb n k then Some v else getProp k rest
  end.

(** [Object.keys(value).includes(k)] and [k in value] *)
Definition hasKey (k : string) (props : list (string * value)) : bool :=
  existsb (fun p => String.eqb (fst p) k) props.

(** [key.includes('count')] *)
Definition includes (needle s : string) : bool :=
  match indexOf needle s with Some _ => true | None => false end.

(** The loop [while (value[i.toString()] !== undefined)]: the
    characters from index [i] on, or [None] when [fuel] turns of the
    loop were not enough. *)
Fixpoint bufferFrom (props : list (string * value)) (fuel i : nat) : option string :=
  match fuel with
  | O => None
  | S fuel' =>
      match getProp (string_of_nat i) props with
      | None | Some VUndefined => Some ""
      | Some v =>
          match bufferFrom props fuel' (S i) with
          | Some tail => Some (to_string rt v ++ tail)
          | None => None
          end
      end
  end.

(** An object has finitely many properties, so one turn more than it
    has properties is enough. *)
Definition bufferString (props : list (string * value)) : string :=
  match bufferFrom props (S (List.length props)) 0 with
  | Some str => str
  | None => ""
  end.

(** A string-like object of the engine: numeric keys from ['0'] and a
    [ptr] property. *)
Definition isCharBuffer (v : value) : bool :=
  match v with
  | VObject props => hasKey "0" props && hasKey "ptr" props
  | _ => false
  end.

Definition isNullValue (v : value) : bool :=
  match v with VNull => true | _ => false end.

Definition isBigInt (v : value) : bool :=
  match v with VBigInt _ => true | _ => false end.

(** What the handler stores in [fixedRow[key]]. *)
Definition fixValue (key : string) (v : value) : value :=
  if includes "count" key && isNullValue v then VNumber 0
  else
    match v with
    | VBigInt z => VString (QueryClient.string_of_Z z)
    | VObject props =>
        if hasKey "0" props then
          if hasKey "ptr" props then VString (bufferString props) else v
        else v
    | _ => v
    end.

(** The callback of [result.map]. *)
Definition fixRow (r : row) : row :=
  map (fun kv => (fst kv, fixValue (fst kv) (snd kv))) r.

Definition processedResults (result : list row) : list row :=
  map fixRow result.

(** A property that the step has nothing to do with: its value is no
    BigInt, it is not a null under a name that contains [count], and
    its value is no character buffer. *)
Definition normalized (kv : string * value) : Prop :=
  isBigInt (snd kv) = false
  /\ includes "count" (fst kv) && isNullValue (snd kv) = false
  /\ isCharBuffer (snd kv) = false.

(** The answer of the [/query] handler. *)
Inductive response : Type :=
| Results (status : nat) (rows : list row)
| Error (status : nat) (message : string).

Definition handleQuery (connected : bool) (queryText : option string) (dbName : string)
  : response :=
  match queryText with
  | None => Error 400 "Missing query parameter"
  | Some q =>
      if is_empty q then Error 400 "Missing query parameter"
      else
        match QueryClient.returned (QueryClient.query rt connected q dbName) with
        | Ok result => Results 200 (processedResults result)
        | Throw msg => Error 500 msg
        end
  end.

(** *** processBigIntInResults and processBigIntInObject

    The helpers of the [/sql] and [/debug] handlers.  [Object.entries] of
    an array are its items under their indices, and a [Date] has none. *)

Fixpoint indexed_from (i : nat) (items : list value) : list (string * value) :=
  match items with
  | [] => []
  | v :: rest => (string_of_nat i, v) :: indexed_from (S i) rest
  end.

(** [processValue] is the chain of tests on one property value;
    [processBigIntInObject] is the function of that name, which is also
    what the callback of [processBigIntInResults] does to a row. *)
Fixpoint processValue (v : value) : value :=
  match v with
  | VBigInt z => VString (QueryClient.string_of_Z z)
  | VArray items => VArray (map processBigIntInObject items)
  | VObject props => VObject (map (fun kv => (fst kv, processValue (snd kv))) props)
  | VDate _ => VObject []
  | _ => v
  end
with processBigIntInObject (obj : value) : value :=
  match obj with
  | VObject props => VObject (map (fun kv => (fst kv, processValue (snd kv))) props)
  | VArray items => VObject (indexed_from 0 (map processValue items))
  | VDate _ => VObject []
  | _ => obj
  end.

Definition processBigIntInResults (results : list value) : list value :=
  map processBigIntInObject results.

(** A value that is neither a BigInt nor an object of any kind. *)
Definition isPlain (v : value) : bool :=
  match v with
  | VBigInt _ | VDate _ | VArray _ | VObject _ => false
  | _ => true
  end.

(** *** The walk of the [/debug] handler *)

Record debugWalk : Type := mkDebugWalk {
  parquetFiles : list string;
  metadataFiles : list (string * option manifest);
  listed : list (nat * string)
}.

Definition emptyDebugWalk : debugWalk := mkDebugWalk [] [] [].

(** [findFiles(dirPath, level)]: the only walk of the repository that
    carries a level and stops descending at level 10. *)
Fixpoint findFiles (dirPath : string) (n : node) (level : nat) (w : debugWalk)
  : debugWalk :=
  match n with
  | Dir true entries =>
      let w := mkDebugWalk (parquetFiles w) (metadataFiles w)
                           (listed w ++ [(level, dirPath)]) in
      fold_left
        (fun acc e =>
           let '(name, child) := e in
           let fullPath := path_join rt dirPath name in
           match child with
           | File json =>
               if endsWith ".parquet" name then
                 mkDebugWalk (parquetFiles acc ++ [fullPath]) (metadataFiles acc)
                             (listed acc)
               else if String.eqb name "metadata.json" then
                 mkDebugWalk (parquetFiles acc) (metadataFiles acc ++ [(fullPath, json)])
                             (listed acc)
               else acc
           | Dir _ _ =>
               if Nat.ltb level 10 then findFiles fullPath child (S level) acc
               else acc
           | Other => acc
           end)
        entries w
  | _ => w
  end.

End WithRuntime.
End QueryServer.

(** ** lineProtocol.js *)

Module LineProtocol.
Import JS Model.

(** *** Strings *)

(** [s.split(c)] with a separator of one character. *)
Fixpoint split_on (c : ascii) (s : string) : list string :=
  match s with
  | EmptyString => [EmptyString]
  | String a s' =>
      if Ascii.eqb a c then EmptyString :: split_on c s'
      else match split_on c s' with
           | h :: t => String a h :: t
           | [] => [String a EmptyString]
           end
  end.

(** [parts.join(c)] *)
Fixpoint join (c : string) (parts : list string) : string :=
  match parts with
  | [] => ""
  | [p] => p
  | p :: rest => p ++ c ++ join c rest
  end.

(** [s.slice(from, -back)] *)
Definition slice (from back : nat) (s : string) : string :=
  take (String.length s - back - from) (drop from s).

Definition quote : string := String (ascii_of_nat 34) "".
Definition newline : ascii := ascii_of_nat 10.

(** *** Integer literals *)

(** The value of a text made of digits of the base only; [None] when
    another character occurs. *)
Fixpoint digits_all (base : Z) (s : string) (acc : Z) : option Z :=
  match s with
  | EmptyString => Some acc
  | String c s' =>
      match digit_val true c with
      | Some d => if d <? base then digits_all base s' (acc * base + d) else None
      | None => None
      end
  end.

Definition literal (base : Z) (s : string) : option Z :=
  match s with
  | EmptyString => None
  | _ => digits_all base s 0
  end.

(** [BigInt(s)] for a string: white space around the literal is dropped,
    the empty text is [0n], a sign is allowed before decimal digits only,
    and [None] stands for the SyntaxError thrown on anything else. *)
Definition BigInt (s : string) : option Z :=
  let t := trim s in
  match t with
  | EmptyString => Some 0
  | String "0" (String x r) =>
      if (Ascii.eqb x "x" || Ascii.eqb x "X")%bool then literal 16 r
      else if (Ascii.eqb x "o" || Ascii.eqb x "O")%bool then literal 8 r
      else if (Ascii.eqb x "b" || Ascii.eqb x "B")%bool then literal 2 r
      else literal 10 t
  | String "-" r => option_map Z.opp (literal 10 r)
  | String "+" r => literal 10 r
  | _ => literal 10 t
  end.

(** *** Plain objects

    An object is the list of its own properties in the order in which
    [Object.entries] gives them: array indices in ascending order first,
    then the other keys in the order of their creation. *)

Definition obj : Type := list (string * value).

(** An array index: the canonical decimal text of an integer below
    [2^32 - 1]. *)
Definition arrayIndex (k : string) : option Z :=
  match literal 10 k with
  | Some n =>
      if (String.eqb (QueryClient.string_of_Z n) k && (n <? 2 ^ 32 - 1))%bool
      then Some n else None
  | None => None
  end.

(** Whether a new key [k] is enumerated before the existing key [k']. *)
Definition comes_before (k k' : string) : bool :=
  match arrayIndex k, arrayIndex k' with
  | Some i, Some j => i <? j
  | Some _, None => true
  | None, _ => false
  end.

Fixpoint obj_insert (k : string) (v : value) (o : obj) : obj :=
  match o with
  | [] => [(k, v)]
  | (k', v') :: o' =>
      if comes_before k k' then (k, v) :: o
      else (k', v') :: obj_insert k v o'
  end.

Fixpoint obj_replace (k : string) (v : value) (o : obj) : obj :=
  match o with
  | [] => []
  | (k', v') :: o' =>
      if String.eqb k' k then (k', v) :: o'
      else (k', v') :: obj_replace k v o'
  end.

Definition obj_has (k : string) (o : obj) : bool :=
  existsb (fun p => String.eqb (fst p) k) o.

(** [o[k] = v] on an object created by [{}]: the key [__proto__] is the
    accessor inherited from [Object.prototype], so assigning to it adds
    no property. *)
Definition obj_set (k : string) (v : value) (o : obj) : obj :=
  if String.eqb k "__proto__" then o
  else if obj_has k o then obj_replace k v o
  else obj_insert k v o.

(** *** parse, parseLine and format *)

Record point : Type := mkPoint {
  p_measurement : string;
  p_tags : obj;
  p_fields : obj;
  p_timestamp : Z
}.

Section WithRuntime.
(** [parseFloat] belongs to the runtime, like the clock and [String]. *)
Context (rt : Runtime) (parseFloat : string -> value).

(** The number that [parseInt] returns, as a value. *)
Definition number_of (n : number) : value :=
  match n with
  | Integer z => VNumber z
  | NotANumber => VFloat "NaN"
  | Infinity negative => VFloat (if negative then "-Infinity" else "Infinity")
  end.

(** The value of a field, by the form of its text. *)
Definition fieldValue (rawValue : string) : value :=
  if endsWith "i" rawValue then number_of (parseInt (slice 0 1 rawValue))
  else if existsb (String.eqb rawValue) ["t"; "T"; "true"; "True"] then VBool true
  else if existsb (String.eqb rawValue) ["f"; "F"; "false"; "False"] then VBool false
  else if (startsWith quote rawValue && endsWith quote rawValue)%bool
       then VString (slice 1 1 rawValue)
  else parseFloat rawValue.

(** One turn of the loop over the tags: a part that does not split in
    two at [=] is passed over. *)
Definition setTag (tags : obj) (part : string) : obj :=
  match split_on "=" part with
  | [k; v] => obj_set k (VString v) tags
  | _ => tags
  end.

(** One turn of the loop over the fields: without a [=] the value is
    [undefined] and reading [rawValue.endsWith] throws. *)
Definition setField (fields : result obj) (fieldPair : string) : result obj :=
  match fields with
  | Throw msg => Throw msg
  | Ok fs =>
      match split_on "=" fieldPair with
      | key :: rawValue :: _ => Ok (obj_set key (fieldValue rawValue) fs)
      | _ => Throw "undefined is not an object (evaluating 'rawValue.endsWith')"
      end
  end.

Definition parseLine (line : string) : result point :=
  match split_on " " (trim line) with
  | measurementAndTags :: fieldsPart :: rest =>
      let measurementTagsParts := split_on "," measurementAndTags in
      let measurement := hd "" measurementTagsParts in
      let tags := fold_left setTag (tl measurementTagsParts) [] in
      match fold_left setField (split_on "," fieldsPart) (Ok []) with
      | Throw msg => Throw msg
      | Ok fields =>
          match rest with
          | ts :: _ =>
              match BigInt ts with
              | Some t => Ok (mkPoint measurement tags fields t)
              | None => Throw ("Failed to parse String to BigInt: " ++ ts)
              end
          | [] => Ok (mkPoint measurement tags fields (date_now rt * 1000000))
          end
      end
  | _ => Throw ("Invalid line protocol: " ++ line)
  end.

(** Empty lines and comments are skipped. *)
Definition skipped (line : string) : bool :=
  (is_empty (trim line) || startsWith "#" (trim line))%bool.

(** One turn of the loop of [parse]: the error of a line is logged and
    the line contributes nothing. *)
Definition parseStep (points : list point) (line : string) : list point :=
  if skipped line then points
  else match parseLine line with
       | Ok p => points ++ [p]
       | Throw _ => points
       end.

Definition parse (data : string) : list point :=
  fold_left parseStep (split_on newline (trim data)) [].

(** [`${key}=${value}`] *)
Definition tagString (kv : string * value) : string :=
  fst kv ++ "=" ++ to_string rt (snd kv).

Definition fieldString (kv : string * value) : string :=
  match snd kv with
  | VString s => fst kv ++ "=" ++ quote ++ s ++ quote
  | VBool b => fst kv ++ "=" ++ (if b then "t" else "f")
  | VNumber n => fst kv ++ "=" ++ to_string rt (VNumber n) ++ "i"
  | v => fst kv ++ "=" ++ to_string rt v
  end.

(** [format(measurement, tags, fields, timestamp)]; [tags] is [None] for
    a missing argument, and the timestamp, when given, is a BigInt. *)
Definition format (measurement : string) (tags : option obj) (fields : obj)
           (timestamp : option Z) : string :=
  let head :=
    match tags with
    | Some ((_ :: _) as t) => measurement ++ "," ++ join "," (map tagString t)
    | _ => measurement
    end in
  let line := head ++ " " ++ join "," (map fieldString fields) in
  match timestamp with
  | Some t => line ++ " " ++ QueryClient.string_of_Z t
  | None => line
  end.

End WithRuntime.
End LineProtocol.

(** ** QueryClient.js: insert *)

Module Insert.
Import JS Model LineProtocol.

Section WithRuntime.
Context (rt : Runtime) (parseFloat : string -> value).
(** [new Date()] at the i-th turn of the loop over the measurements: the
    date part of [toISOString()] and [getHours()]. *)
Context (clock : nat -> string * Z).
(** [fs.promises.mkdir(p, { recursive: true })]: [None] when it
    succeeds, else the message of the error it rejects with. *)
Context (mkdir : string -> option string).

(** [measurementMap]: a [Map] keeps its keys in the order in which they
    were first set. *)
Fixpoint addPoint (groups : list (string * list point)) (p : point)
  : list (string * list point) :=
  match groups with
  | [] => [(p_measurement p, [p])]
  | (k, ps) :: rest =>
      if String.eqb k (p_measurement p) then (k, (ps ++ [p])%list) :: rest
      else (k, ps) :: addPoint rest p
  end.

Definition measurementMap (points : list point) : list (string * list point) :=
  fold_left addPoint points [].

Definition hourDir (dbName measurement : string) (now : string * Z) : string :=
  let measurementDir := QueryClient.basePathOf rt dbName measurement in
  let dateDir := path_join rt measurementDir ("date=" ++ fst now) in
  path_join rt dateDir ("hour=" ++ QueryClient.string_of_Z (snd now)).

(** The loop over the measurements from its i-th turn on: the
    directories created, or the error of the first [mkdir] that fails.
    Nothing else is written. *)
Fixpoint createDirectories (dbName : string) (i : nat)
         (groups : list (string * list point)) : result (list string) :=
  match groups with
  | [] => Ok []
  | (measurement, _) :: rest =>
      let dir := hourDir dbName measurement (clock i) in
      match mkdir dir with
      | None =>
          match createDirectories dbName (S i) rest with
          | Ok dirs => Ok (dir :: dirs)
          | Throw msg => Throw msg
          end
      | Some msg => Throw msg
      end
  end.

(** What [insert] returns, with the directories it has created. *)
Record inserted : Type := mkInserted {
  success : bool;
  message : string;
  created : list string
}.

Definition insert (dbName lineProtocolData : string) : result inserted :=
  let measurements := parse rt parseFloat lineProtocolData in
  match createDirectories dbName 0 (measurementMap measurements) with
  | Ok dirs =>
      Ok (mkInserted true
                     ("Inserted " ++ string_of_nat (List.length measurements) ++ " points")
                     dirs)
  | Throw msg => Throw msg
  end.

End WithRuntime.
End Insert.

(** ** QueryClient.js: _postProcessResults *)

Module PostProcess.
Import JS Model LineProtocol.

Section WithRuntime.
(** [new Date(ms).toISOString()]; [None] is the RangeError of an invalid
    date. *)
Context (toISOString : jsnum -> option string).

(** [new Date(Number(z / 1000000n)).toISOString()] *)
Definition isoOfNanos (z : Z) : option string :=
  toISOString (Num (round53 (Z.quot z 1000000))).

(** The steps for [time] and [__timestamp]: a BigInt other than [0n]
    gets its text in the column [target]; a failed conversion is logged. *)
Definition addIso (source target : string) (newRow : row) : row :=
  match QueryServer.getProp source newRow with
  | Some (VBigInt z) =>
      if z =? 0 then newRow
      else match isoOfNanos z with
           | Some iso => obj_set target (VString iso) newRow
           | None => newRow
           end
  | _ => newRow
  end.

(** The step for [timestamp], which is not guarded: the RangeError of an
    invalid [Date] leaves the callback. *)
Definition addTimestampIso (newRow : row) : result row :=
  match QueryServer.getProp "timestamp" newRow with
  | Some (VDate ms) =>
      match toISOString ms with
      | Some iso => Ok (obj_set "timestamp_iso" (VString iso) newRow)
      | None => Throw "Invalid Date"
      end
  | _ => Ok newRow
  end.

(** The callback of [results.map]: on an error the row is returned as it
    came. *)
Definition postProcessRow (r : row) : row :=
  match addTimestampIso r with
  | Ok newRow => addIso "__timestamp" "__timestamp_iso" (addIso "time" "time_iso" newRow)
  | Throw _ => r
  end.

Definition _postProcessResults (results : list row) : list row :=
  map postProcessRow results.

End WithRuntime.
End PostProcess.

(** ** Vocabulary of the statements *)

Module Spec.
Import JS Model QueryClient.

(** What one listed file contributes: its existing path, if any. *)
Definition contribution (rt : Runtime) (dirPath : string) (f : file_entry)
  : list string :=
  match existingPath rt dirPath f with
  | Some p => [p]
  | None => []
  end.

(** The files of a manifest, none when it has no [files] array. *)
Definition listedFiles (md : manifest) : list file_entry :=
  match md_files md with
  | Some files => files
  | None => []
  end.

(** The directories of a tree that can be listed, from the top down, each
    with its level and path: a directory counts when [readdir] succeeds on
    it and on every directory above it. *)
Fixpoint directoriesOf (rt : Runtime) (level : nat) (path : string) (n : node)
  : list (nat * string) :=
  match n with
  | Dir true entries =>
      (level, path)
        :: flat_map (fun e => let '(name, child) := e in
                              directoriesOf rt (S level) (path_join rt path name) child)
                    entries
  | _ => []
  end.

Definition isSome {A : Type} (o : option A) : bool :=
  match o with Some _ => true | None => false end.

(** The text of a BETWEEN condition, as [_extractTimeRange] rebuilds it. *)
Definition betweenText (a b : string) : string :=
  "time BETWEEN '" ++ a ++ "' AND '" ++ b ++ "'".

(** *** The resolved set, in the words of the specification *)

(** The manifest of a partition directory, when it has one that can be
    read. *)
Definition manifestOf (partition : node) : option manifest :=
  match partition with
  | Dir _ entries =>
      match lookupEntry "metadata.json" entries with
      | Some (File (Some md)) => Some md
      | _ => None
      end
  | _ => None
  end.

(** A manifest is pruned: both bounds of the query are present and
    [max_time < start] or [min_time > end]. *)
Definition pruned (startNs endNs : option jsnum) (md : manifest) : Prop :=
  exists s e,
    startNs = Some s /\ endNs = Some e
    /\ (JS.lt (Num (md_max_time md)) s = true \/ JS.gt (Num (md_min_time md)) e = true).

(** The file-level test: a bound is null, or [max_time >= start] and
    [min_time <= end]. *)
Definition admitted (startNs endNs : option jsnum) (f : file_entry) : Prop :=
  startNs = None \/ endNs = None
  \/ exists s e,
       startNs = Some s /\ endNs = Some e
       /\ JS.ge (Num (f_max_time f)) s = true /\ JS.le (Num (f_min_time f)) e = true.

(** The path under which a listed file is found: its recorded path when
    that exists, else the directory of the manifest joined with its base
    name when that exists. *)
Definition foundAt (rt : Runtime) (dirPath : string) (f : file_entry) (p : string)
  : Prop :=
  (existsSync rt (f_path f) = true /\ p = f_path f)
  \/ (existsSync rt (f_path f) = false
      /\ p = path_join rt dirPath (path_basename rt (f_path f))
      /\ existsSync rt p = true).

(** The hour partitions of the date directories, each with its path, in
    the order in which the resolver goes through them; the error of a
    date entry that cannot be listed. *)
Fixpoint partitionsOf (rt : Runtime) (basePath : string)
         (dateDirectories : list (string * node)) (startDate endDate : date)
  : result (list (string * node)) :=
  match dateDirectories with
  | [] => Ok []
  | (dateDir, dateNode) :: rest =>
      match _getHourDirectoriesInRange rt dateDir (Some dateNode) startDate endDate with
      | Throw msg => Throw msg
      | Ok hourDirs =>
          match partitionsOf rt basePath rest startDate endDate with
          | Throw msg => Throw msg
          | Ok partitions =>
              Ok (map (fun h => (path_join rt (path_join rt basePath dateDir) (fst h),
                                 snd h))
                      hourDirs
                  ++ partitions)%list
          end
      end
  end.

(** The partitions that the date filter and the hour filter select for a
    query. *)
Definition partitionsInRange (rt : Runtime) (dbName measurement : string)
           (startDate endDate : date) : result (list (string * node)) :=
  match _getDateDirectoriesInRange rt dbName measurement startDate endDate with
  | Throw msg => Throw msg
  | Ok dateDirectories =>
      partitionsOf rt (basePathOf rt dbName measurement) dateDirectories
                   startDate endDate
  end.

(** The manifest of a directory of the fallback walk is pruned. *)
Definition prunedDirectory (startNs endNs : option jsnum)
           (entries : list (string * node)) : Prop :=
  exists name md,
    find isMetadataEntry entries = Some (name, File (Some md))
    /\ pruned startNs endNs md.

(** The directories that the fallback walk reads the content of, from a
    directory down: the directory itself when it can be listed, and what
    is read from its subdirectories unless its own manifest is pruned. *)
Inductive reaches (rt : Runtime) (startNs endNs : option jsnum)
  : string -> node -> string -> list (string * node) -> Prop :=
| reaches_here (dirPath : string) (entries : list (string * node)) :
    reaches rt startNs endNs dirPath (Dir true entries) dirPath entries
| reaches_below (dirPath : string) (entries : list (string * node))
                (name : string) (child : node)
                (p : string) (es : list (string * node)) :
    In (name, child) entries ->
    ~ prunedDirectory startNs endNs entries ->
    reaches rt startNs endNs (path_join rt dirPath name) child p es ->
    reaches rt startNs endNs dirPath (Dir true entries) p es.

(** What the fallback walk collects from a directory it reads: with a
    manifest that can be read and is not pruned, the found paths of the
    listed files that pass the file-level test; with a manifest that
    cannot be read, nothing; without a manifest, its [.parquet] files. *)
Definition collectedAt (rt : Runtime) (startNs endNs : option jsnum)
           (dirPath : string) (entries : list (string * node)) (p : string) : Prop :=
  match find isMetadataEntry entries with
  | Some (_, File (Some md)) =>
      ~ pruned startNs endNs md
      /\ exists f, In f (listedFiles md) /\ admitted startNs endNs f
                   /\ foundAt rt dirPath f p
  | Some _ => False
  | None =>
      exists name json,
        In (name, File json) entries /\ endsWith ".parquet" name = true
        /\ p = path_join rt dirPath name
  end.

(** [readdir] succeeds on the node. *)
Definition isListable (n : node) : bool :=
  match n with Dir true _ => true | _ => false end.

(** No regular file named [metadata.json] anywhere in the tree. *)
Fixpoint manifestFree (n : node) : bool :=
  match n with
  | Dir _ entries =>
      forallb (fun e => let '(name, child) := e in
                        negb (isMetadataEntry (name, child)) && manifestFree child)
              entries
  | _ => true
  end.

(** The number of directory levels below a node. *)
Fixpoint height (n : node) : nat :=
  match n with
  | Dir _ entries =>
      fold_right (fun e acc => let '(name, child) := e in
                               Nat.max (if isDirectory child then S (height child) else 0)
                                       acc)
                 0%nat entries
  | _ => 0%nat
  end.

(** A pattern without capturing groups. *)
Fixpoint capfree (r : Regex.re) : bool :=
  match r with
  | Regex.Seq a b | Regex.Alt a b => capfree a && capfree b
  | Regex.Opt a => capfree a
  | Regex.Cap _ _ => false
  | _ => true
  end.

(** A non-empty text of word characters. *)
Definition isIdentifier (s : string) : Prop :=
  s <> "" /\ forallb is_word (list_ascii_of_string s) = true.

(** The text of a list of strings put end to end. *)
Definition joined (parts : list string) : string :=
  fold_right String.append "" parts.

(** *** The line protocol *)

(** Every character of a text satisfies [p]. *)
Fixpoint all_chars (p : ascii -> bool) (s : string) : bool :=
  match s with
  | EmptyString => true
  | String c s' => (p c && all_chars p s')%bool
  end.

Definition isnt (c : ascii) (a : ascii) : bool := negb (Ascii.eqb a c).

(** A text without white space, comma or equals sign. *)
Definition token_char (c : ascii) : bool :=
  negb (is_space c || Ascii.eqb c "," || Ascii.eqb c "=")%bool.
Definition isToken (s : string) : Prop := all_chars token_char s = true.

Definition nonspace (c : ascii) : bool := negb (is_space c).

(** The characters of the decimal text of an integer. *)
Definition number_char (c : ascii) : bool := (is_digit c || Ascii.eqb c "-")%bool.

(** The keys are in the order of enumeration: no key would have been
    placed before an earlier one. *)
Fixpoint enumerable (keys : list string) : bool :=
  match keys with
  | [] => true
  | k' :: rest =>
      (forallb (fun k => negb (LineProtocol.comes_before k k')) rest
       && enumerable rest)%bool
  end.

(** An object that [{}] and assignments can build, with tokens for keys. *)
Definition isRecord (o : LineProtocol.obj) : Prop :=
  NoDup (map fst o) /\ enumerable (map fst o) = true
  /\ ~ In "__proto__" (map fst o) /\ Forall isToken (map fst o).

Definition isTagValue (v : value) : Prop :=
  match v with VString s => isToken s | _ => False end.

(** Field values that [format] writes with a mark of their type: a
    string without separators, a boolean, an integer that is exact as a
    double. *)
Definition isFieldValue (v : value) : Prop :=
  match v with
  | VString s => isToken s
  | VBool _ => True
  | VNumber n => Z.abs n < 2 ^ 53
  | _ => False
  end.

Definition isWritable (p : LineProtocol.point) : Prop :=
  isToken (LineProtocol.p_measurement p)
  /\ LineProtocol.p_measurement p <> ""
  /\ startsWith "#" (LineProtocol.p_measurement p) = false
  /\ isRecord (LineProtocol.p_tags p)
  /\ Forall (fun kv => isTagValue (snd kv)) (LineProtocol.p_tags p)
  /\ isRecord (LineProtocol.p_fields p)
  /\ LineProtocol.p_fields p <> []
  /\ Forall (fun kv => isFieldValue (snd kv)) (LineProtocol.p_fields p).

(** The line that [format] writes for a point. *)
Definition formatPoint (rt : Runtime) (p : LineProtocol.point) : string :=
  LineProtocol.format rt (LineProtocol.p_measurement p)
                      (Some (LineProtocol.p_tags p)) (LineProtocol.p_fields p)
                      (Some (LineProtocol.p_timestamp p)).

(** One assignment [o[k] = v]. *)
Definition assign (acc : LineProtocol.obj) (kv : string * value) : LineProtocol.obj :=
  LineProtocol.obj_set (fst kv) (snd kv) acc.

(** The text that [format] writes after the [=] of a field. *)
Definition rawText (v : value) : string :=
  match v with
  | VString s => String (ascii_of_nat 34) (s ++ LineProtocol.quote)
  | VBool b => if b then "t" else "f"
  | VNumber n => string_of_Z n ++ "i"
  | _ => ""
  end.

(** A key, an equals sign and a value, both without separators. *)
Definition isPair (s : string) : Prop :=
  exists k raw, s = (k ++ String "=" raw)%string /\ isToken k /\ isToken raw.

(** The part of a line before its first space. *)
Definition headText (rt : Runtime) (m : string) (tags : LineProtocol.obj) : string :=
  match tags with
  | _ :: _ =>
      (m ++ String "," (LineProtocol.join "," (map (LineProtocol.tagString rt) tags)))%string
  | [] => m
  end.

(** A text that starts with a character that is not white space and
    ends in a run without white space. *)
Definition bounded (s : string) : Prop :=
  (exists c r, s = String c r /\ is_space c = false)
  /\ (exists a b, s = (a ++ b)%string /\ b <> "" /\ all_chars nonspace b = true).

(** The columns that [_postProcessResults] may write. *)
Definition isoColumns : list string :=
  ["timestamp_iso"; "time_iso"; "__timestamp_iso"].

(** *** Runs of white space *)

(** The length of the run of [p] at the start of a text. *)
Fixpoint runlen (p : ascii -> bool) (s : string) : nat :=
  match s with
  | String a s' => if p a then S (runlen p s') else O
  | EmptyString => O
  end.

(** A text with every run of white space replaced by one space;
    [inrun] says that the text before ended in white space. *)
Fixpoint collapse (inrun : bool) (s : string) : string :=
  match s with
  | EmptyString => EmptyString
  | String a s' =>
      if is_space a then
        if inrun then collapse true s' else String " " (collapse true s')
      else String a (collapse false s')
  end.

(** A text whose white space is single spaces; [prev] says that the
    character before it is a space. *)
Fixpoint collapsed (prev : bool) (s : string) : bool :=
  match s with
  | EmptyString => true
  | String a s' =>
      if is_space a then (Ascii.eqb a " " && negb prev && collapsed true s')%bool
      else collapsed false s'
  end.

(** *** Days and hours, as the names of the directories give them *)

(** The decimal text of a number on [width] characters at least. *)
Definition padded (width : nat) (n : Z) : string :=
  let t := string_of_Z n in
  String.concat "" (repeat "0" (width - String.length t)) ++ t.

(** The date string [YYYY-MM-DD] of a day, the month counted from 1. *)
Definition isoDay (y m d : Z) : string :=
  padded 4 y ++ "-" ++ padded 2 m ++ "-" ++ padded 2 d.

(** A [Date] object stands on the day [y]-[m]-[d] in local time. *)
Definition onDay (y m d : Z) (c : calendar) : Prop :=
  cal_year c = y /\ cal_month c = m - 1 /\ cal_day c = d.

(** The name of the directory of hour [h]: [hour=] and the decimal text
    of [h], with or without leading zeros. *)
Definition hourNamed (name : string) (h : Z) : Prop :=
  exists t, name = "hour=" ++ t /\ LineProtocol.literal 10 t = Some h.

(** *** Capitals *)

(** Every character but the sharp s, the one character below 256 of
    which the capital has two letters. *)
Definition plainCase (c : ascii) : bool := negb (Nat.eqb (code c) 223).

Definition sharp_s : string := String (ascii_of_nat 223) "".

End Spec.

(** ** A concrete runtime

    A runtime in the UTC time zone over a small data directory, on which
    the definitions above can be run, and the same runtime in a time zone
    away from UTC. *)

Module Demo.
Import JS Model.

(** Days since 1970-01-01 of a proleptic Gregorian date, [m] from 1. *)
Definition days_from_civil (y m d : Z) : Z :=
  let y := if m <=? 2 then y - 1 else y in
  let era := y / 400 in
  let yoe := y - era * 400 in
  let doy := (153 * (m + (if 2 <? m then -3 else 9)) + 2) / 5 + d - 1 in
  let doe := yoe * 365 + yoe / 4 - yoe / 100 + doy in
  era * 146097 + doe - 719468.

(** The date of a day number: year, month from 1, day. *)
Definition civil_from_days (z : Z) : Z * Z * Z :=
  let z := z + 719468 in
  let era := z / 146097 in
  let doe := z - era * 146097 in
  let yoe := (doe - doe / 1460 + doe / 36524 - doe / 146096) / 365 in
  let doy := doe - (365 * yoe + yoe / 4 - yoe / 100) in
  let mp := (5 * doy + 2) / 153 in
  let d := doy - (153 * mp + 2) / 5 + 1 in
  let m := mp + (if mp <? 10 then 3 else -9) in
  (yoe + era * 400 + (if m <=? 2 then 1 else 0), m, d).

(** The calendar fields of an instant in milliseconds, in UTC. *)
Definition calendar_of_ms (ms : Z) : calendar :=
  let '(y, m, d) := civil_from_days (ms / 86400000) in
  mkCalendar y (m - 1) d ((ms mod 86400000) / 3600000).

(** The number written by the [n] characters from position [i], when
    they are all digits. *)
Definition field (s : string) (i n : nat) : option Z :=
  let t := take n (drop i s) in
  if Nat.eqb (String.length t) n && forallb is_digit (list_ascii_of_string t)
  then digits false t None else None.

(** [YYYY-MM-DD], and [YYYY-MM-DDTHH:MM:SS] with or without [Z]. *)
Definition ms_of_string (s : string) : jsnum :=
  match field s 0 4, field s 5 2, field s 8 2 with
  | Some y, Some m, Some d =>
      let day := days_from_civil y m d * 86400000 in
      if Nat.eqb (String.length s) 10 then Num day
      else
        match field s 11 2, field s 14 2, field s 17 2 with
        | Some h, Some mi, Some sec => Num (day + h * 3600000 + mi * 60000 + sec * 1000)
        | _, _, _ => NaN
        end
  | _, _, _ => NaN
  end.

Definition date_of_jsnum (n : jsnum) : date :=
  match n with Num ms => Some (calendar_of_ms ms) | NaN => None end.

Definition demo_date_of_nanos (v : option jsnum) : date :=
  match v with
  | None => Some (calendar_of_ms 0)
  | Some NaN => None
  | Some (Num ns) => Some (calendar_of_ms (Z.quot ns 1000000))
  end.

Definition demo_date_only (y m d : jsnum) : jsnum :=
  match y, m, d with
  | Num y, Num m, Num d => Num (days_from_civil y (m + 1) d * 86400000)
  | _, _, _ => NaN
  end.

Definition demo_join (a b : string) : string := a ++ "/" ++ b.

(** The text after the last slash. *)
Fixpoint demo_basename_go (s cur : string) : string :=
  match s with
  | EmptyString => rev_string cur ""
  | String c s' =>
      if Ascii.eqb c "/" then demo_basename_go s' "" else demo_basename_go s' (String c cur)
  end.
Definition demo_basename (p : string) : string := demo_basename_go p "".

Definition demo_to_string (v : value) : string :=
  match v with
  | VString s => s
  | VNumber n => QueryClient.string_of_Z n
  | VBigInt n => QueryClient.string_of_Z n
  | VFloat r => r
  | VNull => "null"
  | VUndefined => "undefined"
  | VBool true => "true"
  | VBool false => "false"
  | _ => "[object Object]"
  end.

(** A runtime in UTC at the instant [now], over the paths that [exists_]
    says exist and the measurements that [stat] gives; the engine answers
    every statement with one row.  The names of the statements it is run
    on are made of word characters, and it takes any other source of a
    pattern for an invalid one. *)
Definition runtime (now : Z) (exists_ : string -> bool)
           (stat : string -> option node) : Runtime :=
  mkRuntime now ms_of_string (fun s => date_of_jsnum (ms_of_string s))
            demo_date_of_nanos demo_date_only demo_join demo_basename
            exists_ stat "./data"
            (fun _ => Ok [[("n", VNumber 1)]]) demo_to_string
            (fun _ _ => Throw "Invalid regular expression").

(** Nanoseconds at [n] hours after 2025-04-10T00:00:00Z. *)
Definition hour_ns (n : Z) : Z := 1744243200000000000 + n * 3600000000000.

(** An hour directory holding a manifest and nothing else. *)
Definition partition (lo hi : Z) (files : list file_entry) : node :=
  Dir true [("metadata.json", File (Some (mkManifest lo hi (Some files))))].

Definition weatherPath : string := "./data/mydb/weather".

(** The partitions of the measurement [./data/mydb/weather]. *)
Definition hour13 : node :=
  partition (hour_ns 13) (hour_ns 14)
    [mkFile "./data/mydb/weather/date=2025-04-10/hour=13/c.parquet"
            (hour_ns 13) (hour_ns 14)].

Definition hour14 : node :=
  partition (hour_ns 14) (hour_ns 15)
    [mkFile "./data/mydb/weather/date=2025-04-10/hour=14/a.parquet"
            (hour_ns 14) (hour_ns 14 + 1800000000000);
     mkFile "./data/mydb/weather/date=2025-04-10/hour=14/b.parquet"
            (hour_ns 14 + 2400000000000) (hour_ns 15)].

Definition hour09 : node :=
  partition (hour_ns 33) (hour_ns 34)
    [mkFile "./data/mydb/weather/date=2025-04-11/hour=09/e.parquet"
            (hour_ns 33) (hour_ns 34)].

(** The measurement [./data/mydb/weather]: two days of partitions. *)
Definition weather : node :=
  Dir true
    [("date=2025-04-10", Dir true [("hour=13", hour13); ("hour=14", hour14)]);
     ("date=2025-04-11", Dir true [("hour=09", hour09)])].

Definition stat_weather (p : string) : option node :=
  if String.eqb p weatherPath then Some weather else None.

Definition rt_weather : Runtime :=
  runtime 1744400000000 (fun _ => true) stat_weather.


(** The bounds of the interval 14:00 to 14:10 of 2025-04-10. *)
Definition at_14_00 : jsnum := Num (hour_ns 14).
Definition at_14_10 : jsnum := Num (hour_ns 14 + 600000000000).

(** The names [hour=00] to [hour=23]. *)
Definition two_digits (n : nat) : string :=
  if Nat.ltb n 10 then "0" ++ string_of_nat n else string_of_nat n.

Definition allHours : list (string * node) :=
  map (fun n => ("hour=" ++ two_digits n, Dir true [])) (seq 0 24).

(** The bounds of the range 2025-04-10T14:00 to 2025-04-11T09:00. *)
Definition range_start : date := demo_date_of_nanos (Some (Num (hour_ns 14))).
Definition range_end : date := demo_date_of_nanos (Some (Num (hour_ns 33))).

(** A chain of [n] nested directories with one file at the bottom. *)
Fixpoint chain (n : nat) : node :=
  match n with
  | O => Dir true [("deep.parquet", File None)]
  | S n' => Dir true [("sub", chain n')]
  end.

(** The path of the directory [n] levels down the chain under [path]. *)
Fixpoint chainPath (rt : Runtime) (path : string) (n : nat) : string :=
  match n with
  | O => path
  | S n' => chainPath rt (path_join rt path "sub") n'
  end.

(** A where text with a BETWEEN shape next to a comparison. *)
Definition betweenAndAfter : string :=
  "time BETWEEN '2025-04-10T14:00:00Z' AND '2025-04-11T09:00:00Z' AND time > '2025-04-12T00:00:00Z'".

(** A measurement that is a chain of twelve nested directories. *)
Definition stat_deep (p : string) : option node :=
  if String.eqb p "./data/mydb/deep" then Some (chain 12) else None.

Definition rt_deep : Runtime := runtime 1744400000000 (fun _ => true) stat_deep.

(** A runtime for the line protocol, and a batch of two points. *)
Definition rt_lines : Runtime :=
  runtime 1700000000000 (fun _ => false) (fun _ => None).
Definition parseFloat (s : string) : value := VFloat s.
Definition batch : list LineProtocol.point :=
  [LineProtocol.mkPoint
     "cpu" [("host", VString "a"); ("zone", VString "eu")]
     [("usage", VNumber (-12)); ("ok", VBool true); ("note", VString "x")]
     1700000000000000000;
   LineProtocol.mkPoint "mem" [] [("0", VNumber 7); ("free", VNumber 0)] (-5)].

(** *** A runtime away from UTC *)

(** The calendar fields of an instant where local time is [hours] hours
    ahead of UTC (behind it when negative). *)
Definition local_calendar (hours : Z) (ms : Z) : calendar :=
  calendar_of_ms (ms + hours * 3600000).

(** [new Date(s).getTime()] there: a date alone is midnight UTC, and so
    is a date with a time and [Z]; a date with a time and no zone is local
    time. *)
Definition zoned_ms_of_string (hours : Z) (s : string) : jsnum :=
  match ms_of_string s with
  | Num ms =>
      if (Nat.eqb (String.length s) 10 || endsWith "Z" s)%bool then Num ms
      else Num (ms - hours * 3600000)
  | NaN => NaN
  end.

Definition zoned_date_of_string (hours : Z) (s : string) : date :=
  match zoned_ms_of_string hours s with
  | Num ms => Some (local_calendar hours ms)
  | NaN => None
  end.

Definition zoned_date_of_nanos (hours : Z) (v : option jsnum) : date :=
  match v with
  | None => Some (local_calendar hours 0)
  | Some NaN => None
  | Some (Num ns) => Some (local_calendar hours (Z.quot ns 1000000))
  end.

Definition zoned_date_only (hours : Z) (y m d : jsnum) : jsnum :=
  match demo_date_only y m d with
  | Num ms => Num (ms - hours * 3600000)
  | NaN => NaN
  end.

(** The runtime of [runtime], [hours] hours ahead of UTC. *)
Definition zoned (hours : Z) (now : Z) (exists_ : string -> bool)
           (stat : string -> option node) : Runtime :=
  mkRuntime now (zoned_ms_of_string hours) (zoned_date_of_string hours)
            (zoned_date_of_nanos hours) (zoned_date_only hours)
            demo_join demo_basename exists_ stat "./data"
            (fun _ => Ok [[("n", VNumber 1)]]) demo_to_string
            (fun _ _ => Throw "Invalid regular expression").

(** Three days of a measurement, every hour of each. *)
Definition three_days : node :=
  Dir true
    [("date=2025-04-09", Dir true allHours);
     ("date=2025-04-10", Dir true allHours);
     ("date=2025-04-11", Dir true allHours)].

Definition stat_days (p : string) : option node :=
  if String.eqb p "./data/mydb/days" then Some three_days else None.

(** That measurement in UTC, and five hours west of UTC. *)
Definition rt_days : Runtime :=
  runtime 1744400000000 (fun _ => true) stat_days.
Definition rt_west : Runtime :=
  zoned (-5) 1744400000000 (fun _ => true) stat_days.

(** 2025-04-09T14:00 and 2025-04-10T09:00 in the local time of
    [rt_west], in nanoseconds. *)
Definition west_start : jsnum := Num (hour_ns (-5)).
Definition west_end : jsnum := Num (hour_ns 14).

(** The same times of day in UTC. *)
Definition utc_start : jsnum := Num (hour_ns (-10)).
Definition utc_end : jsnum := Num (hour_ns 9).

End Demo.

(** * Properties *)

Import JS Regex Model QueryClient QueryServer Spec.

Local Open Scope list_scope.

(** ** Comparisons *)

Lemma lt_Num (a b : Z) : JS.lt (Num a) (Num b) = true <-> a < b.
Proof. unfold JS.lt. apply Z.ltb_lt. Qed.

Lemma gt_Num (a b : Z) : JS.gt (Num a) (Num b) = true <-> a > b.
Proof. unfold JS.gt, JS.lt. rewrite Z.ltb_lt. lia. Qed.

Lemma le_Num (a b : Z) : JS.le (Num a) (Num b) = true <-> a <= b.
Proof. unfold JS.le. apply Z.leb_le. Qed.

Lemma ge_Num (a b : Z) : JS.ge (Num a) (Num b) = true <-> a >= b.
Proof. unfold JS.ge, JS.le. rewrite Z.leb_le. lia. Qed.

(** ** The partition resolver's overlap tests *)

Section Overlap.
Context (rt : Runtime).

Lemma pushExisting_app (dirPath : string) (acc : list string) (f : file_entry) :
  pushExisting rt dirPath acc f = acc ++ contribution rt dirPath f.
Proof.
  unfold pushExisting, contribution.
  destruct (existingPath rt dirPath f); [reflexivity | now rewrite app_nil_r].
Qed.

(** The loop over a manifest's files appends, in order, the existing
    paths of the files that pass the file-level test. *)
Lemma pushSelected_spec (dirPath : string) (startNs endNs : option jsnum)
      (files : list file_entry) (acc : list string) :
  pushSelected rt dirPath startNs endNs files acc
  = acc ++ flat_map (contribution rt dirPath) (filter (fileSelected startNs endNs) files).
Proof.
  unfold pushSelected.
  revert acc; induction files as [|f files IH]; intro acc; simpl.
  - now rewrite app_nil_r.
  - rewrite IH. destruct (fileSelected startNs endNs f); simpl.
    + now rewrite pushExisting_app, <- app_assoc.
    + reflexivity.
Qed.

Lemma fileSelected_bounds (s e : jsnum) (f : file_entry) :
  fileSelected (Some s) (Some e) f
  = JS.ge (Num (f_max_time f)) s && JS.le (Num (f_min_time f)) e.
Proof. reflexivity. Qed.

Lemma resolveManifest_spec (hourPath : string) (md : manifest)
      (startNs endNs : option jsnum) (acc : list string) :
  resolveManifest rt hourPath md startNs endNs acc
  = if manifestSkipped startNs endNs md then acc
    else acc ++ flat_map (contribution rt hourPath)
                         (filter (fileSelected startNs endNs) (listedFiles md)).
Proof.
  unfold resolveManifest, listedFiles.
  destruct (manifestSkipped startNs endNs md); [reflexivity|].
  destruct (md_files md) as [files|].
  - apply pushSelected_spec.
  - simpl. now rewrite app_nil_r.
Qed.

End Overlap.

(** With integer bounds the test on the manifest reads as the two
    inequalities. *)
Lemma manifestSkipped_integers (md : manifest) (s e : Z) :
  manifestSkipped (Some (Num s)) (Some (Num e)) md = true
  <-> md_max_time md < s \/ md_min_time md > e.
Proof.
  unfold manifestSkipped. rewrite orb_true_iff, lt_Num, gt_Num. reflexivity.
Qed.

Lemma fileSelected_integers (f : file_entry) (s e : Z) :
  fileSelected (Some (Num s)) (Some (Num e)) f = true
  <-> f_max_time f >= s /\ f_min_time f <= e.
Proof.
  unfold fileSelected. rewrite andb_true_iff, ge_Num, le_Num. reflexivity.
Qed.

(** C2 as stated fails: the manifest of hour 14 overlaps the query interval
    14:00-14:10, its file [b.parquet] exists, and yet it is not resolved,
    its own interval 14:40-15:00 lying outside the query interval. *)
Lemma manifest_overlap_does_not_include_every_file :
  ~ (forall (rt : Runtime) (hourPath : string) (md : manifest) (s e : jsnum)
            (f : file_entry),
        manifestSkipped (Some s) (Some e) md = false ->
        In f (listedFiles md) ->
        existsSync rt (f_path f) = true ->
        In (f_path f) (resolveManifest rt hourPath md (Some s) (Some e) [])).
Proof.
  intro H.
  pose (b := mkFile "./data/mydb/weather/date=2025-04-10/hour=14/b.parquet"
                    (Demo.hour_ns 14 + 2400000000000) (Demo.hour_ns 15)).
  pose (md := mkManifest (Demo.hour_ns 14) (Demo.hour_ns 15)
                (Some [mkFile "./data/mydb/weather/date=2025-04-10/hour=14/a.parquet"
                              (Demo.hour_ns 14) (Demo.hour_ns 14 + 1800000000000); b])).
  assert (Hin : In (f_path b)
                   (resolveManifest Demo.rt_weather
                      "./data/mydb/weather/date=2025-04-10/hour=14" md
                      (Some (Num (Demo.hour_ns 14)))
                      (Some (Num (Demo.hour_ns 14 + 600000000000))) [])).
  { apply H; [reflexivity | right; left; reflexivity | reflexivity]. }
  vm_compute in Hin.
  destruct Hin as [Hin | []]. discriminate Hin.
Qed.

(** ** Directory walks *)

(** Induction on a directory tree, with the hypothesis for every entry of
    a directory. *)
Lemma node_induction (P : node -> Prop) :
  (forall json, P (File json)) ->
  P Other ->
  (forall r entries, Forall (fun e => P (snd e)) entries -> P (Dir r entries)) ->
  forall n, P n.
Proof.
  intros HFile HOther HDir. fix IH 1. intros [json|r entries|].
  - apply HFile.
  - apply HDir. revert entries. fix IHentries 1. intros [|e entries].
    + constructor.
    + constructor; [apply IH | apply IHentries].
  - apply HOther.
Qed.

(** A loop keeps what each of its turns keeps. *)
Lemma fold_left_invariant {A X : Type} (I : A -> Prop) (step : A -> X -> A)
      (l : list X) :
  (forall x, In x l -> forall a, I a -> I (step a x)) ->
  forall a, I a -> I (fold_left step l a).
Proof.
  induction l as [|x l IH]; intros Hstep a Ha; simpl.
  - exact Ha.
  - apply IH.
    + intros y Hy. apply Hstep. now right.
    + apply Hstep; [now left | exact Ha].
Qed.

(** A loop whose turns only append to a list only appends to it. *)
Lemma fold_left_extends {A X B : Type} (proj : A -> list B) (step : A -> X -> A)
      (l : list X) :
  (forall x, In x l -> forall a, exists rest, proj (step a x) = proj a ++ rest) ->
  forall a, exists rest, proj (fold_left step l a) = proj a ++ rest.
Proof.
  induction l as [|x l IH]; intros Hstep a; simpl.
  - exists []. now rewrite app_nil_r.
  - destruct (IH (fun y Hy => Hstep y (or_intror Hy)) (step a x)) as [r1 H1].
    destruct (Hstep x (or_introl eq_refl) a) as [r2 H2].
    exists (r2 ++ r1). now rewrite H1, H2, app_assoc.
Qed.

Section Walks.
Context (rt : Runtime).

Lemma pushParquet_extends (dirPath : string) (entries : list (string * node))
      (w : walk) :
  (exists rest, filesList (pushParquet rt dirPath entries w) = filesList w ++ rest)
  /\ visited (pushParquet rt dirPath entries w) = visited w.
Proof.
  unfold pushParquet. split.
  - apply (fold_left_extends filesList). intros x _ a.
    destruct (isFile (snd x) && endsWith ".parquet" (fst x)).
    + eexists. reflexivity.
    + exists []. now rewrite app_nil_r.
  - revert w. induction entries as [|x l IH]; intro w; simpl; [reflexivity|].
    rewrite IH. now destruct (isFile (snd x) && endsWith ".parquet" (fst x)).
Qed.

(** The fallback walk only appends to the list it is given. *)
Lemma findMetadataFilesRecursively_extends (n : node) :
  forall (level : nat) (dirPath : string) (startNs endNs : option jsnum) (w : walk),
  exists rest,
    filesList (_findMetadataFilesRecursively rt level dirPath n startNs endNs w)
    = filesList w ++ rest.
Proof.
  induction n as [json| |r entries IH] using node_induction;
    intros level dirPath startNs endNs w;
    try (exists []; simpl; now rewrite app_nil_r).
  destruct r; [|exists []; simpl; now rewrite app_nil_r].
  cbn [_findMetadataFilesRecursively].
  set (sub := fold_left _ entries).
  assert (Hsub : forall a, exists rest, filesList (sub a) = filesList a ++ rest).
  { subst sub. apply (fold_left_extends filesList). intros [name child] Hin a.
    destruct (isDirectory child).
    - rewrite Forall_forall in IH. apply (IH _ Hin).
    - exists []. now rewrite app_nil_r. }
  destruct (find isMetadataEntry entries) as [[name [[md|]| |]]|].
  - destruct (manifestSkipped startNs endNs md).
    + exists []. simpl. now rewrite app_nil_r.
    + destruct (md_files md) as [files|].
      * destruct (Hsub (mkWalk (pushSelected rt dirPath startNs endNs files
                                             (filesList (enter level dirPath w)))
                               (visited (enter level dirPath w)))) as [r1 H1].
        rewrite H1. cbn [filesList enter]. rewrite pushSelected_spec.
        eexists. rewrite <- app_assoc. reflexivity.
      * apply (Hsub (enter level dirPath w)).
  - apply (Hsub (enter level dirPath w)).
  - apply (Hsub (enter level dirPath w)).
  - apply (Hsub (enter level dirPath w)).
  - destruct (Hsub (pushParquet rt dirPath entries (enter level dirPath w))) as [r1 H1].
    destruct (pushParquet_extends dirPath entries (enter level dirPath w)) as [[r2 H2] _].
    rewrite H1, H2. cbn [filesList enter]. eexists. rewrite <- app_assoc. reflexivity.
Qed.

End Walks.

(** ** Choice of the resolver *)

(** C3.  With both bounds null the all-files scan resolves the query.  With
    both bounds present, when the Hive-structure resolver returns no file,
    the recursive fallback is run on the measurement directory with the
    same bounds and what it has collected, empty or not, is the resolved
    file set. *)
Theorem findRelevantFiles_fallback
        (rt : Runtime) (db m : string) (tc : option string) :
  findRelevantFiles rt db m (mkRange None None tc) = _findAllFiles rt db m
  /\ (forall s e : jsnum,
         _findFilesByHiveStructure rt db m (date_of_nanos rt (Some s))
                                   (date_of_nanos rt (Some e)) (Some s) (Some e)
         = Ok [] ->
         findRelevantFiles rt db m (mkRange (Some s) (Some e) tc)
         = filesList (fallbackWalk rt db m (Some s) (Some e))
         /\ fallbackWalk rt db m (Some s) (Some e)
            = match fs_stat rt (basePathOf rt db m) with
              | Some n =>
                  _findMetadataFilesRecursively rt 0 (basePathOf rt db m) n
                                                (Some s) (Some e) emptyWalk
              | None => emptyWalk
              end).
Proof.
  split.
  - reflexivity.
  - intros s e Hhive. unfold findRelevantFiles. cbn [start end_ isNull andb].
    rewrite Hhive. split; reflexivity.
Qed.

(** On the demo data a query for 2025-04-12 finds no Hive partition and the
    fallback, run in its place, finds nothing either. *)
Lemma findRelevantFiles_fallback_witness :
  let s := Num (Demo.hour_ns 61) in
  let e := Num (Demo.hour_ns 62) in
  _findFilesByHiveStructure Demo.rt_weather "mydb" "weather"
                            (date_of_nanos Demo.rt_weather (Some s))
                            (date_of_nanos Demo.rt_weather (Some e)) (Some s) (Some e)
  = Ok []
  /\ findRelevantFiles Demo.rt_weather "mydb" "weather" (mkRange (Some s) (Some e) None)
     = filesList (fallbackWalk Demo.rt_weather "mydb" "weather" (Some s) (Some e))
  /\ filesList (fallbackWalk Demo.rt_weather "mydb" "weather" (Some s) (Some e)) = [].
Proof.
  assert (H : _findFilesByHiveStructure Demo.rt_weather "mydb" "weather"
                (date_of_nanos Demo.rt_weather (Some (Num (Demo.hour_ns 61))))
                (date_of_nanos Demo.rt_weather (Some (Num (Demo.hour_ns 62))))
                (Some (Num (Demo.hour_ns 61))) (Some (Num (Demo.hour_ns 62)))
              = Ok []) by (vm_compute; reflexivity).
  split; [exact H|]. split.
  - exact (proj1 (proj2 (findRelevantFiles_fallback Demo.rt_weather "mydb" "weather" None)
                        (Num (Demo.hour_ns 61)) (Num (Demo.hour_ns 62)) H)).
  - vm_compute. reflexivity.
Defined.

(** ** query *)

(** C8.  When the resolved file set of a query is empty, [query] returns
    the empty array: nothing is thrown and no statement reaches the
    engine. *)
Theorem query_empty_file_set
        (rt : Runtime) (sql db : string) (parsed : descriptor)
        (Hparsed : parseQuery sql db = Ok parsed)
        (Hempty : findRelevantFiles rt (dbName parsed) (measurement parsed) (range parsed)
                  = []) :
  query rt true sql db = mkOutcome (Ok []) [].
Proof.
  unfold query. cbn [negb]. rewrite Hparsed, Hempty. reflexivity.
Qed.

Lemma query_empty_file_set_witness :
  let sql := "SELECT * FROM cpu WHERE time >= '2025-04-11T00:00:00'" in
  let parsed := mkDescriptor "*" "mydb" "cpu" (mkRange None None None)
                             "time >= '2025-04-11T00:00:00'" "" "" "" None in
  parseQuery sql "mydb" = Ok parsed
  /\ findRelevantFiles Demo.rt_weather (dbName parsed) (measurement parsed) (range parsed)
     = []
  /\ query Demo.rt_weather true sql "mydb" = mkOutcome (Ok []) [].
Proof.
  cbv zeta.
  assert (Hparsed : parseQuery "SELECT * FROM cpu WHERE time >= '2025-04-11T00:00:00'" "mydb"
                    = Ok (mkDescriptor "*" "mydb" "cpu" (mkRange None None None)
                                       "time >= '2025-04-11T00:00:00'" "" "" "" None))
    by (vm_compute; reflexivity).
  assert (Hempty : findRelevantFiles Demo.rt_weather "mydb" "cpu" (mkRange None None None)
                   = [])
    by (vm_compute; reflexivity).
  split; [exact Hparsed|]. split; [exact Hempty|].
  exact (query_empty_file_set Demo.rt_weather _ _ _ Hparsed Hempty).
Defined.

(** ** Hour directories of a date directory *)

Lemma filter_all {A : Type} (l : list A) : filter (fun _ => true) l = l.
Proof. induction l as [|a l IH]; simpl; [reflexivity | now rewrite IH]. Qed.

(** The example of the specification in full: hours 14 to 23 on the first
    day, 00 to 09 on the second, all 24 on a day in between. *)
Example boundary_day_hours :
  let names (dateDir : string) (startDate endDate : date) :=
    match _getHourDirectoriesInRange Demo.rt_weather dateDir
                                     (Some (Dir true Demo.allHours)) startDate endDate with
    | Ok l => map fst l
    | Throw _ => []
    end in
  names "date=2025-04-10" Demo.range_start Demo.range_end
  = map (fun n => ("hour=" ++ Demo.two_digits n)%string) (List.seq 14 10)
  /\ names "date=2025-04-11" Demo.range_start Demo.range_end
     = map (fun n => ("hour=" ++ Demo.two_digits n)%string) (List.seq 0 10)
  /\ names "date=2025-04-11" Demo.range_start
           (Demo.demo_date_of_nanos (Some (Num (Demo.hour_ns 57))))
     = map fst Demo.allHours.
Proof. vm_compute. repeat split. Qed.

(** ** Time-predicate extraction *)

Section Extraction.
Context (rt : Runtime).

(** With a where clause at hand, [_extractTimeRange] is the pattern
    block followed by the defaults. *)
Lemma extractTimeRange_unfold (sql whereClause : string) :
  is_empty whereClause = false ->
  _extractTimeRange rt sql whereClause
  = defaultBounds rt (matchTimePatterns rt whereClause).
Proof. intro H. unfold _extractTimeRange. now rewrite H. Qed.

(** No shape matches: the range is null throughout. *)
Lemma no_shape_null_range (text : string) :
  exec true timePattern3 text = None ->
  exec true timePattern0 text = None ->
  exec true timePattern1 text = None ->
  exec true timePattern2 text = None ->
  defaultBounds rt (matchTimePatterns rt text) = mkRange None None None.
Proof.
  intros H3 H0 H1 H2. unfold matchTimePatterns. rewrite H3, H0, H1, H2.
  reflexivity.
Qed.

(** Only a start bound, and a truthy one: the end is the current
    instant. *)
Lemma start_only_defaults_end (text : string) (sm : rmatch) :
  exec true timePattern3 text = None ->
  exec true timePattern0 text = Some sm ->
  exec true timePattern1 text = None ->
  exec true timePattern2 text = None ->
  truthy (Some (nanos rt (grp sm 2))) = true ->
  let r := defaultBounds rt (matchTimePatterns rt text) in
  start r = Some (nanos rt (grp sm 2))
  /\ end_ r = Some (times_1e6 (Num (date_now rt))).
Proof.
  intros H3 H0 H1 H2 Ht. unfold matchTimePatterns. rewrite H3, H0, H1, H2.
  unfold defaultBounds. cbn -[truthy nanos grp times_1e6].
  rewrite Ht. cbn -[nanos grp times_1e6]. split; reflexivity.
Qed.

(** Only an end bound, and a truthy one: the start is 0. *)
Lemma end_only_defaults_start (text : string) (em : rmatch) :
  exec true timePattern3 text = None ->
  exec true timePattern0 text = None ->
  exec true timePattern1 text = Some em ->
  exec true timePattern2 text = None ->
  truthy (Some (nanos rt (grp em 2))) = true ->
  let r := defaultBounds rt (matchTimePatterns rt text) in
  start r = Some (Num 0) /\ end_ r = Some (nanos rt (grp em 2)).
Proof.
  intros H3 H0 H1 H2 Ht. unfold matchTimePatterns. rewrite H3, H0, H1, H2.
  unfold defaultBounds. cbn -[truthy nanos grp times_1e6].
  rewrite Ht. cbn -[nanos grp times_1e6]. split; reflexivity.
Qed.

(** After a BETWEEN match the returned bounds are those of the two
    literals whenever the upper one is truthy and the lower one a valid
    instant. *)
Lemma between_returned_range (text : string) (bm : rmatch) :
  exec true timePattern3 text = Some bm ->
  truthy (Some (nanos rt (grp bm 2))) = true ->
  nanos rt (grp bm 1) <> NaN ->
  let r := defaultBounds rt (matchTimePatterns rt text) in
  start r = Some (nanos rt (grp bm 1)) /\ end_ r = Some (nanos rt (grp bm 2)).
Proof.
  intros H3 Ht Hn. unfold matchTimePatterns. rewrite H3.
  unfold defaultBounds. cbn -[truthy nanos grp times_1e6].
  rewrite Ht. cbn -[truthy nanos grp times_1e6].
  destruct (truthy (Some (nanos rt (grp bm 1)))) eqn:Hs; cbn -[nanos grp].
  - split; reflexivity.
  - split; [|reflexivity]. unfold truthy in Hs.
    destruct (nanos rt (grp bm 1)) as [|z]; [contradiction|].
    apply negb_false_iff, Z.eqb_eq in Hs. now subst.
Qed.

End Extraction.

(** C5.  A where text with a BETWEEN shape has its start and end set from
    the two literals, whatever comparisons on time it also contains.
    Without a BETWEEN shape, an [=] match sets start and end to the one
    instant; failing that, start is set by a [>]/[>=] match and end by a
    [<]/[<=] match, each on its own, so that both may apply at once. *)
Theorem time_patterns_precedence (rt : Runtime) (whereClause : string) :
  let x := matchTimePatterns rt whereClause in
  (forall bm,
      exec true timePattern3 whereClause = Some bm ->
      x = mkExtraction (Some (nanos rt (grp bm 1))) (Some (nanos rt (grp bm 2)))
                       (Some (betweenText (grp bm 1) (grp bm 2))) true)
  /\ (exec true timePattern3 whereClause = None ->
      (forall qm,
          exec true timePattern2 whereClause = Some qm ->
          x_start x = Some (nanos rt (grp qm 1)) /\ x_end x = Some (nanos rt (grp qm 1)))
      /\ (exec true timePattern2 whereClause = None ->
          x_start x = option_map (fun sm => nanos rt (grp sm 2))
                                 (exec true timePattern0 whereClause)
          /\ x_end x = option_map (fun em => nanos rt (grp em 2))
                                  (exec true timePattern1 whereClause))
      /\ x_userSpecified x
         = isSome (exec true timePattern0 whereClause)
           || isSome (exec true timePattern1 whereClause)
           || isSome (exec true timePattern2 whereClause))
  /\ (forall sql, is_empty whereClause = false ->
                  _extractTimeRange rt sql whereClause = defaultBounds rt x).
Proof.
  cbv zeta. split; [|split].
  - intros bm H3. unfold matchTimePatterns. rewrite H3. reflexivity.
  - intro H3. unfold matchTimePatterns. rewrite H3.
    destruct (exec true timePattern0 whereClause) as [sm|];
      destruct (exec true timePattern1 whereClause) as [em|];
      destruct (exec true timePattern2 whereClause) as [qm|];
      (split; [|split]);
      try (intros qm' Hq; inversion Hq; subst; split; reflexivity);
      try (intros Hq; discriminate Hq);
      try (intros _; split; reflexivity);
      reflexivity.
  - intros sql H. now apply extractTimeRange_unfold.
Qed.

(** A BETWEEN next to a [>] comparison: the bounds are those of the
    BETWEEN. *)
Lemma time_patterns_precedence_witness :
  exists bm,
    exec true timePattern3 Demo.betweenAndAfter = Some bm
    /\ isSome (exec true timePattern0 Demo.betweenAndAfter) = true
    /\ matchTimePatterns Demo.rt_weather Demo.betweenAndAfter
       = mkExtraction (Some (Num (Demo.hour_ns 14))) (Some (Num (Demo.hour_ns 33)))
                      (Some (betweenText "2025-04-10T14:00:00Z" "2025-04-11T09:00:00Z"))
                      true.
Proof.
  eexists. split; [vm_compute; reflexivity|]. split; [vm_compute; reflexivity|].
  etransitivity.
  - apply (proj1 (time_patterns_precedence Demo.rt_weather Demo.betweenAndAfter)).
    vm_compute; reflexivity.
  - vm_compute. reflexivity.
Defined.

(** C4, at the inputs where it fails.  A lower bound at the epoch is the
    number 0, which the test [start && !end] takes for a missing bound: the
    end stays null instead of becoming the current instant.  In the same
    way an upper bound at the epoch leaves the start null instead of 0. *)
Theorem extractTimeRange_epoch_bound
        (rt : Runtime) (Hepoch : date_getTime rt "1970-01-01T00:00:00Z" = Num 0) :
  _extractTimeRange
    rt "SELECT * FROM weather WHERE time >= '1970-01-01T00:00:00Z' LIMIT 10" ""
  = mkRange (Some (Num 0)) None (Some "time >= '1970-01-01T00:00:00Z'")
  /\ _extractTimeRange_v1
       rt "SELECT * FROM weather WHERE time >= '1970-01-01T00:00:00Z'"
     = mkRange (Some (Num 0)) None (Some "time >= '1970-01-01T00:00:00Z'")
  /\ _extractTimeRange
       rt "SELECT * FROM weather WHERE time < '1970-01-01T00:00:00Z' LIMIT 10" ""
     = mkRange None (Some (Num 0)) (Some "time < '1970-01-01T00:00:00Z'").
Proof.
  assert (Hn : nanos rt "1970-01-01T00:00:00Z" = Num 0).
  { unfold nanos. rewrite Hepoch. reflexivity. }
  assert (Hge : defaultBounds rt (matchTimePatterns rt "time >= '1970-01-01T00:00:00Z'")
                = mkRange (Some (Num 0)) None (Some "time >= '1970-01-01T00:00:00Z'")).
  { unfold matchTimePatterns.
    replace (exec true timePattern3 "time >= '1970-01-01T00:00:00Z'") with (@None rmatch)
      by (vm_compute; reflexivity).
    replace (exec true timePattern0 "time >= '1970-01-01T00:00:00Z'")
      with (Some (mkMatch 0 "time >= '1970-01-01T00:00:00Z'"
                          [(2%nat, "1970-01-01T00:00:00Z"); (1%nat, ">=")]))
      by (vm_compute; reflexivity).
    replace (exec true timePattern1 "time >= '1970-01-01T00:00:00Z'") with (@None rmatch)
      by (vm_compute; reflexivity).
    replace (exec true timePattern2 "time >= '1970-01-01T00:00:00Z'") with (@None rmatch)
      by (vm_compute; reflexivity).
    unfold applyEqual, applyEnd, applyStart, defaultBounds.
    change (grp _ 2) with "1970-01-01T00:00:00Z".
    change (grp _ 1) with ">=".
    cbn -[nanos]. rewrite Hn. reflexivity. }
  split; [|split].
  - unfold _extractTimeRange. cbn [is_empty].
    replace (exec true wherePattern
                  "SELECT * FROM weather WHERE time >= '1970-01-01T00:00:00Z' LIMIT 10")
      with (Some (mkMatch 22 "WHERE time >= '1970-01-01T00:00:00Z' LIMIT"
                          [(1%nat, "time >= '1970-01-01T00:00:00Z'")]))
      by (vm_compute; reflexivity).
    change (trim (grp _ 1)) with "time >= '1970-01-01T00:00:00Z'".
    exact Hge.
  - unfold _extractTimeRange_v1, matchTimePatterns.
    replace (exec true timePattern3 _) with (@None rmatch) by (vm_compute; reflexivity).
    replace (exec true timePattern0 _)
      with (Some (mkMatch 28 "time >= '1970-01-01T00:00:00Z'"
                          [(2%nat, "1970-01-01T00:00:00Z"); (1%nat, ">=")]))
      by (vm_compute; reflexivity).
    replace (exec true timePattern1 _) with (@None rmatch) by (vm_compute; reflexivity).
    replace (exec true timePattern2 _) with (@None rmatch) by (vm_compute; reflexivity).
    unfold applyEqual, applyEnd, applyStart, defaultBounds.
    change (grp _ 2) with "1970-01-01T00:00:00Z".
    change (grp _ 1) with ">=".
    cbn -[nanos]. rewrite Hn. reflexivity.
  - unfold _extractTimeRange. cbn [is_empty].
    replace (exec true wherePattern _)
      with (Some (mkMatch 22 "WHERE time < '1970-01-01T00:00:00Z' LIMIT"
                          [(1%nat, "time < '1970-01-01T00:00:00Z'")]))
      by (vm_compute; reflexivity).
    change (trim (grp _ 1)) with "time < '1970-01-01T00:00:00Z'".
    unfold matchTimePatterns.
    replace (exec true timePattern3 _) with (@None rmatch) by (vm_compute; reflexivity).
    replace (exec true timePattern0 _) with (@None rmatch) by (vm_compute; reflexivity).
    replace (exec true timePattern1 _)
      with (Some (mkMatch 0 "time < '1970-01-01T00:00:00Z'"
                          [(2%nat, "1970-01-01T00:00:00Z"); (1%nat, "<")]))
      by (vm_compute; reflexivity).
    replace (exec true timePattern2 _) with (@None rmatch) by (vm_compute; reflexivity).
    unfold applyEqual, applyEnd, applyStart, defaultBounds.
    change (grp _ 2) with "1970-01-01T00:00:00Z".
    change (grp _ 1) with "<".
    cbn -[nanos]. rewrite Hn. reflexivity.
Qed.

Lemma extractTimeRange_epoch_bound_witness :
  date_getTime Demo.rt_weather "1970-01-01T00:00:00Z" = Num 0
  /\ end_ (_extractTimeRange
             Demo.rt_weather
             "SELECT * FROM weather WHERE time >= '1970-01-01T00:00:00Z' LIMIT 10" "")
     = None.
Proof.
  split; [vm_compute; reflexivity|].
  rewrite (proj1 (extractTimeRange_epoch_bound Demo.rt_weather eq_refl)).
  reflexivity.
Defined.

(** ** Depth of the directory walks *)

(** C7 as stated fails: on a measurement that is a chain of twelve nested
    directories the fallback walk lists the directory at level 12. *)
Lemma fallback_walk_deeper_than_10 :
  ~ (forall (rt : Runtime) (db m : string) (startNs endNs : option jsnum)
            (level : nat) (path : string),
        In (level, path) (visited (fallbackWalk rt db m startNs endNs)) ->
        (level <= 10)%nat).
Proof.
  intro H.
  specialize (H Demo.rt_deep "mydb" "deep" (Some (Num 0)) (Some (Num 1)) 12%nat
                (Demo.chainPath Demo.rt_deep "./data/mydb/deep" 12)).
  assert (Hle : (12 <= 10)%nat).
  { apply H. vm_compute. do 12 right. left. reflexivity. }
  lia.
Qed.

Section Depth.
Context (rt : Runtime).

Lemma chain_is_directory (n : nat) :
  isDirectory (Demo.chain n) = true /\ isFile (Demo.chain n) = false.
Proof. destruct n; split; reflexivity. Qed.

(** The fallback walk reaches the bottom of a chain of any length. *)
Lemma findMetadataFilesRecursively_chain (n : nat) :
  forall (level : nat) (path : string) (startNs endNs : option jsnum) (w : walk),
    let r := _findMetadataFilesRecursively rt level path (Demo.chain n) startNs endNs w in
    In ((level + n)%nat, Demo.chainPath rt path n) (visited r)
    /\ In (path_join rt (Demo.chainPath rt path n) "deep.parquet") (filesList r).
Proof.
  induction n as [|n IH]; intros level path startNs endNs w; cbv zeta.
  - cbn. rewrite Nat.add_0_r. split; apply in_or_app; right; now left.
  - cbn [Demo.chain _findMetadataFilesRecursively find fold_left].
    unfold isMetadataEntry. cbn [fst snd].
    destruct (chain_is_directory n) as [Hd Hf]. rewrite Hf, Hd. cbn [andb].
    unfold pushParquet. cbn [fold_left fst snd]. rewrite Hf. cbn [andb].
    rewrite Nat.add_succ_r. apply (IH (S level)).
Qed.

(** So does the all-files walk. *)
Lemma findFilesRecursively_chain (n : nat) :
  forall (level : nat) (path : string) (w : walk),
    let r := _findFilesRecursively rt level path (Demo.chain n) w in
    In ((level + n)%nat, Demo.chainPath rt path n) (visited r)
    /\ In (path_join rt (Demo.chainPath rt path n) "deep.parquet") (filesList r).
Proof.
  induction n as [|n IH]; intros level path w; cbv zeta.
  - cbn. rewrite Nat.add_0_r. split; apply in_or_app; right; now left.
  - cbn [Demo.chain _findFilesRecursively find fold_left].
    unfold isMetadataEntry. cbn [fst snd].
    destruct (chain_is_directory n) as [Hd Hf]. rewrite Hf, Hd. cbn [andb].
    unfold pushParquet. cbn [fold_left fst snd]. rewrite Hf. cbn [andb].
    rewrite Nat.add_succ_r. apply (IH (S level)).
Qed.

Lemma pushRecorded_visited (files : list file_entry) (w : walk) :
  visited (pushRecorded rt files w) = visited w.
Proof.
  unfold pushRecorded. revert w.
  induction files as [|f l IH]; intro w; cbn [fold_left]; [reflexivity|].
  rewrite IH. now destruct (existsSync rt (f_path f)).
Qed.

(** The all-files walk lists every directory of the tree, whatever its
    depth. *)
Lemma findFilesRecursively_visits_all (n : node) :
  forall (level : nat) (path : string) (w : walk),
    visited (_findFilesRecursively rt level path n w)
    = visited w ++ directoriesOf rt level path n.
Proof.
  induction n as [json| |r entries IH] using node_induction;
    intros level path w; try (cbn; now rewrite app_nil_r).
  destruct r; [|cbn; now rewrite app_nil_r].
  cbn [_findFilesRecursively directoriesOf].
  set (w1 := pushParquet rt path entries _).
  assert (H1 : visited w1 = visited w ++ [(level, path)]).
  { subst w1. rewrite (proj2 (pushParquet_extends rt path entries _)).
    destruct (find isMetadataEntry entries) as [[name [[md|]| |]]|];
      try reflexivity.
    destruct (md_files md); [apply pushRecorded_visited | reflexivity]. }
  change (visited w ++ (level, path) :: ?l) with (visited w ++ [(level, path)] ++ l).
  rewrite app_assoc, <- H1. clear H1. generalize w1. clear w1.
  induction entries as [|[name child] l IHl]; intro a; cbn [fold_left flat_map].
  - now rewrite app_nil_r.
  - inversion IH as [|? ? Hchild Hrest]; subst. cbn [snd] in Hchild.
    rewrite (IHl Hrest), app_assoc. f_equal.
    destruct child as [json|r sub|]; cbn [isDirectory].
    + cbn. now rewrite app_nil_r.
    + apply Hchild.
    + cbn. now rewrite app_nil_r.
Qed.

(** The walk of the debug handler lists nothing beyond level 10. *)
Lemma findFiles_levels (n : node) :
  forall (path : string) (level : nat) (w : debugWalk),
    (level <= 10)%nat ->
    (forall l p, In (l, p) (listed w) -> (l <= 10)%nat) ->
    forall l p, In (l, p) (listed (findFiles rt path n level w)) -> (l <= 10)%nat.
Proof.
  induction n as [json| |r entries IH] using node_induction;
    intros path level w Hlevel Hw; try exact Hw.
  destruct r; [|exact Hw].
  cbn [findFiles].
  apply (fold_left_invariant
           (fun a => forall l p, In (l, p) (listed a) -> (l <= 10)%nat)).
  - intros [name child] Hin a Ha.
    destruct child as [json|r sub|].
    + destruct (endsWith ".parquet" name); [exact Ha|].
      destruct (String.eqb name "metadata.json"); exact Ha.
    + destruct (Nat.ltb level 10) eqn:Hlt; [|exact Ha].
      rewrite Forall_forall in IH. apply (IH _ Hin); [|exact Ha].
      apply Nat.ltb_lt in Hlt. lia.
    + exact Ha.
  - cbn [listed]. intros l p Hlp. apply in_app_or in Hlp as [Hlp | [Heq | []]].
    + exact (Hw l p Hlp).
    + injection Heq as <- _. exact Hlevel.
Qed.

End Depth.

(** C7, amended.  The recursive walks of the fallback resolver carry no
    bound on depth.  The all-files walk lists every directory of the tree
    that can be listed, at whatever level; and on a chain of nested
    directories of any length both walks go down to the last directory and
    collect the file in it.  The walk that stops at 10 levels is the one of
    the debug handler: it lists no directory deeper than 10 levels below
    the directory it starts from. *)
Theorem walk_depth (rt : Runtime) :
  (forall (tree : node) (path : string),
      visited (_findFilesRecursively rt 0 path tree emptyWalk)
      = directoriesOf rt 0 path tree)
  /\ (forall (n : nat) (path : string),
         let r := _findFilesRecursively rt 0 path (Demo.chain n) emptyWalk in
         In (n, Demo.chainPath rt path n) (visited r)
         /\ In (path_join rt (Demo.chainPath rt path n) "deep.parquet") (filesList r))
  /\ (forall (n : nat) (path : string) (startNs endNs : option jsnum),
         let r := _findMetadataFilesRecursively rt 0 path (Demo.chain n) startNs endNs
                                                emptyWalk in
         In (n, Demo.chainPath rt path n) (visited r)
         /\ In (path_join rt (Demo.chainPath rt path n) "deep.parquet") (filesList r))
  /\ (forall (tree : node) (path : string) (level : nat) (p : string),
         In (level, p) (listed (findFiles rt path tree 0 emptyDebugWalk)) ->
         (level <= 10)%nat).
Proof.
  split; [|split; [|split]].
  - intros tree path. apply (findFilesRecursively_visits_all rt tree 0 path emptyWalk).
  - intros n path. apply (findFilesRecursively_chain rt n 0 path emptyWalk).
  - intros n path startNs endNs.
    apply (findMetadataFilesRecursively_chain rt n 0 path startNs endNs emptyWalk).
  - intros tree path level p.
    apply (findFiles_levels rt tree path 0 emptyDebugWalk); [lia|].
    intros l q [].
Qed.

(** On the chain of twelve directories the debug walk stops at level 10,
    where the fallback walk goes on to level 12. *)
Lemma walk_depth_witness :
  In (10%nat, Demo.chainPath Demo.rt_deep "./data/mydb/deep" 10)
     (listed (findFiles Demo.rt_deep "./data/mydb/deep" (Demo.chain 12) 0 emptyDebugWalk))
  /\ (10 <= 10)%nat
  /\ In (12%nat, Demo.chainPath Demo.rt_deep "./data/mydb/deep" 12)
        (visited (_findMetadataFilesRecursively Demo.rt_deep 0 "./data/mydb/deep"
                                                (Demo.chain 12) None None emptyWalk)).
Proof.
  assert (H : In (10%nat, Demo.chainPath Demo.rt_deep "./data/mydb/deep" 10)
                 (listed (findFiles Demo.rt_deep "./data/mydb/deep" (Demo.chain 12) 0
                                    emptyDebugWalk))).
  { vm_compute. do 10 right. left. reflexivity. }
  split; [exact H|]. split.
  - exact (proj2 (proj2 (proj2 (walk_depth Demo.rt_deep))) _ _ _ _ H).
  - exact (proj1 (proj1 (proj2 (proj2 (walk_depth Demo.rt_deep)))
                        12%nat "./data/mydb/deep" None None)).
Defined.

(** ** Normalisation of result rows *)

Section Normalisation.
Context (rt : Runtime).

Lemma fixValue_normalized (k : string) (v : value) :
  normalized (k, v) -> fixValue rt k v = v.
Proof.
  unfold normalized, fixValue. cbn [fst snd]. intros (Hbig & Hcount & Hbuf).
  rewrite Hcount.
  destruct v as [| | | | | |z| | |props]; try reflexivity.
  - discriminate Hbig.
  - cbn [isCharBuffer] in Hbuf.
    destruct (hasKey "0" props); [|reflexivity].
    cbn [andb] in Hbuf. now rewrite Hbuf.
Qed.

(** What the step produces is normalized. *)
Lemma fixValue_is_normalized (k : string) (v : value) :
  normalized (k, fixValue rt k v).
Proof.
  unfold normalized, fixValue. cbn [fst snd].
  destruct (includes "count" k && isNullValue v) eqn:Hcount.
  - cbn [isBigInt isNullValue isCharBuffer].
    repeat split; try reflexivity. apply andb_false_r.
  - destruct v as [| | | | | |z| | |props];
      try (repeat split; try reflexivity; try assumption; apply andb_false_r).
    destruct (hasKey "0" props) eqn:H0; [destruct (hasKey "ptr" props) eqn:Hp|];
      cbn [isBigInt isNullValue isCharBuffer];
      rewrite ?H0, ?Hp;
      repeat split; try reflexivity; try assumption; apply andb_false_r.
Qed.

(** The loop over a character buffer ends within the turns it is
    given. *)
Lemma bufferFrom_None (props : list (string * value)) (fuel : nat) :
  forall i, bufferFrom rt props fuel i = None ->
            forall j, (i <= j < i + fuel)%nat ->
                      In (string_of_nat j) (map fst props).
Proof.
  induction fuel as [|fuel IH]; intros i Hnone j Hj; [lia|].
  cbn [bufferFrom] in Hnone.
  assert (Hget : forall k, getProp k props <> None -> In k (map fst props)).
  { clear. intro k. induction props as [|[n v] l IHl]; cbn; [congruence|].
    destruct (String.eqb n k) eqn:E.
    - apply String.eqb_eq in E. now left.
    - intro H. right. now apply IHl. }
  destruct (getProp (string_of_nat i) props) as [v|] eqn:Hi; [|discriminate].
  destruct (Nat.eq_dec j i) as [->|Hne].
  - apply Hget. congruence.
  - apply (IH (S i)); [|lia].
    destruct v; try discriminate;
      destruct (bufferFrom rt props fuel (S i)); congruence.
Qed.

Lemma string_of_nat_inj (a b : nat) : string_of_nat a = string_of_nat b -> a = b.
Proof.
  unfold string_of_nat. intro H.
  apply (f_equal NilEmpty.uint_of_string) in H. rewrite !NilEmpty.usu in H.
  injection H as H. now apply DecimalNat.Unsigned.to_uint_inj.
Qed.

Lemma NoDup_map_injective {A B : Type} (f : A -> B) (l : list A) :
  (forall a b, f a = f b -> a = b) -> NoDup l -> NoDup (map f l).
Proof.
  intros Hinj. induction 1 as [|a l Hnotin _ IH]; cbn [map]; constructor.
  - intro Hin. apply in_map_iff in Hin as (b & Hb & Hbl).
    apply Hinj in Hb. now subst.
  - exact IH.
Qed.

Lemma bufferFrom_total (props : list (string * value)) :
  exists str, bufferFrom rt props (S (List.length props)) 0 = Some str.
Proof.
  destruct (bufferFrom rt props (S (List.length props)) 0) as [str|] eqn:H;
    [now exists str|].
  exfalso.
  assert (Hincl : incl (map string_of_nat (List.seq 0 (S (List.length props))))
                       (map fst props)).
  { intros k Hk. apply in_map_iff in Hk as (j & <- & Hj). apply in_seq in Hj.
    apply (bufferFrom_None props _ 0 H). lia. }
  assert (Hnodup : NoDup (map string_of_nat (List.seq 0 (S (List.length props))))).
  { apply NoDup_map_injective; [apply string_of_nat_inj | apply seq_NoDup]. }
  pose proof (NoDup_incl_length Hnodup Hincl) as Hlen.
  rewrite !length_map, length_seq in Hlen. lia.
Qed.

(** A row of normalized properties goes through the step unchanged. *)
Lemma fixRow_fixed_point (r : row) :
  Forall normalized r -> fixRow rt r = r.
Proof.
  unfold fixRow. induction 1 as [|[k v] l Hkv _ IH]; cbn [map fst snd].
  - reflexivity.
  - rewrite IH, (fixValue_normalized k v Hkv). reflexivity.
Qed.

Lemma fixRow_is_normalized (r : row) : Forall normalized (fixRow rt r).
Proof.
  unfold fixRow. induction r as [|[k v] l IH]; cbn [map fst snd]; constructor.
  - apply fixValue_is_normalized.
  - exact IH.
Qed.

End Normalisation.

(** C9.  On a row with no BigInt value, no null value under a name that
    contains [count] and no character-buffer object, the normalisation
    step of the [/query] handler builds a row equal to the one it was
    given. *)
Theorem fixRow_normalized_noop (rt : Runtime) (r : row) :
  Forall normalized r -> fixRow rt r = r.
Proof.
  intro Hrow. induction Hrow as [|[k v] l Hkv Hl IH].
  - reflexivity.
  - change (fixRow rt ((k, v) :: l)) with ((k, fixValue rt k v) :: fixRow rt l).
    rewrite IH. f_equal. f_equal. exact (fixValue_normalized rt k v Hkv).
Qed.

Lemma fixRow_normalized_noop_witness :
  let r := [("time", VString "1744293600000000000"); ("count_star()", VNumber 3);
            ("location", VString "oslo"); ("temperature", VFloat "21.5");
            ("tags", VObject [("0", VString "a")]); ("missing", VNull)] in
  Forall normalized r /\ fixRow Demo.rt_weather r = r.
Proof.
  assert (H : Forall normalized
                     [("time", VString "1744293600000000000"); ("count_star()", VNumber 3);
                      ("location", VString "oslo"); ("temperature", VFloat "21.5");
                      ("tags", VObject [("0", VString "a")]); ("missing", VNull)]).
  { repeat constructor. }
  split; [exact H | exact (fixRow_normalized_noop Demo.rt_weather _ H)].
Defined.

(** The step is idempotent on every row. *)
Lemma fixRow_idempotent (rt : Runtime) (r : row) :
  fixRow rt (fixRow rt r) = fixRow rt r.
Proof.
  apply fixRow_fixed_point, fixRow_is_normalized.
Qed.

(** The helper of the [/sql] handler leaves a row of plain values as it
    is; a [Date] in a row, though, comes out as an empty object. *)
Lemma processBigIntInResults_plain (r : row) :
  forallb (fun kv => isPlain (snd kv)) r = true ->
  processBigIntInResults [VObject r] = [VObject r].
Proof.
  intro H. unfold processBigIntInResults. cbn [map processBigIntInObject].
  do 2 f_equal.
  induction r as [|[k v] l IH]; cbn [map fst snd]; [reflexivity|].
  cbn [forallb snd] in H. apply andb_true_iff in H as [Hv Hl].
  rewrite (IH Hl). destruct v; try discriminate Hv; reflexivity.
Qed.

Example processBigIntInResults_date :
  processBigIntInResults [VObject [("t", VDate (Num 0)); ("n", VBigInt 7)]]
  = [VObject [("t", VObject []); ("n", VString "7")]].
Proof. reflexivity. Qed.

(** ** Runs on the demo data *)

Example parseQuery_example :
  parseQuery
    "SELECT  a, b FROM mydb.weather  WHERE time >= '2025-04-10T14:00:00Z' AND x > 5 group by a ORDER BY b  LIMIT 10"
    "other"
  = Ok (mkDescriptor "a, b" "mydb" "weather" (mkRange None None None)
                     "time >= '2025-04-10T14:00:00Z' AND x > 5" "b" "a" ""
                     (Some (Integer 10))).
Proof. vm_compute. reflexivity. Qed.

Example parseQuery_no_from :
  parseQuery "SELECT 1" "mydb" = Throw "Invalid query: FROM clause not found or invalid".
Proof. vm_compute. reflexivity. Qed.

(** A ten-minute interval in hour 14 resolves to the one file of that
    partition whose own interval meets it. *)
Example findRelevantFiles_hive :
  findRelevantFiles Demo.rt_weather "mydb" "weather"
                    (mkRange (Some (Num (Demo.hour_ns 14)))
                             (Some (Num (Demo.hour_ns 14 + 600000000000))) None)
  = ["./data/mydb/weather/date=2025-04-10/hour=14/a.parquet"].
Proof. vm_compute. reflexivity. Qed.

(** Where the measurement has no Hive structure the fallback finds the
    file that the Hive resolver could not. *)
Example findRelevantFiles_fallback_finds :
  _findFilesByHiveStructure Demo.rt_deep "mydb" "deep"
                            (date_of_nanos Demo.rt_deep (Some (Num 0)))
                            (date_of_nanos Demo.rt_deep (Some (Num 1)))
                            (Some (Num 0)) (Some (Num 1))
  = Ok []
  /\ findRelevantFiles Demo.rt_deep "mydb" "deep"
                       (mkRange (Some (Num 0)) (Some (Num 1)) None)
     = [path_join Demo.rt_deep (Demo.chainPath Demo.rt_deep "./data/mydb/deep" 12)
                  "deep.parquet"].
Proof. vm_compute. split; reflexivity. Qed.

(** Through [query] the same statement reaches every file of the
    measurement, the descriptor carrying no time range. *)
Example query_scans_all_files :
  engineCalls
    (query Demo.rt_weather true
           "SELECT * FROM weather WHERE time >= '2025-04-11T00:00:00Z'" "mydb")
  = ["SELECT * FROM read_parquet(['./data/mydb/weather/date=2025-04-10/hour=13/c.parquet', './data/mydb/weather/date=2025-04-10/hour=14/a.parquet', './data/mydb/weather/date=2025-04-10/hour=14/b.parquet', './data/mydb/weather/date=2025-04-11/hour=09/e.parquet'], union_by_name = true) WHERE time >= '2025-04-11T00:00:00Z'"%string].
Proof. vm_compute. reflexivity. Qed.

Example fixRow_example :
  fixRow Demo.rt_weather
         [("time", VBigInt 1744293600000000000); ("count_star()", VNull);
          ("name", VObject [("0", VString "a"); ("1", VString "b"); ("ptr", VNumber 7)]);
          ("temperature", VFloat "21.5")]
  = [("time", VString "1744293600000000000"); ("count_star()", VNumber 0);
     ("name", VString "ab"); ("temperature", VFloat "21.5")].
Proof. vm_compute. reflexivity. Qed.

(** * Further properties *)

(** ** The Hive resolver *)

Section Hive.
Context (rt : Runtime).

Lemma existingPath_exists (dirPath : string) (f : file_entry) (p : string) :
  existingPath rt dirPath f = Some p -> existsSync rt p = true.
Proof.
  unfold existingPath. destruct (existsSync rt (f_path f)) eqn:H1.
  - intro H. injection H as <-. exact H1.
  - destruct (existsSync rt (path_join rt dirPath (path_basename rt (f_path f)))) eqn:H2;
      [|discriminate].
    intro H. injection H as <-. exact H2.
Qed.

(** A property of paths that holds of whatever a manifest can contribute
    holds of the whole list once the manifest has been gone through. *)
Lemma resolveManifest_keeps (Q : string -> Prop) (startNs endNs : option jsnum) :
  (forall dirPath md f p,
      manifestSkipped startNs endNs md = false ->
      In f (listedFiles md) ->
      fileSelected startNs endNs f = true ->
      existingPath rt dirPath f = Some p -> Q p) ->
  forall hourPath md acc,
    Forall Q acc -> Forall Q (resolveManifest rt hourPath md startNs endNs acc).
Proof.
  intros HQ hourPath md acc Hacc. rewrite resolveManifest_spec.
  destruct (manifestSkipped startNs endNs md) eqn:Hskip; [exact Hacc|].
  apply Forall_app. split; [exact Hacc|].
  apply Forall_forall. intros p Hp. apply in_flat_map in Hp as (f & Hf & Hp).
  apply filter_In in Hf as [Hf Hsel].
  unfold contribution in Hp. destruct (existingPath rt hourPath f) as [q|] eqn:Hq.
  - destruct Hp as [<- | []]. exact (HQ hourPath md f q Hskip Hf Hsel Hq).
  - destruct Hp.
Qed.

Lemma resolvePartition_keeps (Q : string -> Prop) (startNs endNs : option jsnum) :
  (forall dirPath md f p,
      manifestSkipped startNs endNs md = false ->
      In f (listedFiles md) ->
      fileSelected startNs endNs f = true ->
      existingPath rt dirPath f = Some p -> Q p) ->
  forall hourPath hourNode acc,
    Forall Q acc -> Forall Q (resolvePartition rt hourPath hourNode startNs endNs acc).
Proof.
  intros HQ hourPath hourNode acc Hacc. unfold resolvePartition.
  destruct hourNode as [json|r entries|]; try exact Hacc.
  destruct (lookupEntry "metadata.json" entries) as [[[md|]|r' e'|]|]; try exact Hacc.
  now apply resolveManifest_keeps.
Qed.

Lemma resolveDates_keeps (Q : string -> Prop) (startNs endNs : option jsnum) :
  (forall dirPath md f p,
      manifestSkipped startNs endNs md = false ->
      In f (listedFiles md) ->
      fileSelected startNs endNs f = true ->
      existingPath rt dirPath f = Some p -> Q p) ->
  forall basePath dirs startDate endDate acc files,
    Forall Q acc ->
    resolveDates rt basePath dirs startDate endDate startNs endNs acc = Ok files ->
    Forall Q files.
Proof.
  intros HQ basePath dirs startDate endDate.
  induction dirs as [|[dateDir dateNode] dirs IH]; intros acc files Hacc Hres.
  - cbn in Hres. injection Hres as <-. exact Hacc.
  - cbn [resolveDates] in Hres.
    destruct (_getHourDirectoriesInRange rt dateDir (Some dateNode) startDate endDate)
      as [hourDirs|msg]; [|discriminate].
    apply (IH _ _ (fold_left_invariant (Forall Q) _ hourDirs
                     (fun h _ a Ha => resolvePartition_keeps Q startNs endNs HQ _ _ a Ha)
                     acc Hacc) Hres).
Qed.

Lemma hive_keeps (Q : string -> Prop) (startNs endNs : option jsnum) :
  (forall dirPath md f p,
      manifestSkipped startNs endNs md = false ->
      In f (listedFiles md) ->
      fileSelected startNs endNs f = true ->
      existingPath rt dirPath f = Some p -> Q p) ->
  forall db m startDate endDate files,
    _findFilesByHiveStructure rt db m startDate endDate startNs endNs = Ok files ->
    Forall Q files.
Proof.
  intros HQ db m startDate endDate files Hres. unfold _findFilesByHiveStructure in Hres.
  destruct (_getDateDirectoriesInRange rt db m startDate endDate) as [dirs|msg];
    [|discriminate].
  exact (resolveDates_keeps Q startNs endNs HQ _ _ _ _ [] files (Forall_nil Q) Hres).
Qed.

(** The loop over date directories stops with an error at a directory
    that cannot be listed. *)
Lemma resolveDates_throws (basePath : string) (dirs : list (string * node))
      (startDate endDate : date) (startNs endNs : option jsnum) :
  (exists d, In d dirs /\ isListable (snd d) = false) ->
  forall acc, exists msg,
    resolveDates rt basePath dirs startDate endDate startNs endNs acc = Throw msg.
Proof.
  induction dirs as [|[dateDir dateNode] dirs IH]; intros (d & Hin & Hd) acc.
  - destruct Hin.
  - cbn [resolveDates].
    destruct (_getHourDirectoriesInRange rt dateDir (Some dateNode) startDate endDate)
      as [hourDirs|msg] eqn:Hh.
    + destruct Hin as [<- | Hin].
      * cbn [snd] in Hd. unfold _getHourDirectoriesInRange in Hh.
        destruct dateNode as [json|[|] entries|]; try discriminate Hh; discriminate Hd.
      * apply IH. now exists d.
    + now exists msg.
Qed.

End Hive.

(** X2.  When a bound of the query is NaN (a time literal that does not
    parse) and the other bound is present too, no listed file passes the
    file-level test: whatever the Hive resolver returns is empty. *)
Theorem hive_nan_bound_resolves_nothing
        (rt : Runtime) (db m : string) (startDate endDate : date)
        (s e : jsnum) (files : list string) :
  s = NaN \/ e = NaN ->
  _findFilesByHiveStructure rt db m startDate endDate (Some s) (Some e) = Ok files ->
  files = [].
Proof.
  intros Hnan Hres.
  assert (H : Forall (fun _ => False) files).
  { apply (hive_keeps rt (fun _ => False) (Some s) (Some e))
      with (db := db) (m := m) (startDate := startDate) (endDate := endDate);
      [|exact Hres].
    intros dirPath md f q _ _ Hsel _. unfold fileSelected in Hsel.
    destruct Hnan as [-> | ->].
    - discriminate Hsel.
    - rewrite andb_comm in Hsel. discriminate Hsel. }
  destruct files as [|p l]; [reflexivity|]. inversion H as [|? ? []].
Qed.

Lemma hive_nan_bound_resolves_nothing_witness :
  (NaN = NaN \/ Num (Demo.hour_ns 15) = NaN)
  /\ _findFilesByHiveStructure Demo.rt_weather "mydb" "weather"
                               (date_of_nanos Demo.rt_weather (Some NaN))
                               (date_of_nanos Demo.rt_weather
                                              (Some (Num (Demo.hour_ns 15))))
                               (Some NaN) (Some (Num (Demo.hour_ns 15)))
     = Ok [].
Proof.
  split; [left; reflexivity|].
  destruct (_findFilesByHiveStructure Demo.rt_weather "mydb" "weather"
              (date_of_nanos Demo.rt_weather (Some NaN))
              (date_of_nanos Demo.rt_weather (Some (Num (Demo.hour_ns 15))))
              (Some NaN) (Some (Num (Demo.hour_ns 15)))) as [files|msg] eqn:H.
  - f_equal.
    exact (hive_nan_bound_resolves_nothing Demo.rt_weather _ _ _ _ NaN _ files
             (or_introl eq_refl) H).
  - vm_compute in H. discriminate H.
Defined.

(** X3.  When a [date=] entry within the range of the query cannot be
    listed (it is a file, or a directory that [readdir] fails on), the Hive
    resolver throws; [findRelevantFiles] catches the error and returns no
    file at all, without trying the recursive fallback. *)
Theorem unlistable_date_directory_resolves_nothing
        (rt : Runtime) (db m : string) (s e : option jsnum) (tc : option string)
        (dirs : list (string * node)) (d : string * node) :
  isNull s && isNull e = false ->
  _getDateDirectoriesInRange rt db m (date_of_nanos rt s) (date_of_nanos rt e) = Ok dirs ->
  In d dirs ->
  isListable (snd d) = false ->
  (exists msg,
      _findFilesByHiveStructure rt db m (date_of_nanos rt s) (date_of_nanos rt e) s e
      = Throw msg)
  /\ findRelevantFiles rt db m (mkRange s e tc) = [].
Proof.
  intros Hnull Hdirs Hin Hd.
  destruct (resolveDates_throws rt (basePathOf rt db m) dirs (date_of_nanos rt s)
              (date_of_nanos rt e) s e (ex_intro _ d (conj Hin Hd)) []) as [msg Hmsg].
  assert (Hhive : _findFilesByHiveStructure rt db m (date_of_nanos rt s)
                                            (date_of_nanos rt e) s e = Throw msg).
  { unfold _findFilesByHiveStructure. rewrite Hdirs. exact Hmsg. }
  split; [now exists msg|].
  unfold findRelevantFiles. cbn [start end_]. rewrite Hnull, Hhive. reflexivity.
Qed.

Lemma unlistable_date_directory_resolves_nothing_witness :
  let rt := Demo.runtime 0 (fun _ => true)
              (fun _ => Some (Dir true [("date=2025-04-10", File None);
                                        ("raw.parquet", File None)])) in
  let s := Some (Num (Demo.hour_ns 14)) in
  let e := Some (Num (Demo.hour_ns 15)) in
  findRelevantFiles rt "mydb" "weather" (mkRange s e None) = []
  /\ filesList (fallbackWalk rt "mydb" "weather" s e) = ["./data/mydb/weather/raw.parquet"].
Proof.
  split; [|vm_compute; reflexivity].
  apply (unlistable_date_directory_resolves_nothing
           (Demo.runtime 0 (fun _ => true)
              (fun _ => Some (Dir true [("date=2025-04-10", File None);
                                        ("raw.parquet", File None)])))
           "mydb" "weather" (Some (Num (Demo.hour_ns 14))) (Some (Num (Demo.hour_ns 15)))
           None [("date=2025-04-10", File None)] ("date=2025-04-10", File None)).
  - reflexivity.
  - vm_compute. reflexivity.
  - left. reflexivity.
  - reflexivity.
Defined.

(** X4.  For a measurement whose base path does not exist, no file is
    resolved whatever the time range, and [query] returns the empty array
    without a statement reaching the engine. *)
Theorem unknown_measurement_resolves_nothing
        (rt : Runtime) (sql db : string) (parsed : descriptor) :
  parseQuery sql db = Ok parsed ->
  fs_stat rt (basePathOf rt (dbName parsed) (measurement parsed)) = None ->
  (forall tr, findRelevantFiles rt (dbName parsed) (measurement parsed) tr = [])
  /\ query rt true sql db = mkOutcome (Ok []) [].
Proof.
  intros Hparsed Hstat.
  assert (Hfiles : forall tr,
             findRelevantFiles rt (dbName parsed) (measurement parsed) tr = []).
  { intro tr. unfold findRelevantFiles.
    destruct (isNull (start tr) && isNull (end_ tr)).
    - unfold _findAllFiles, allFilesWalk. rewrite Hstat. reflexivity.
    - unfold _findFilesByHiveStructure, _getDateDirectoriesInRange. rewrite Hstat.
      cbn [resolveDates]. unfold fallbackWalk. rewrite Hstat. reflexivity. }
  split; [exact Hfiles|].
  unfold query. cbn [negb]. rewrite Hparsed, Hfiles. reflexivity.
Qed.

Lemma unknown_measurement_resolves_nothing_witness :
  let parsed := mkDescriptor "*" "mydb" "cpu" (mkRange None None None) "" "" "" ""
                             (Some (Integer 5)) in
  parseQuery "SELECT * FROM cpu LIMIT 5" "mydb" = Ok parsed
  /\ fs_stat Demo.rt_weather (basePathOf Demo.rt_weather "mydb" "cpu") = None
  /\ query Demo.rt_weather true "SELECT * FROM cpu LIMIT 5" "mydb" = mkOutcome (Ok []) [].
Proof.
  assert (Hp : parseQuery "SELECT * FROM cpu LIMIT 5" "mydb"
               = Ok (mkDescriptor "*" "mydb" "cpu" (mkRange None None None) "" "" "" ""
                                  (Some (Integer 5))))
    by (vm_compute; reflexivity).
  assert (Hs : fs_stat Demo.rt_weather (basePathOf Demo.rt_weather "mydb" "cpu") = None)
    by (vm_compute; reflexivity).
  split; [exact Hp|]. split; [exact Hs|].
  exact (proj2 (unknown_measurement_resolves_nothing Demo.rt_weather _ _ _ Hp Hs)).
Defined.

(** ** The recursive walks *)

Lemma fold_left_ext_in {A X : Type} (f g : A -> X -> A) (l : list X) :
  (forall x, In x l -> forall a, f a x = g a x) ->
  forall a, fold_left f l a = fold_left g l a.
Proof.
  induction l as [|x l IH]; intros H a; cbn [fold_left]; [reflexivity|].
  rewrite (H x (or_introl eq_refl)). apply IH. intros y Hy. apply H. now right.
Qed.

Section MoreWalks.
Context (rt : Runtime).

Lemma pushRecorded_files (files : list file_entry) (w : walk) :
  filesList (pushRecorded rt files w)
  = filesList w ++ map f_path (filter (fun f => existsSync rt (f_path f)) files).
Proof.
  unfold pushRecorded. revert w.
  induction files as [|f l IH]; intro w; cbn [fold_left filter map].
  - now rewrite app_nil_r.
  - rewrite IH. destruct (existsSync rt (f_path f)); [|reflexivity].
    cbn [filesList push map]. now rewrite <- app_assoc.
Qed.

Lemma pushParquet_files (dirPath : string) (entries : list (string * node)) (w : walk) :
  filesList (pushParquet rt dirPath entries w)
  = filesList w
    ++ map (fun e => path_join rt dirPath (fst e))
           (filter (fun e => isFile (snd e) && endsWith ".parquet" (fst e)) entries).
Proof.
  unfold pushParquet. revert w.
  induction entries as [|x l IH]; intro w; cbn [fold_left filter map].
  - now rewrite app_nil_r.
  - rewrite IH. destruct (isFile (snd x) && endsWith ".parquet" (fst x)); [|reflexivity].
    cbn [filesList push map]. now rewrite <- app_assoc.
Qed.

(** The all-files walk only appends to the list it is given. *)
Lemma findFilesRecursively_extends (n : node) :
  forall (level : nat) (dirPath : string) (w : walk),
  exists rest,
    filesList (_findFilesRecursively rt level dirPath n w) = filesList w ++ rest.
Proof.
  induction n as [json| |r entries IH] using node_induction;
    intros level dirPath w; try (exists []; simpl; now rewrite app_nil_r).
  destruct r; [|exists []; simpl; now rewrite app_nil_r].
  cbn [_findFilesRecursively].
  set (w1 := pushParquet rt dirPath entries _).
  assert (H1 : exists r1, filesList w1 = filesList w ++ r1).
  { subst w1. rewrite pushParquet_files.
    destruct (find isMetadataEntry entries) as [[name [[md|]| |]]|];
      try (eexists; reflexivity).
    destruct (md_files md) as [files|]; [|eexists; reflexivity].
    rewrite pushRecorded_files. cbn [filesList enter].
    eexists. rewrite <- app_assoc. reflexivity. }
  destruct H1 as [r1 H1].
  assert (Hsub : forall a, exists rest,
               filesList
                 (fold_left
                    (fun acc e =>
                       let '(name, child) := e in
                       if isDirectory child
                       then _findFilesRecursively rt (S level) (path_join rt dirPath name)
                                                  child acc
                       else acc) entries a)
               = filesList a ++ rest).
  { apply (fold_left_extends filesList). intros [name child] Hin a.
    destruct (isDirectory child).
    - rewrite Forall_forall in IH. apply (IH _ Hin).
    - exists []. now rewrite app_nil_r. }
  destruct (Hsub w1) as [r2 H2]. exists (r1 ++ r2).
  rewrite H2, H1, app_assoc. reflexivity.
Qed.

(** On a tree without manifests the two walks are the same function. *)
Lemma manifestFree_walks_agree (n : node) :
  manifestFree n = true ->
  forall (level : nat) (dirPath : string) (startNs endNs : option jsnum) (w : walk),
    _findMetadataFilesRecursively rt level dirPath n startNs endNs w
    = _findFilesRecursively rt level dirPath n w.
Proof.
  induction n as [json| |r entries IH] using node_induction;
    intros Hfree level dirPath startNs endNs w; try reflexivity.
  destruct r; [|reflexivity].
  cbn [manifestFree] in Hfree. rewrite forallb_forall in Hfree.
  assert (Hfind : find isMetadataEntry entries = None).
  { destruct (find isMetadataEntry entries) as [[name child]|] eqn:Hf; [|reflexivity].
    apply find_some in Hf as [Hin Hmeta]. specialize (Hfree _ Hin). cbn in Hfree.
    rewrite Hmeta in Hfree. discriminate Hfree. }
  cbn [_findMetadataFilesRecursively _findFilesRecursively]. rewrite Hfind.
  apply fold_left_ext_in. intros [name child] Hin a.
  destruct (isDirectory child); [|reflexivity].
  rewrite Forall_forall in IH. apply (IH _ Hin).
  specialize (Hfree _ Hin). cbn in Hfree. apply andb_true_iff in Hfree. apply Hfree.
Qed.

Lemma height_child (r : bool) (entries : list (string * node)) (name : string)
      (child : node) :
  In (name, child) entries -> isDirectory child = true ->
  (S (height child) <= height (Dir r entries))%nat.
Proof.
  cbn [height]. induction entries as [|[n c] l IH]; intros Hin Hdir; [destruct Hin|].
  cbn [fold_right]. destruct Hin as [Heq | Hin].
  - injection Heq as -> ->. rewrite Hdir. apply Nat.le_max_l.
  - etransitivity; [exact (IH Hin Hdir) | apply Nat.le_max_r].
Qed.

(** Within ten levels the walk of the debug handler lists every directory
    that can be listed. *)
Lemma findFiles_lists_all (n : node) :
  forall (level : nat) (path : string) (w : debugWalk),
    (level + height n <= 10)%nat ->
    listed (findFiles rt path n level w) = listed w ++ directoriesOf rt level path n.
Proof.
  induction n as [json| |r entries IH] using node_induction;
    intros level path w Hh; try (cbn; now rewrite app_nil_r).
  destruct r; [|cbn; now rewrite app_nil_r].
  cbn [findFiles directoriesOf].
  set (w1 := mkDebugWalk _ _ _).
  change (listed w ++ (level, path) :: ?l) with (listed w ++ [(level, path)] ++ l).
  rewrite app_assoc. change (listed w ++ [(level, path)]) with (listed w1).
  assert (Hch : forall name child, In (name, child) entries -> isDirectory child = true ->
                                   (S level + height child <= 10)%nat).
  { intros name child Hin Hdir. pose proof (height_child true entries name child Hin Hdir).
    lia. }
  clear Hh. generalize w1. clear w1.
  induction entries as [|[name child] l IHl]; intro a; cbn [fold_left flat_map].
  - now rewrite app_nil_r.
  - inversion IH as [|? ? Hchild Hrest]; subst. cbn [snd] in Hchild.
    rewrite (IHl Hrest (fun n c Hin => Hch n c (or_intror Hin))), app_assoc. f_equal.
    destruct child as [json|r sub|].
    + destruct (endsWith ".parquet" name); [cbn; now rewrite app_nil_r|].
      destruct (String.eqb name "metadata.json"); cbn; now rewrite app_nil_r.
    + pose proof (Hch name (Dir r sub) (or_introl eq_refl) eq_refl) as Hlev.
      assert (Hlt : Nat.ltb level 10 = true) by (apply Nat.ltb_lt; lia).
      rewrite Hlt. apply Hchild. exact Hlev.
    + cbn. now rewrite app_nil_r.
Qed.

End MoreWalks.

(** X5.  Both recursive walks only ever append to the list they are given:
    what it held before a walk is still there, in the same order, at the
    start of the list after the walk. *)
Theorem walks_only_append
        (rt : Runtime) (n : node) (level : nat) (dirPath : string)
        (startNs endNs : option jsnum) (w : walk) :
  (exists rest,
      filesList (_findMetadataFilesRecursively rt level dirPath n startNs endNs w)
      = filesList w ++ rest)
  /\ (exists rest,
         filesList (_findFilesRecursively rt level dirPath n w) = filesList w ++ rest).
Proof.
  split.
  - apply findMetadataFilesRecursively_extends.
  - apply findFilesRecursively_extends.
Qed.

(** X6.  The all-files walk lists a file twice when the manifest of a
    directory records it under the very path it has in that directory: once
    from the manifest and once from the listing of the directory. *)
Theorem all_files_walk_lists_twice
        (rt : Runtime) (level : nat) (dirPath : string)
        (entries : list (string * node)) (w : walk)
        (nm name : string) (md : manifest) (files : list file_entry)
        (f : file_entry) (nd : node) :
  find isMetadataEntry entries = Some (nm, File (Some md)) ->
  md_files md = Some files ->
  In f files ->
  existsSync rt (f_path f) = true ->
  In (name, nd) entries ->
  isFile nd = true ->
  endsWith ".parquet" name = true ->
  f_path f = path_join rt dirPath name ->
  exists l1 l2 l3,
    filesList (_findFilesRecursively rt level dirPath (Dir true entries) w)
    = l1 ++ f_path f :: l2 ++ f_path f :: l3.
Proof.
  intros Hfind Hfiles Hf Hex Hin Hfile Hpq Hpath.
  cbn [_findFilesRecursively]. rewrite Hfind, Hfiles.
  set (sub := fold_left _ entries).
  assert (Hsub : forall a, exists rest, filesList (sub a) = filesList a ++ rest).
  { subst sub. apply (fold_left_extends filesList). intros [n0 child] _ a.
    destruct (isDirectory child).
    - apply findFilesRecursively_extends.
    - exists []. now rewrite app_nil_r. }
  destruct (Hsub (pushParquet rt dirPath entries
                              (pushRecorded rt files (enter level dirPath w))))
    as [rest Hrest].
  rewrite Hrest, pushParquet_files, pushRecorded_files. cbn [filesList enter].
  assert (H1 : In (f_path f)
                  (map f_path (filter (fun f => existsSync rt (f_path f)) files))).
  { apply in_map, filter_In. split; assumption. }
  assert (H2 : In (f_path f)
                  (map (fun e => path_join rt dirPath (fst e))
                       (filter (fun e => isFile (snd e) && endsWith ".parquet" (fst e))
                               entries))).
  { rewrite Hpath. apply (in_map (fun e => path_join rt dirPath (fst e)) _ (name, nd)).
    apply filter_In. split; [exact Hin|]. cbn [fst snd]. now rewrite Hfile, Hpq. }
  apply in_split in H1 as (r1 & r2 & ->). apply in_split in H2 as (p1 & p2 & ->).
  exists (filesList w ++ r1), (r2 ++ p1), (p2 ++ rest).
  repeat rewrite <- app_assoc. cbn [app]. repeat rewrite <- app_assoc. reflexivity.
Qed.

Lemma all_files_walk_lists_twice_witness :
  let rt := Demo.runtime 0 (fun _ => true) (fun _ => None) in
  let md := mkManifest 0 10 (Some [mkFile "/d/a.parquet" 0 10]) in
  let entries := [("metadata.json", File (Some md)); ("a.parquet", File None)] in
  exists l1 l2 l3,
    filesList (_findFilesRecursively rt 0 "/d" (Dir true entries) emptyWalk)
    = l1 ++ "/d/a.parquet" :: l2 ++ "/d/a.parquet" :: l3.
Proof.
  exact (all_files_walk_lists_twice
           (Demo.runtime 0 (fun _ => true) (fun _ => None)) 0 "/d"
           [("metadata.json", File (Some (mkManifest 0 10 (Some [mkFile "/d/a.parquet" 0 10]))));
            ("a.parquet", File None)]
           emptyWalk "metadata.json" "a.parquet"
           (mkManifest 0 10 (Some [mkFile "/d/a.parquet" 0 10]))
           [mkFile "/d/a.parquet" 0 10] (mkFile "/d/a.parquet" 0 10) (File None)
           eq_refl eq_refl (or_introl eq_refl) eq_refl (or_intror (or_introl eq_refl))
           eq_refl eq_refl eq_refl).
Defined.

(** X7.  On a tree that holds no [metadata.json] the fallback walk does
    what the all-files walk does, whatever the bounds: without manifests
    the time range of the query prunes nothing. *)
Theorem walks_agree_without_manifests
        (rt : Runtime) (n : node) (level : nat) (dirPath : string)
        (startNs endNs : option jsnum) (w : walk) :
  manifestFree n = true ->
  _findMetadataFilesRecursively rt level dirPath n startNs endNs w
  = _findFilesRecursively rt level dirPath n w.
Proof.
  intro H. now apply manifestFree_walks_agree.
Qed.

Lemma walks_agree_without_manifests_witness :
  manifestFree (Demo.chain 3) = true
  /\ _findMetadataFilesRecursively Demo.rt_deep 0 "/r" (Demo.chain 3)
                                   (Some (Num 5)) (Some (Num 6)) emptyWalk
     = _findFilesRecursively Demo.rt_deep 0 "/r" (Demo.chain 3) emptyWalk.
Proof.
  split; [reflexivity|].
  exact (walks_agree_without_manifests Demo.rt_deep (Demo.chain 3) 0 "/r"
                                       (Some (Num 5)) (Some (Num 6)) emptyWalk eq_refl).
Defined.

(** X8.  A manifest at the top of the measurement that does not overlap the
    query interval ends the fallback walk at once: no file is collected and
    no subdirectory is listed, whatever lies below. *)
Theorem pruned_root_ends_fallback
        (rt : Runtime) (db m : string) (s e : jsnum)
        (entries : list (string * node)) (nm : string) (md : manifest) :
  fs_stat rt (basePathOf rt db m) = Some (Dir true entries) ->
  find isMetadataEntry entries = Some (nm, File (Some md)) ->
  manifestSkipped (Some s) (Some e) md = true ->
  fallbackWalk rt db m (Some s) (Some e) = mkWalk [] [(0%nat, basePathOf rt db m)].
Proof.
  intros Hstat Hfind Hskip. unfold fallbackWalk. rewrite Hstat.
  cbn [_findMetadataFilesRecursively]. rewrite Hfind, Hskip. reflexivity.
Qed.

Lemma pruned_root_ends_fallback_witness :
  let md := mkManifest 0 10 (Some []) in
  let entries := [("metadata.json", File (Some md));
                  ("sub", Dir true [("x.parquet", File None)])] in
  let rt := Demo.runtime 0 (fun _ => true) (fun _ => Some (Dir true entries)) in
  fallbackWalk rt "mydb" "weather" (Some (Num 20)) (Some (Num 30))
  = mkWalk [] [(0%nat, basePathOf rt "mydb" "weather")].
Proof.
  exact (pruned_root_ends_fallback
           (Demo.runtime 0 (fun _ => true)
              (fun _ => Some (Dir true [("metadata.json", File (Some (mkManifest 0 10 (Some []))));
                                        ("sub", Dir true [("x.parquet", File None)])])))
           "mydb" "weather" (Num 20) (Num 30) _ "metadata.json" (mkManifest 0 10 (Some []))
           eq_refl eq_refl eq_refl).
Defined.

(** X9.  On a tree of at most ten directory levels the walk of the debug
    handler lists exactly the directories that the all-files walk lists. *)
Theorem debug_walk_lists_all_within_ten_levels
        (rt : Runtime) (tree : node) (path : string) :
  (height tree <= 10)%nat ->
  listed (findFiles rt path tree 0 emptyDebugWalk)
  = visited (_findFilesRecursively rt 0 path tree emptyWalk).
Proof.
  intro H.
  rewrite (findFiles_lists_all rt tree 0 path emptyDebugWalk H).
  rewrite (findFilesRecursively_visits_all rt tree 0 path emptyWalk). reflexivity.
Qed.

Lemma debug_walk_lists_all_within_ten_levels_witness :
  (height Demo.weather <= 10)%nat
  /\ listed (findFiles Demo.rt_weather Demo.weatherPath Demo.weather 0 emptyDebugWalk)
     = visited (_findFilesRecursively Demo.rt_weather 0 Demo.weatherPath Demo.weather
                                      emptyWalk).
Proof.
  assert (H : (height Demo.weather <= 10)%nat) by (vm_compute; lia).
  split; [exact H|].
  exact (debug_walk_lists_all_within_ten_levels Demo.rt_weather _ _ H).
Defined.

(** ** The extractor's range *)

Lemma defaultBounds_null_iff (rt : Runtime) (x : extraction) :
  (x_userSpecified x = true ->
   x_timeCondition x <> None /\ (x_start x <> None \/ x_end x <> None)) ->
  let r := defaultBounds rt x in
  (timeCondition r = None <-> start r = None /\ end_ r = None)
  /\ (timeCondition r = None <-> x_userSpecified x = false).
Proof.
  intro Hx. unfold defaultBounds.
  destruct (x_userSpecified x); cbn [negb].
  - destruct (Hx eq_refl) as [Htc Hb].
    destruct (truthy (x_start x) && negb (truthy (x_end x)));
      [|destruct (negb (truthy (x_start x)) && truthy (x_end x))];
      cbn [timeCondition start end_];
      (split; split; [intro H; contradiction | | intro H; contradiction | discriminate]);
      intros [H1 H2]; try discriminate; destruct Hb; contradiction.
  - cbn [timeCondition start end_]. repeat split; reflexivity.
Qed.

Lemma matchTimePatterns_specified (rt : Runtime) (text : string) :
  let x := matchTimePatterns rt text in
  x_userSpecified x = true ->
  x_timeCondition x <> None /\ (x_start x <> None \/ x_end x <> None).
Proof.
  unfold matchTimePatterns.
  destruct (exec true timePattern3 text) as [bm|].
  - cbn. intros _. split; [discriminate | left; discriminate].
  - destruct (exec true timePattern0 text) as [sm|];
      destruct (exec true timePattern1 text) as [em|];
      destruct (exec true timePattern2 text) as [qm|];
      cbn -[nanos grp String.append is_empty];
      intro H; try discriminate H;
      (split; [discriminate | first [left; discriminate | right; discriminate]]).
Qed.

(** X10.  The range that the extractor returns is null in all three parts
    or in none of the condition text and at least one bound: the condition
    text is null exactly when start and end are both null, which is the
    case in which [findRelevantFiles] scans all files. *)
Theorem extracted_range_null_together (rt : Runtime) (sql whereClause : string) :
  (let r := _extractTimeRange rt sql whereClause in
   timeCondition r = None <-> start r = None /\ end_ r = None)
  /\ (let r := _extractTimeRange_v1 rt sql in
      timeCondition r = None <-> start r = None /\ end_ r = None).
Proof.
  split; cbv zeta.
  - unfold _extractTimeRange.
    apply (defaultBounds_null_iff rt), (matchTimePatterns_specified rt).
  - unfold _extractTimeRange_v1.
    apply (defaultBounds_null_iff rt), (matchTimePatterns_specified rt).
Qed.

(** ** The normalisation step, further *)

(** X12.  The normalisation step is idempotent on every row and on every
    result: what it produces it leaves unchanged. *)
Theorem normalisation_idempotent (rt : Runtime) (r : row) (rows : list row) :
  fixRow rt (fixRow rt r) = fixRow rt r
  /\ processedResults rt (processedResults rt rows) = processedResults rt rows.
Proof.
  assert (H : forall r0, fixRow rt (fixRow rt r0) = fixRow rt r0).
  { intro r0. apply fixRow_fixed_point, fixRow_is_normalized. }
  split; [apply H|].
  unfold processedResults. rewrite map_map. apply map_ext. exact H.
Qed.

(** X13.  The loop that reads a character buffer ends on every object,
    within one turn more than the object has properties. *)
Theorem char_buffer_loop_ends (rt : Runtime) (props : list (string * value)) :
  exists str, bufferFrom rt props (S (List.length props)) 0 = Some str
              /\ bufferString rt props = str.
Proof.
  destruct (bufferFrom_total rt props) as [str H]. exists str. split; [exact H|].
  unfold bufferString. rewrite H. reflexivity.
Qed.

(** ** What a match tells *)

Section MatcherFacts.
Context {R : Type} (icase : bool).

Lemma rep_greedy_inv (p : ascii -> bool) (k : cont R) (s : string) :
  forall n pre c r,
    rep_greedy R p k n s pre c = Some r ->
    exists t rest,
      s = (string_of_list_ascii t ++ rest)%string
      /\ forallb p t = true /\ (n <= List.length t)%nat
      /\ k rest (rev t ++ pre) c = Some r.
Proof.
  induction s as [|a s IH]; intros n pre c r H; cbn [rep_greedy] in H.
  - destruct n; [|discriminate]. exists [], EmptyString. repeat split; auto.
  - assert (Hstop : match n with O => k (String a s) pre c | S _ => None end = Some r ->
                    exists t rest,
                      String a s = (string_of_list_ascii t ++ rest)%string
                      /\ forallb p t = true /\ (n <= List.length t)%nat
                      /\ k rest (rev t ++ pre) c = Some r).
    { intro Hs. destruct n; [|discriminate]. exists [], (String a s). repeat split; auto. }
    destruct (p a) eqn:Hp; [|now apply Hstop].
    destruct (rep_greedy R p k (Nat.pred n) s (a :: pre) c) as [r'|] eqn:Hrec;
      [|now apply Hstop].
    injection H as ->.
    destruct (IH _ _ _ _ Hrec) as (t & rest & Hs & Hall & Hn & Hk).
    exists (a :: t), rest. cbn [string_of_list_ascii String.append forallb List.length rev].
    rewrite Hs, Hp, Hall, <- app_assoc. repeat split; auto. lia.
Qed.

Lemma rep_lazy_inv (p : ascii -> bool) (k : cont R) (s : string) :
  forall n pre c r,
    rep_lazy R p k n s pre c = Some r ->
    exists rest pre', k rest pre' c = Some r.
Proof.
  induction s as [|a s IH]; intros n pre c r H; cbn [rep_lazy] in H.
  - destruct n; [|discriminate]. destruct (k EmptyString pre c) eqn:Hk; [|discriminate].
    injection H as ->. eauto.
  - assert (Hmore : (if p a then rep_lazy R p k (Nat.pred n) s (a :: pre) c else None)
                    = Some r -> exists rest pre', k rest pre' c = Some r).
    { destruct (p a); [|discriminate]. apply IH. }
    destruct n; [|now apply Hmore].
    destruct (k (String a s) pre c) eqn:Hk; [|now apply Hmore].
    injection H as ->. eauto.
Qed.

(** A pattern without groups hands the groups on as it found them. *)
Lemma run_capfree (r : re) :
  capfree r = true ->
  forall (k : cont R) s pre c res,
    run icase r k s pre c = Some res ->
    exists s' pre', k s' pre' c = Some res.
Proof.
  induction r as [|x|p|g n p|a IHa b IHb|a IHa b IHb|a IHa|n a IHa| |];
    intros Hfree k s pre c res H; cbn [run] in H; cbn [capfree] in Hfree.
  - eauto.
  - destruct s as [|y s]; [discriminate|]. destruct (chr_eq icase x y); [eauto|discriminate].
  - destruct s as [|y s]; [discriminate|]. destruct (p y); [eauto|discriminate].
  - destruct g.
    + destruct (rep_greedy_inv _ _ _ _ _ _ _ H) as (t & rest & _ & _ & _ & Hk). eauto.
    + apply (rep_lazy_inv _ _ _ _ _ _ _ H).
  - apply andb_true_iff in Hfree as [Ha Hb].
    destruct (IHa Ha _ _ _ _ _ H) as (s1 & pre1 & H1). apply (IHb Hb _ _ _ _ _ H1).
  - apply andb_true_iff in Hfree as [Ha Hb].
    destruct (run icase a k s pre c) eqn:E.
    + injection H as ->. apply (IHa Ha _ _ _ _ _ E).
    + apply (IHb Hb _ _ _ _ _ H).
  - destruct (run icase a k s pre c) eqn:E.
    + injection H as ->. apply (IHa Hfree _ _ _ _ _ E).
    + eauto.
  - discriminate Hfree.
  - destruct s; [eauto|discriminate].
  - destruct (at_word_boundary s pre); [eauto|discriminate].
Qed.

End MatcherFacts.

Lemma string_of_rev_rev (t : list ascii) (tail : list ascii) :
  string_of_rev (firstn (List.length (rev t ++ tail) - List.length tail) (rev t ++ tail))
  = string_of_list_ascii t.
Proof.
  rewrite length_app, Nat.add_sub, <- (Nat.add_0_r (List.length (rev t))).
  rewrite firstn_app_2. cbn [firstn]. rewrite app_nil_r.
  unfold string_of_rev.
  enough (H : forall acc, fold_left (fun acc c => String c acc) (rev t) acc
                          = (string_of_list_ascii t ++ acc)%string).
  { rewrite H. clear. induction t as [|a t IH]; cbn; [reflexivity | now rewrite IH]. }
  induction t as [|a t IH]; intro acc; cbn [rev]; [reflexivity|].
  rewrite fold_left_app, IH. reflexivity.
Qed.


Lemma search_inv (icase : bool) (r : re) (s : string) :
  forall pre m, search icase r s pre = Some m ->
                exists s' pre', match_here icase r s' pre' = Some m.
Proof.
  induction s as [|a s IH]; intros pre m H; cbn [search] in H.
  - destruct (match_here icase r EmptyString pre) eqn:E; [|discriminate].
    injection H as ->. eauto.
  - destruct (match_here icase r (String a s) pre) eqn:E.
    + injection H as ->. eauto.
    + apply (IH _ _ H).
Qed.

Lemma list_ascii_identifier (t : list ascii) (p : ascii -> bool) :
  forallb p t = true -> (1 <= List.length t)%nat ->
  string_of_list_ascii t <> EmptyString
  /\ forallb p (list_ascii_of_string (string_of_list_ascii t)) = true.
Proof.
  intros Hall Hlen. rewrite list_ascii_of_string_of_list_ascii. split; [|exact Hall].
  destruct t; [cbn in Hlen; lia | discriminate].
Qed.

(** What a match of the FROM pattern holds in its groups. *)
Lemma fromPattern_groups (s : string) (fm : rmatch) :
  exec true fromPattern s = Some fm ->
  isIdentifier (grp fm 2)
  /\ (group fm 1 = None \/ exists d, group fm 1 = Some d /\ isIdentifier d).
Proof.
  intro H. apply search_inv in H as (s0 & pre0 & H).
  unfold match_here, fromPattern in H. cbn [seq] in H.
  change (run true (Seq ?a (Seq ?b (Seq ?o ?g))) ?k)
    with (run true a (run true b (run true o (run true g k)))) in H.
  apply (run_capfree true (lit "FROM") eq_refl) in H as (s1 & pre1 & H).
  apply (run_capfree true ws1 eq_refl) in H as (s2 & pre2 & H).
  cbn [run] in H.
  match type of H with
  | match ?first with Some x => Some x | None => ?second end = Some fm =>
      destruct first as [x|] eqn:Hfirst
  end.
  - injection H as ->.
    destruct (rep_greedy_inv _ _ _ _ _ _ _ Hfirst) as (t1 & rest1 & _ & Hall1 & Hlen1 & Hk).
    rewrite string_of_rev_rev in Hk.
    destruct rest1 as [|y rest1]; [discriminate|].
    destruct (chr_eq true "." y); [|discriminate].
    destruct (rep_greedy_inv _ _ _ _ _ _ _ Hk) as (t2 & rest2 & _ & Hall2 & Hlen2 & Hk2).
    injection Hk2 as <-.
    change (rev t2 ++ y :: rev t1 ++ pre2) with (rev t2 ++ (y :: rev t1 ++ pre2)).
    rewrite string_of_rev_rev.
    unfold grp, group, isIdentifier. cbn [m_caps cap_lookup Nat.eqb].
    split; [now apply list_ascii_identifier|].
    right. eexists. split; [reflexivity|]. now apply list_ascii_identifier.
  - destruct (rep_greedy_inv _ _ _ _ _ _ _ H) as (t2 & rest2 & _ & Hall2 & Hlen2 & Hk2).
    injection Hk2 as <-. rewrite string_of_rev_rev.
    unfold grp, group, isIdentifier. cbn [m_caps cap_lookup Nat.eqb].
    split; [now apply list_ascii_identifier | now left].
Qed.

(** X14.  The measurement of a descriptor is a non-empty text of word
    characters, and so is its database name unless it is the one that was
    passed in: nothing else of the statement reaches the paths that the
    resolvers build from the two names. *)
Theorem parsed_names_are_identifiers (sql db : string) (parsed : descriptor) :
  parseQuery sql db = Ok parsed ->
  isIdentifier (measurement parsed)
  /\ (dbName parsed = db \/ isIdentifier (dbName parsed)).
Proof.
  unfold parseQuery. intro H.
  destruct (exec true fromPattern (normalizeWhitespace sql)) as [fm|] eqn:Hfm;
    [|discriminate].
  injection H as <-.
  destruct (fromPattern_groups _ _ Hfm) as [Hm [Hnone | (d & Hd & Hid)]];
    (split; [exact Hm|]);
    change (dbName _) with (match group fm 1 with
                            | Some d => if is_empty d then db else d
                            | None => db
                            end).
  - rewrite Hnone. now left.
  - rewrite Hd. destruct (is_empty d); [now left | now right].
Qed.

Lemma parsed_names_are_identifiers_witness :
  let parsed := mkDescriptor "*" "prod" "cpu_load" (mkRange None None None) "" "" "" ""
                             None in
  parseQuery "select * from prod.cpu_load" "mydb" = Ok parsed
  /\ isIdentifier (measurement parsed)
  /\ (dbName parsed = "mydb" \/ isIdentifier (dbName parsed)).
Proof.
  assert (H : parseQuery "select * from prod.cpu_load" "mydb"
              = Ok (mkDescriptor "*" "prod" "cpu_load" (mkRange None None None)
                                 "" "" "" "" None))
    by (vm_compute; reflexivity).
  split; [exact H|].
  exact (parsed_names_are_identifiers _ _ _ H).
Defined.

(** ** Strings *)

Lemma string_app_assoc (a b c : string) :
  ((a ++ b) ++ c)%string = (a ++ (b ++ c))%string.
Proof. induction a as [|x a IH]; cbn; [reflexivity | now rewrite IH]. Qed.

Lemma string_app_nil_r (a : string) : (a ++ "")%string = a.
Proof. induction a as [|x a IH]; cbn; [reflexivity | now rewrite IH]. Qed.

(** ** The limit of a descriptor *)

Lemma digit_not_space (a : ascii) : is_digit a = true -> is_space a = false.
Proof.
  unfold is_digit, is_space, between. intro H.
  apply andb_true_iff in H as [H1 H2]. apply Nat.leb_le in H1, H2.
  destruct (Nat.leb 9 (code a) && Nat.leb (code a) 13) eqn:E1.
  - apply andb_true_iff in E1 as [_ E]. apply Nat.leb_le in E. lia.
  - cbn [orb]. destruct (Nat.eqb (code a) 32) eqn:E2; [apply Nat.eqb_eq in E2; lia|].
    cbn [orb]. apply Nat.eqb_neq. lia.
Qed.








(** ** Character buffers *)

Section CharBuffer.
Context (rt : Runtime).

Lemma getProp_indexed (others : list (string * value)) (items : list value) :
  forall i j,
    getProp (string_of_nat (i + j)) (indexed_from i items ++ others)
    = match nth_error items j with
      | Some v => Some v
      | None => getProp (string_of_nat (i + j)) others
      end.
Proof.
  induction items as [|v items IH]; intros i j; cbn [indexed_from app].
  - now destruct j.
  - cbn [getProp]. destruct j as [|j]; cbn [nth_error].
    + rewrite Nat.add_0_r, String.eqb_refl. reflexivity.
    + destruct (String.eqb (string_of_nat i) (string_of_nat (i + S j))) eqn:E.
      * apply String.eqb_eq, string_of_nat_inj in E. lia.
      * rewrite Nat.add_succ_r. apply (IH (S i) j).
Qed.

Lemma bufferFrom_chars (others : list (string * value)) (chars : list string) :
  getProp (string_of_nat (List.length chars)) others = None ->
  (forall c, to_string rt (VString c) = c) ->
  forall rest done fuel,
    chars = done ++ rest ->
    (List.length rest < fuel)%nat ->
    bufferFrom rt (indexed_from 0 (map VString chars) ++ others) fuel (List.length done)
    = Some (joined rest).
Proof.
  intros Hend Hstr rest.
  induction rest as [|c rest IH]; intros done fuel Hchars Hfuel;
    (destruct fuel as [|fuel]; [cbn in Hfuel; lia|]); cbn [bufferFrom];
    pose proof (getProp_indexed others (map VString chars) 0 (List.length done)) as Hg;
    cbn [Nat.add] in Hg; rewrite Hg; clear Hg.
  - rewrite app_nil_r in Hchars. subst done.
    rewrite (proj2 (nth_error_None _ _)) by (rewrite length_map; lia).
    rewrite Hend. reflexivity.
  - assert (Hnth : nth_error (map VString chars) (List.length done) = Some (VString c)).
    { rewrite Hchars, map_app, nth_error_app2 by (rewrite length_map; lia).
      rewrite length_map, Nat.sub_diag. reflexivity. }
    rewrite Hnth.
    specialize (IH (done ++ [c]) fuel).
    rewrite length_app, Nat.add_1_r in IH.
    rewrite IH.
    + rewrite Hstr. reflexivity.
    + rewrite Hchars, <- app_assoc. reflexivity.
    + cbn [List.length] in Hfuel. lia.
Qed.

End CharBuffer.

(** X17.  An object that holds characters under the keys [0], [1], ... and
    a [ptr] property among its other properties is replaced by the string
    of those characters, read up to the first index that is missing. *)
Theorem char_buffer_becomes_string
        (rt : Runtime) (key : string) (chars : list string)
        (others : list (string * value)) :
  chars <> [] ->
  hasKey "ptr" others = true ->
  getProp (string_of_nat (List.length chars)) others = None ->
  (forall c, to_string rt (VString c) = c) ->
  fixValue rt key (VObject (indexed_from 0 (map VString chars) ++ others))
  = VString (joined chars).
Proof.
  intros Hne Hptr Hend Hstr. unfold fixValue. cbn [isNullValue].
  rewrite andb_false_r.
  assert (H0 : hasKey "0" (indexed_from 0 (map VString chars) ++ others) = true).
  { destruct chars as [|c chars]; [contradiction|]. reflexivity. }
  assert (Hp : hasKey "ptr" (indexed_from 0 (map VString chars) ++ others) = true).
  { unfold hasKey in *. rewrite existsb_app, Hptr. apply orb_true_r. }
  rewrite H0, Hp. f_equal. unfold bufferString.
  rewrite (bufferFrom_chars rt others chars Hend Hstr chars [] _ eq_refl).
  - reflexivity.
  - assert (Hlen : forall items i, List.length (indexed_from i items) = List.length items).
    { induction items as [|v items IH]; intro i; cbn; [reflexivity | now rewrite IH]. }
    cbn [List.length]. rewrite length_app, Hlen, length_map. lia.
Qed.

Lemma char_buffer_becomes_string_witness :
  fixValue Demo.rt_weather "name"
           (VObject (indexed_from 0 (map VString ["o"; "s"; "l"; "o"])
                       ++ [("ptr", VNumber 4096); ("len", VNumber 4)]))
  = VString (joined ["o"; "s"; "l"; "o"]).
Proof.
  apply (char_buffer_becomes_string Demo.rt_weather "name" ["o"; "s"; "l"; "o"]
           [("ptr", VNumber 4096); ("len", VNumber 4)]).
  - discriminate.
  - reflexivity.
  - reflexivity.
  - reflexivity.
Defined.

(** ** processBigIntInResults, further *)

(** Induction on a value, with the hypothesis for the items of an array
    and for the property values of an object. *)
Lemma value_induction (P : value -> Prop) :
  P VUndefined -> P VNull -> (forall b, P (VBool b)) -> (forall n, P (VNumber n)) ->
  (forall r, P (VFloat r)) -> (forall s, P (VString s)) -> (forall z, P (VBigInt z)) ->
  (forall ms, P (VDate ms)) ->
  (forall items, Forall P items -> P (VArray items)) ->
  (forall props, Forall (fun kv => P (snd kv)) props -> P (VObject props)) ->
  forall v, P v.
Proof.
  intros H1 H2 H3 H4 H5 H6 H7 H8 HA HO. fix IH 1. intros [| |b|n|r|s|z|ms|items|props].
  - exact H1.
  - exact H2.
  - apply H3.
  - apply H4.
  - apply H5.
  - apply H6.
  - apply H7.
  - apply H8.
  - apply HA. revert items. fix IHitems 1. intros [|v items].
    + constructor.
    + constructor; [apply IH | apply IHitems].
  - apply HO. revert props. fix IHprops 1. intros [|kv props].
    + constructor.
    + constructor; [apply IH | apply IHprops].
Qed.

Lemma indexed_from_map (f : value -> value) (items : list value) :
  forall i,
    map (fun kv => (fst kv, f (snd kv))) (indexed_from i items)
    = indexed_from i (map f items).
Proof.
  induction items as [|v items IH]; intro i; cbn; [reflexivity | now rewrite IH].
Qed.

Lemma processBigInt_twice (v : value) :
  processValue (processValue v) = processValue v
  /\ processBigIntInObject (processBigIntInObject v) = processBigIntInObject v.
Proof.
  induction v as [| |b|n|r|s|z|ms|items IH|props IH] using value_induction;
    try (split; reflexivity).
  - assert (Hpv : map processValue (map processValue items) = map processValue items).
    { rewrite map_map. apply map_ext_Forall.
      apply (Forall_impl _ (fun a H => proj1 H) IH). }
    assert (Hpo : map processBigIntInObject (map processBigIntInObject items)
                  = map processBigIntInObject items).
    { rewrite map_map. apply map_ext_Forall.
      apply (Forall_impl _ (fun a H => proj2 H) IH). }
    split; cbn [processValue processBigIntInObject].
    + now rewrite Hpo.
    + now rewrite (indexed_from_map processValue), Hpv.
  - assert (Hp : map (fun kv => (fst kv, processValue (snd kv)))
                     (map (fun kv => (fst kv, processValue (snd kv))) props)
                 = map (fun kv => (fst kv, processValue (snd kv))) props).
    { rewrite map_map. apply map_ext_Forall.
      apply (Forall_impl _ (fun a H => f_equal (pair (fst a)) (proj1 H)) IH). }
    split; cbn [processValue processBigIntInObject]; now rewrite Hp.
Qed.

(** X18.  The helper of the [/sql] and [/debug] handlers is idempotent:
    applied to what it has produced, it changes nothing. *)
Theorem processBigIntInResults_idempotent (results : list value) :
  processBigIntInResults (processBigIntInResults results)
  = processBigIntInResults results.
Proof.
  unfold processBigIntInResults. rewrite map_map. apply map_ext.
  intro v. apply processBigInt_twice.
Qed.

(** ** Line protocol *)

Import LineProtocol.

Lemma rev_string_acc (s acc : string) :
  rev_string s acc = (rev_string s "" ++ acc)%string.
Proof.
  revert acc. induction s as [|c s IH]; intro acc; cbn [rev_string]; [reflexivity|].
  rewrite (IH (String c acc)), (IH (String c "")), string_app_assoc. reflexivity.
Qed.

Lemma rev_string_app (a b acc : string) :
  rev_string (a ++ b) acc = rev_string b (rev_string a acc).
Proof.
  revert acc. induction a as [|c a IH]; intro acc; cbn; [reflexivity | apply IH].
Qed.

Lemma rev_string_involutive (s : string) : rev_string (rev_string s "") "" = s.
Proof.
  induction s as [|c s IH]; cbn [rev_string]; [reflexivity|].
  rewrite (rev_string_acc s), rev_string_app. cbn [rev_string].
  now rewrite IH.
Qed.

Lemma all_chars_app (p : ascii -> bool) (a b : string) :
  all_chars p (a ++ b) = (all_chars p a && all_chars p b)%bool.
Proof.
  induction a as [|c a IH]; cbn; [reflexivity|]. now rewrite IH, andb_assoc.
Qed.

Lemma all_chars_rev (p : ascii -> bool) (s acc : string) :
  all_chars p (rev_string s acc) = (all_chars p s && all_chars p acc)%bool.
Proof.
  revert acc. induction s as [|c s IH]; intro acc; cbn [rev_string all_chars];
    [reflexivity|].
  rewrite IH. cbn [all_chars]. destruct (p c), (all_chars p s); reflexivity.
Qed.

Lemma all_chars_impl (p q : ascii -> bool) (s : string) :
  (forall c, p c = true -> q c = true) ->
  all_chars p s = true -> all_chars q s = true.
Proof.
  intro Hpq. induction s as [|c s IH]; cbn; [reflexivity|].
  intro H. apply andb_true_iff in H as [Hc Hs].
  now rewrite (Hpq c Hc), (IH Hs).
Qed.

Lemma trimStart_nonspace (s : string) :
  all_chars nonspace s = true -> trimStart s = s.
Proof.
  destruct s as [|c s]; cbn; [reflexivity|]. unfold nonspace.
  destruct (is_space c); [discriminate | reflexivity].
Qed.

Lemma trimStart_app_nonspace (b a : string) :
  b <> "" -> all_chars nonspace b = true -> trimStart (b ++ a) = (b ++ a)%string.
Proof.
  destruct b as [|c b]; [contradiction|]. intros _. cbn. unfold nonspace.
  destruct (is_space c); [discriminate | reflexivity].
Qed.

(** A text that ends in a non-empty run without white space is not
    shortened at its end. *)
Lemma trimEnd_app_nonspace (a b : string) :
  b <> "" -> all_chars nonspace b = true -> trimEnd (a ++ b) = (a ++ b)%string.
Proof.
  intros Hne Hb. unfold trimEnd.
  rewrite rev_string_app, (rev_string_acc b).
  rewrite trimStart_app_nonspace.
  - rewrite <- rev_string_acc, <- rev_string_app. apply rev_string_involutive.
  - intro E. apply (f_equal (fun s => rev_string s "")) in E.
    rewrite rev_string_involutive in E. contradiction.
  - rewrite all_chars_rev, Hb. reflexivity.
Qed.

(** *** split and join *)

Lemma split_on_nonempty (c : ascii) (s : string) : split_on c s <> [].
Proof.
  induction s as [|a s IH]; cbn; [discriminate|].
  destruct (Ascii.eqb a c); [discriminate|].
  destruct (split_on c s); discriminate.
Qed.

Lemma split_on_free (c : ascii) (s : string) :
  all_chars (isnt c) s = true -> split_on c s = [s].
Proof.
  induction s as [|a s IH]; cbn; [reflexivity|]. unfold isnt at 1.
  intro H. apply andb_true_iff in H as [Ha Hs].
  apply negb_true_iff in Ha. rewrite Ha, (IH Hs). reflexivity.
Qed.

Lemma split_on_app (c : ascii) (a b : string) :
  all_chars (isnt c) a = true ->
  split_on c (a ++ String c b) = a :: split_on c b.
Proof.
  induction a as [|x a IH]; cbn.
  - intros _. now rewrite Ascii.eqb_refl.
  - unfold isnt at 1. intro H. apply andb_true_iff in H as [Hx Ha].
    apply negb_true_iff in Hx. rewrite Hx, (IH Ha). reflexivity.
Qed.

Lemma split_on_join (c : ascii) (parts : list string) :
  parts <> [] ->
  Forall (fun p => all_chars (isnt c) p = true) parts ->
  split_on c (join (String c "") parts) = parts.
Proof.
  induction parts as [|p parts IH]; [contradiction|]. intros _ Hall.
  inversion Hall as [|? ? Hp Hrest]; subst.
  destruct parts as [|q parts].
  - cbn. now apply split_on_free.
  - change (join (String c "") (p :: q :: parts))
      with (p ++ String c (join (String c "") (q :: parts)))%string.
    rewrite (split_on_app c p _ Hp), IH; [reflexivity | discriminate | assumption].
Qed.

(** *** Decimal texts *)

Lemma string_of_uint_digits (d : Decimal.uint) :
  all_chars is_digit (NilEmpty.string_of_uint d) = true.
Proof. induction d; cbn [NilEmpty.string_of_uint all_chars]; try rewrite IHd; reflexivity. Qed.

Lemma string_of_uint_nonempty (d : Decimal.uint) :
  d <> Decimal.Nil -> NilEmpty.string_of_uint d <> "".
Proof. destruct d; [contradiction | discriminate ..]. Qed.

Lemma digits_all_of_uint_acc (d : Decimal.uint) :
  forall acc : positive,
    digits_all 10 (NilEmpty.string_of_uint d) (Z.pos acc)
    = Some (Z.pos (Pos.of_uint_acc d acc)).
Proof.
  induction d; intro acc; cbn [NilEmpty.string_of_uint digits_all Pos.of_uint_acc];
    [reflexivity | ..];
    (match goal with
     | |- context [digit_val true ?c] =>
         change (digit_val true c) with (Some (Z.of_nat (code c - 48)))
     end;
     cbn [code nat_of_ascii]; cbv beta iota;
     match goal with
     | |- context [Z.ltb ?x 10] => change (Z.ltb x 10) with true
     end;
     cbv iota;
     match goal with
     | |- digits_all 10 _ ?a = Some (Z.pos (Pos.of_uint_acc _ ?b)) =>
         replace a with (Z.pos b) by (vm_compute Z.of_nat; lia)
     end;
     apply IHd).
Qed.

Lemma digits_all_of_uint (d : Decimal.uint) :
  digits_all 10 (NilEmpty.string_of_uint d) 0 = Some (Z.of_N (Pos.of_uint d)).
Proof.
  induction d; cbn [NilEmpty.string_of_uint Pos.of_uint]; [reflexivity | exact IHd | ..];
    apply (digits_all_of_uint_acc d).
Qed.

Lemma literal_of_uint (d : Decimal.uint) :
  d <> Decimal.Nil ->
  literal 10 (NilEmpty.string_of_uint d) = Some (Z.of_N (Pos.of_uint d)).
Proof.
  intro Hne. unfold literal.
  pose proof (string_of_uint_nonempty d Hne) as Hs.
  pose proof (digits_all_of_uint d) as Hd.
  destruct (NilEmpty.string_of_uint d); [contradiction | exact Hd].
Qed.

Lemma literal_of_pos (p : positive) :
  literal 10 (NilEmpty.string_of_uint (Pos.to_uint p)) = Some (Z.pos p).
Proof.
  rewrite literal_of_uint by apply DecimalPos.Unsigned.to_uint_nonnil.
  now rewrite DecimalPos.Unsigned.of_to.
Qed.

Lemma digit_is_nonspace (s : string) :
  all_chars is_digit s = true -> all_chars nonspace s = true.
Proof.
  apply all_chars_impl. intros c H. unfold nonspace.
  now rewrite (digit_not_space c H).
Qed.

Lemma digit_val_digit (hex : bool) (c : ascii) :
  is_digit c = true ->
  exists d, digit_val hex c = Some d /\ 0 <= d < 10.
Proof.
  intro H. unfold digit_val. rewrite H. eexists. split; [reflexivity|].
  unfold is_digit, between in H. apply andb_true_iff in H as [H1 H2].
  apply Nat.leb_le in H1, H2. lia.
Qed.

Lemma digit_val_hex_irrelevant (c : ascii) :
  is_digit c = true -> digit_val false c = digit_val true c.
Proof. intro H. unfold digit_val. now rewrite H. Qed.

Lemma digits_digits_all (s : string) :
  all_chars is_digit s = true ->
  forall a, digits false s (Some a) = digits_all 10 s a.
Proof.
  induction s as [|c s IH]; cbn [all_chars digits digits_all]; [reflexivity|].
  intros H a. apply andb_true_iff in H as [Hc Hs].
  rewrite (digit_val_hex_irrelevant c Hc).
  destruct (digit_val_digit true c Hc) as [d [Hd Hr]]. rewrite Hd.
  replace (d <? 10) with true by (symmetry; apply Z.ltb_lt; lia).
  apply (IH Hs).
Qed.

Lemma digits_literal (s : string) :
  all_chars is_digit s = true -> s <> "" ->
  digits false s None = literal 10 s.
Proof.
  destruct s as [|c s]; [contradiction|]. intros H _.
  cbn [all_chars] in H. apply andb_true_iff in H as [Hc Hs].
  cbn [digits literal digits_all].
  rewrite (digit_val_hex_irrelevant c Hc).
  destruct (digit_val_digit true c Hc) as [d [Hd Hr]]. rewrite Hd.
  replace (d <? 10) with true by (symmetry; apply Z.ltb_lt; lia).
  rewrite (digits_digits_all s Hs). reflexivity.
Qed.

Lemma parseInt_unsigned_digits (s : string) :
  all_chars is_digit s = true ->
  parseInt_unsigned s = digits false s None.
Proof.
  intro H. destruct s as [|a [|x s]]; [reflexivity | |].
  { destruct a as [[] [] [] [] [] [] [] []]; reflexivity. }
  cbn [all_chars] in H.
  apply andb_true_iff in H as [_ H]. apply andb_true_iff in H as [Hx _].
  unfold parseInt_unsigned.
  assert (Hnx : (Ascii.eqb x "x" || Ascii.eqb x "X")%bool = false).
  { destruct x as [[] [] [] [] [] [] [] []]; try discriminate Hx; reflexivity. }
  rewrite Hnx.
  destruct a as [[] [] [] [] [] [] [] []]; reflexivity.
Qed.

(** [parseInt] reads back the decimal text of an integer. *)
Lemma parseInt_string_of_Z (z : Z) : parseInt (string_of_Z z) = to_number z.
Proof.
  unfold string_of_Z. destruct z as [|p|p]; [reflexivity | |];
    cbn [Z.to_int NilEmpty.string_of_int];
    pose proof (string_of_uint_digits (Pos.to_uint p)) as Hd;
    pose proof (string_of_uint_nonempty _ (DecimalPos.Unsigned.to_uint_nonnil p)) as Hne;
    pose proof (literal_of_pos p) as Hl;
    unfold parseInt.
  - rewrite (trimStart_nonspace _ (digit_is_nonspace _ Hd)).
    destruct (NilEmpty.string_of_uint (Pos.to_uint p)) as [|a s] eqn:E; [contradiction|].
    assert (Hsign : match String a s with
                    | String "-" t' => (true, t')
                    | String "+" t' => (false, t')
                    | _ => (false, String a s)
                    end = (false, String a s)).
    { cbn [all_chars] in Hd. apply andb_true_iff in Hd as [Ha _].
      destruct a as [[] [] [] [] [] [] [] []]; try discriminate Ha; reflexivity. }
    rewrite Hsign.
    rewrite (parseInt_unsigned_digits _ Hd), (digits_literal _ Hd Hne), Hl.
    reflexivity.
  - cbn [trimStart]. change (is_space "-") with false. cbv iota.
    rewrite (parseInt_unsigned_digits _ Hd), (digits_literal _ Hd Hne), Hl.
    reflexivity.
Qed.

Lemma trim_nonspace (s : string) : all_chars nonspace s = true -> trim s = s.
Proof.
  intro H. unfold trim. rewrite (trimStart_nonspace s H).
  destruct s as [|c s]; [reflexivity|].
  apply (trimEnd_app_nonspace "" (String c s)); [discriminate | exact H].
Qed.

Lemma BigInt_digits (s : string) :
  all_chars is_digit s = true -> s <> "" -> BigInt s = literal 10 s.
Proof.
  intros H Hne. unfold BigInt. rewrite (trim_nonspace _ (digit_is_nonspace _ H)).
  destruct s as [|a s]; [contradiction|].
  cbn [all_chars] in H. apply andb_true_iff in H as [Ha Hs].
  destruct s as [|x r].
  - destruct a as [[] [] [] [] [] [] [] []]; try discriminate Ha; reflexivity.
  - cbn [all_chars] in Hs. apply andb_true_iff in Hs as [Hx _].
    assert (H1 : (Ascii.eqb x "x" || Ascii.eqb x "X")%bool = false)
      by (destruct x as [[] [] [] [] [] [] [] []]; try discriminate Hx; reflexivity).
    assert (H2 : (Ascii.eqb x "o" || Ascii.eqb x "O")%bool = false)
      by (destruct x as [[] [] [] [] [] [] [] []]; try discriminate Hx; reflexivity).
    assert (H3 : (Ascii.eqb x "b" || Ascii.eqb x "B")%bool = false)
      by (destruct x as [[] [] [] [] [] [] [] []]; try discriminate Hx; reflexivity).
    destruct a as [[] [] [] [] [] [] [] []]; try discriminate Ha;
      cbv zeta iota beta; try reflexivity.
    now rewrite H1, H2, H3.
Qed.

(** [BigInt] reads back the decimal text of an integer. *)
Lemma BigInt_string_of_Z (z : Z) : BigInt (string_of_Z z) = Some z.
Proof.
  unfold string_of_Z. destruct z as [|p|p]; [reflexivity | |];
    cbn [Z.to_int NilEmpty.string_of_int];
    pose proof (string_of_uint_digits (Pos.to_uint p)) as Hd;
    pose proof (string_of_uint_nonempty _ (DecimalPos.Unsigned.to_uint_nonnil p)) as Hne;
    pose proof (literal_of_pos p) as Hl.
  - now rewrite (BigInt_digits _ Hd Hne).
  - unfold BigInt. rewrite trim_nonspace.
    + cbv zeta iota beta. rewrite Hl. reflexivity.
    + cbn [all_chars]. now rewrite (digit_is_nonspace _ Hd).
Qed.

Lemma string_of_Z_chars (z : Z) : all_chars number_char (string_of_Z z) = true.
Proof.
  assert (Hd : forall d, all_chars number_char (NilEmpty.string_of_uint d) = true).
  { intro d. apply (all_chars_impl is_digit); [|apply string_of_uint_digits].
    intros c H. unfold number_char. now rewrite H. }
  unfold string_of_Z. destruct z as [|p|p]; [reflexivity | apply Hd |].
  cbn [Z.to_int NilEmpty.string_of_int all_chars]. now rewrite Hd.
Qed.

Lemma string_of_Z_nonempty (z : Z) : string_of_Z z <> "".
Proof.
  unfold string_of_Z. destruct z as [|p|p]; [discriminate | | discriminate].
  apply string_of_uint_nonempty, DecimalPos.Unsigned.to_uint_nonnil.
Qed.

(** *** Objects built by assignment *)

Lemma obj_has_absent (k : string) (o : obj) :
  ~ In k (map fst o) -> obj_has k o = false.
Proof.
  induction o as [|[k' v'] o IH]; cbn; [reflexivity|]. intro H.
  destruct (String.eqb_spec k' k) as [E|E]; [exfalso; apply H; now left|].
  apply IH. intro Hin. apply H. now right.
Qed.

Lemma obj_insert_last (k : string) (v : value) (o : obj) :
  (forall k', In k' (map fst o) -> comes_before k k' = false) ->
  obj_insert k v o = o ++ [(k, v)].
Proof.
  induction o as [|[k' v'] o IH]; cbn; [reflexivity|]. intro H.
  rewrite (H k' (or_introl eq_refl)), IH; [reflexivity|].
  intros k'' Hin. apply H. now right.
Qed.

Lemma enumerable_app (l1 : list string) (k : string) (l2 : list string) :
  enumerable (l1 ++ k :: l2) = true ->
  forall k', In k' l1 -> comes_before k k' = false.
Proof.
  induction l1 as [|x l1 IH]; cbn; [contradiction|].
  intros H k' [E|Hin]; apply andb_true_iff in H as [Hx Hrest].
  - subst x. rewrite forallb_forall in Hx.
    apply negb_true_iff, Hx, in_or_app. right. now left.
  - now apply IH.
Qed.

(** Assigning the properties of an object, in the order of their
    enumeration, to an object that holds the earlier ones gives the
    object back. *)
Lemma assign_rebuilds (o : obj) :
  forall done : obj,
    NoDup (map fst (done ++ o)) ->
    enumerable (map fst (done ++ o)) = true ->
    ~ In "__proto__" (map fst o) ->
    fold_left assign o done = done ++ o.
Proof.
  induction o as [|[k v] o IH]; intros done Hnd Hen Hproto; cbn [fold_left].
  - now rewrite app_nil_r.
  - assert (Hstep : assign done (k, v) = done ++ [(k, v)]).
    { unfold assign, obj_set. cbn [fst snd].
      destruct (String.eqb_spec k "__proto__") as [E|_];
        [exfalso; apply Hproto; now left|].
      rewrite map_app in Hnd, Hen. cbn [map fst] in Hnd, Hen.
      rewrite obj_has_absent.
      - apply obj_insert_last. intros k' Hin. now apply (enumerable_app _ _ _ Hen).
      - apply NoDup_remove_2 in Hnd. intro Hin. apply Hnd, in_or_app. now left. }
    rewrite Hstep.
    assert (E : (done ++ [(k, v)]) ++ o = done ++ (k, v) :: o)
      by now rewrite <- app_assoc.
    rewrite <- E in Hnd, Hen. rewrite (IH _ Hnd Hen); [exact E|].
    intro Hin. apply Hproto. now right.
Qed.

(** *** Texts of a line *)

Lemma token_isnt (c : ascii) (s : string) :
  token_char c = false -> isToken s -> all_chars (isnt c) s = true.
Proof.
  intros Hc. apply all_chars_impl. intros a Ha. unfold isnt.
  apply negb_true_iff. destruct (Ascii.eqb_spec a c) as [E|E]; [|reflexivity].
  subst a. rewrite Ha in Hc. discriminate.
Qed.

Lemma token_nonspace (s : string) : isToken s -> all_chars nonspace s = true.
Proof.
  apply all_chars_impl. intros a Ha. unfold nonspace, token_char in *.
  destruct (is_space a); [discriminate | reflexivity].
Qed.

Lemma token_app (a b : string) : isToken a -> isToken b -> isToken (a ++ b).
Proof. unfold isToken. intros Ha Hb. now rewrite all_chars_app, Ha, Hb. Qed.

Lemma number_is_token (z : Z) : isToken (string_of_Z z).
Proof.
  apply (all_chars_impl number_char); [|apply string_of_Z_chars].
  intros c H. unfold number_char in H. apply orb_true_iff in H as [H|H].
  - unfold token_char. rewrite (digit_not_space c H).
    destruct c as [[] [] [] [] [] [] [] []]; try discriminate H; reflexivity.
  - apply Ascii.eqb_eq in H. subst c. reflexivity.
Qed.

Lemma length_append (a b : string) :
  String.length (a ++ b) = (String.length a + String.length b)%nat.
Proof. induction a as [|c a IH]; cbn; [reflexivity | now rewrite IH]. Qed.

Lemma take_append (a b : string) : take (String.length a) (a ++ b) = a.
Proof. induction a as [|c a IH]; cbn; [now destruct b | now rewrite IH]. Qed.

Lemma rev_string_snoc (a : string) (c : ascii) :
  rev_string (a ++ String c "") "" = String c (rev_string a "").
Proof. now rewrite rev_string_app. Qed.

Lemma endsWith_snoc (c x : ascii) (a : string) :
  endsWith (String c "") (a ++ String x "") = Ascii.eqb c x.
Proof.
  unfold endsWith. rewrite rev_string_snoc. cbn.
  destruct (ascii_dec c x) as [E|E].
  - subst. rewrite Ascii.eqb_refl. now destruct (rev_string a "").
  - symmetry. now apply Ascii.eqb_neq.
Qed.

Lemma slice_body (c x : ascii) (a : string) :
  slice 1 1 (String c (a ++ String x "")) = a.
Proof.
  unfold slice. cbn [drop String.length]. rewrite length_append. cbn [String.length].
  replace (S (String.length a + 1) - 1 - 1)%nat with (String.length a) by lia.
  apply take_append.
Qed.

Lemma slice_front (x : ascii) (a : string) :
  slice 0 1 (a ++ String x "") = a.
Proof.
  unfold slice. rewrite length_append. cbn [String.length].
  replace (String.length a + 1 - 1 - 0)%nat with (String.length a) by lia.
  assert (E : drop 0 (a ++ String x "") = (a ++ String x "")%string)
    by now destruct (a ++ String x "")%string.
  rewrite E. apply take_append.
Qed.

Lemma startsWith_head (c : ascii) (s : string) :
  startsWith (String c "") (String c s) = true.
Proof.
  unfold startsWith. cbn [String.prefix].
  destruct (ascii_dec c c) as [_|N]; [now destruct s | now contradiction N].
Qed.

Lemma round53_exact (n : Z) : Z.abs n < 2 ^ 53 -> round53 n = n.
Proof.
  intro H. unfold round53. apply Z.ltb_lt in H. cbv zeta. now rewrite H.
Qed.

Lemma to_number_exact (n : Z) : Z.abs n < 2 ^ 53 -> to_number n = Integer n.
Proof.
  intro H. unfold to_number. cbv zeta. rewrite (round53_exact n H).
  assert (Hpow : 2 ^ 53 < 2 ^ 1024) by (apply Z.pow_lt_mono_r; lia).
  replace (Z.abs n <? 2 ^ 1024) with true; [reflexivity|].
  symmetry. apply Z.ltb_lt. lia.
Qed.

Section Lines.
Context (rt : Runtime) (parseFloat : string -> value).
Hypothesis string_of_string : forall s, to_string rt (VString s) = s.
Hypothesis string_of_number :
  forall n, Z.abs n < 2 ^ 53 -> to_string rt (VNumber n) = string_of_Z n.

Lemma fieldString_rawText (kv : string * value) :
  isFieldValue (snd kv) ->
  fieldString rt kv = (fst kv ++ String "=" (rawText (snd kv)))%string.
Proof.
  destruct kv as [k v]. unfold fieldString. cbn [fst snd].
  destruct v; cbn [isFieldValue rawText]; try contradiction; intro H;
    try reflexivity.
  now rewrite (string_of_number _ H).
Qed.

Lemma rawText_token (v : value) : isFieldValue v -> isToken (rawText v).
Proof.
  destruct v; cbn [isFieldValue rawText]; try contradiction; intro H.
  - now destruct b.
  - apply token_app; [apply number_is_token | reflexivity].
  - unfold isToken. cbn [all_chars]. change (token_char (ascii_of_nat 34)) with true.
    cbn [andb]. apply token_app; [exact H | reflexivity].
Qed.

(** [fieldValue] reads back what [format] wrote for a value. *)
Lemma fieldValue_rawText (v : value) :
  isFieldValue v -> fieldValue parseFloat (rawText v) = v.
Proof.
  destruct v; cbn [isFieldValue rawText]; try contradiction; intro H.
  - now destruct b.
  - unfold fieldValue. rewrite (endsWith_snoc "i" "i"). cbn [Ascii.eqb Bool.eqb].
    cbv iota. rewrite slice_front, parseInt_string_of_Z, (to_number_exact _ H).
    reflexivity.
  - unfold fieldValue, quote.
    change (String (ascii_of_nat 34) (s ++ String (ascii_of_nat 34) ""))
      with (String (ascii_of_nat 34) s ++ String (ascii_of_nat 34) "")%string.
    rewrite !endsWith_snoc.
    change (Ascii.eqb "i" (ascii_of_nat 34)) with false.
    change (Ascii.eqb (ascii_of_nat 34) (ascii_of_nat 34)) with true.
    cbv iota.
    change (String (ascii_of_nat 34) s ++ String (ascii_of_nat 34) "")%string
      with (String (ascii_of_nat 34) (s ++ String (ascii_of_nat 34) "")).
    rewrite slice_body.
    assert (Hs : startsWith (String (ascii_of_nat 34) "")
                            (String (ascii_of_nat 34) (s ++ String (ascii_of_nat 34) ""))
                 = true).
    { apply startsWith_head. }
    rewrite Hs. reflexivity.
Qed.

Lemma setTag_tagString (acc : obj) (kv : string * value) :
  isToken (fst kv) -> isTagValue (snd kv) ->
  setTag acc (tagString rt kv) = assign acc kv.
Proof.
  destruct kv as [k v]. cbn [fst snd]. intros Hk Hv.
  destruct v; cbn [isTagValue] in Hv; try contradiction.
  unfold setTag, tagString, assign. cbn [fst snd]. rewrite string_of_string.
  change (k ++ "=" ++ s)%string with (k ++ String "=" s)%string.
  rewrite split_on_app by now apply token_isnt.
  rewrite split_on_free by now apply token_isnt.
  reflexivity.
Qed.

Lemma setField_fieldString (acc : obj) (kv : string * value) :
  isToken (fst kv) -> isFieldValue (snd kv) ->
  setField parseFloat (Ok acc) (fieldString rt kv) = Ok (assign acc kv).
Proof.
  intros Hk Hv. rewrite (fieldString_rawText kv Hv). unfold setField, assign.
  rewrite split_on_app by now apply token_isnt.
  rewrite split_on_free by (apply token_isnt; [reflexivity | now apply rawText_token]).
  now rewrite (fieldValue_rawText _ Hv).
Qed.

Lemma tags_fold (tags : obj) :
  Forall isToken (map fst tags) -> Forall (fun kv => isTagValue (snd kv)) tags ->
  forall acc, fold_left setTag (map (tagString rt) tags) acc = fold_left assign tags acc.
Proof.
  induction tags as [|kv tags IH]; intros Hk Hv acc; cbn [map fold_left]; [reflexivity|].
  cbn [map] in Hk. inversion Hk; subst. inversion Hv; subst.
  rewrite setTag_tagString by assumption. now apply IH.
Qed.

Lemma fields_fold (fields : obj) :
  Forall isToken (map fst fields) -> Forall (fun kv => isFieldValue (snd kv)) fields ->
  forall acc,
    fold_left (setField parseFloat) (map (fieldString rt) fields) (Ok acc)
    = Ok (fold_left assign fields acc).
Proof.
  induction fields as [|kv fields IH]; intros Hk Hv acc; cbn [map fold_left]; [reflexivity|].
  cbn [map] in Hk. inversion Hk; subst. inversion Hv; subst.
  rewrite setField_fieldString by assumption. now apply IH.
Qed.

Lemma tagStrings_pairs (tags : obj) :
  Forall isToken (map fst tags) -> Forall (fun kv => isTagValue (snd kv)) tags ->
  Forall isPair (map (tagString rt) tags).
Proof.
  induction tags as [|[k v] tags IH]; intros Hk Hv; cbn [map]; constructor;
    cbn [map fst] in Hk; inversion Hk; subst; inversion Hv; subst.
  - cbn [snd] in *. destruct v; cbn [isTagValue] in *; try contradiction.
    exists k, s. unfold tagString. cbn [fst snd]. now rewrite string_of_string.
  - now apply IH.
Qed.

Lemma fieldStrings_pairs (fields : obj) :
  Forall isToken (map fst fields) -> Forall (fun kv => isFieldValue (snd kv)) fields ->
  Forall isPair (map (fieldString rt) fields).
Proof.
  induction fields as [|[k v] fields IH]; intros Hk Hv; cbn [map]; constructor;
    cbn [map fst] in Hk; inversion Hk; subst; inversion Hv; subst.
  - exists k, (rawText v). split; [now apply (fieldString_rawText (k, v))|].
    split; [assumption | now apply rawText_token].
  - now apply IH.
Qed.

Lemma pair_chars (q : ascii -> bool) (s : string) :
  (forall c, token_char c = true -> q c = true) -> q "="%char = true ->
  isPair s -> all_chars q s = true.
Proof.
  intros Hq Heq (k & raw & -> & Hk & Hraw).
  rewrite all_chars_app. cbn [all_chars].
  now rewrite (all_chars_impl _ _ _ Hq Hk), (all_chars_impl _ _ _ Hq Hraw), Heq.
Qed.

Lemma join_chars (q : ascii -> bool) (c : ascii) (parts : list string) :
  q c = true -> Forall (fun s => all_chars q s = true) parts ->
  all_chars q (join (String c "") parts) = true.
Proof.
  intros Hc. induction parts as [|p parts IH]; intro H; [reflexivity|].
  inversion H as [|? ? Hp Hrest]; subst. destruct parts as [|p' parts]; [exact Hp|].
  change (join (String c "") (p :: p' :: parts))
    with (p ++ String c (join (String c "") (p' :: parts)))%string.
  rewrite all_chars_app. cbn [all_chars]. now rewrite Hp, Hc, (IH Hrest).
Qed.

Lemma pairs_chars (q : ascii -> bool) (parts : list string) :
  (forall c, token_char c = true -> q c = true) -> q "="%char = true ->
  Forall isPair parts -> Forall (fun s => all_chars q s = true) parts.
Proof.
  intros Hq Heq. apply Forall_impl. intros s Hs. now apply pair_chars.
Qed.

Lemma token_char_isnt (c : ascii) :
  token_char c = false -> forall a, token_char a = true -> isnt c a = true.
Proof.
  intros Hc a Ha. unfold isnt. apply negb_true_iff.
  destruct (Ascii.eqb_spec a c) as [E|E]; [|reflexivity].
  subst a. rewrite Ha in Hc. discriminate.
Qed.

Lemma token_char_nonspace (a : ascii) : token_char a = true -> nonspace a = true.
Proof.
  unfold nonspace, token_char. destruct (is_space a); [discriminate | reflexivity].
Qed.

Lemma formatPoint_shape (p : point) :
  formatPoint rt p
  = (headText rt (p_measurement p) (p_tags p)
     ++ String " " (join "," (map (fieldString rt) (p_fields p))
                    ++ String " " (string_of_Z (p_timestamp p))))%string.
Proof.
  destruct p as [m tags fields ts]. unfold formatPoint, format, headText.
  cbn [p_measurement p_tags p_fields p_timestamp].
  destruct tags as [|t tags]; rewrite string_app_assoc; reflexivity.
Qed.

Lemma bounded_trim (s : string) : bounded s -> trim s = s.
Proof.
  intros [(c & r & E & Hc) (a & b & E' & Hne & Hb)]. unfold trim.
  assert (Hs : trimStart s = s) by (subst s; cbn [trimStart]; now rewrite Hc).
  rewrite Hs, E'. now apply trimEnd_app_nonspace.
Qed.

Section OnePoint.
Context (m : string) (tags fields : obj) (ts : Z).
Hypothesis Hp : isWritable (mkPoint m tags fields ts).

Lemma line_shape :
  formatPoint rt (mkPoint m tags fields ts)
  = (headText rt m tags
     ++ String " " (join "," (map (fieldString rt) fields)
                    ++ String " " (string_of_Z ts)))%string.
Proof. apply formatPoint_shape. Qed.

Lemma head_chars (q : ascii -> bool) :
  (forall c, token_char c = true -> q c = true) ->
  q "="%char = true -> q ","%char = true ->
  all_chars q (headText rt m tags) = true.
Proof.
  intros Hq Heq Hcomma.
  destruct Hp as (Hm & _ & _ & (_ & _ & _ & Hk) & Hv & _).
  cbn [p_measurement p_tags] in Hm, Hk, Hv.
  pose proof (all_chars_impl _ _ _ Hq Hm) as Hqm.
  unfold headText. destruct tags as [|t tags'] eqn:E; [exact Hqm|].
  rewrite all_chars_app. cbn [all_chars]. rewrite Hqm, Hcomma.
  rewrite join_chars; [reflexivity | exact Hcomma |].
  apply pairs_chars; [assumption .. |]. now apply tagStrings_pairs.
Qed.

Lemma fields_chars (q : ascii -> bool) :
  (forall c, token_char c = true -> q c = true) ->
  q "="%char = true -> q ","%char = true ->
  all_chars q (join "," (map (fieldString rt) fields)) = true.
Proof.
  intros Hq Heq Hcomma.
  destruct Hp as (_ & _ & _ & _ & _ & (_ & _ & _ & Hk) & _ & Hv).
  cbn [p_fields] in Hk, Hv.
  apply join_chars; [exact Hcomma|].
  apply pairs_chars; [assumption .. |]. now apply fieldStrings_pairs.
Qed.

Lemma line_chars (q : ascii -> bool) :
  (forall c, token_char c = true -> q c = true) ->
  q "="%char = true -> q ","%char = true -> q " "%char = true ->
  all_chars q (formatPoint rt (mkPoint m tags fields ts)) = true.
Proof.
  intros Hq Heq Hcomma Hsp. rewrite line_shape.
  rewrite all_chars_app. cbn [all_chars]. rewrite all_chars_app. cbn [all_chars].
  rewrite (head_chars q), (fields_chars q), Hsp by assumption.
  now rewrite (all_chars_impl _ _ _ Hq (number_is_token _)).
Qed.

Lemma line_starts :
  exists c r, formatPoint rt (mkPoint m tags fields ts) = String c r
              /\ is_space c = false.
Proof.
  destruct Hp as (Hm & Hne & _). cbn [p_measurement] in Hm, Hne.
  rewrite line_shape. unfold headText.
  destruct m as [|c m']; [contradiction|].
  unfold isToken in Hm. cbn [all_chars] in Hm.
  apply andb_true_iff in Hm as [Hc _]. apply token_char_nonspace in Hc.
  unfold nonspace in Hc. apply negb_true_iff in Hc.
  destruct tags; cbn [String.append]; eexists _, _;
    (split; [reflexivity | exact Hc]).
Qed.

Lemma line_ends :
  exists a b, formatPoint rt (mkPoint m tags fields ts) = (a ++ b)%string
              /\ b <> "" /\ all_chars nonspace b = true.
Proof.
  exists (headText rt m tags
          ++ String " " (join "," (map (fieldString rt) fields) ++ " "))%string,
    (string_of_Z ts).
  split; [|split].
  - rewrite line_shape, (string_app_assoc (headText _ _ _)).
    cbn [String.append]. now rewrite (string_app_assoc (join _ _)).
  - apply string_of_Z_nonempty.
  - apply token_nonspace, number_is_token.
Qed.

Lemma line_bounded_parts : bounded (formatPoint rt (mkPoint m tags fields ts)).
Proof. split; [apply line_starts | apply line_ends]. Qed.

Lemma line_split :
  split_on " " (formatPoint rt (mkPoint m tags fields ts))
  = [headText rt m tags; join "," (map (fieldString rt) fields); string_of_Z ts].
Proof.
  rewrite line_shape.
  rewrite split_on_app
    by (apply head_chars; [now apply token_char_isnt | reflexivity ..]).
  rewrite split_on_app
    by (apply fields_chars; [now apply token_char_isnt | reflexivity ..]).
  rewrite split_on_free by (apply token_isnt; [reflexivity | apply number_is_token]).
  reflexivity.
Qed.

Lemma head_split :
  split_on "," (headText rt m tags) = m :: map (tagString rt) tags.
Proof.
  destruct Hp as (Hm & _ & _ & (_ & _ & _ & Hk) & Hv & _).
  cbn [p_measurement p_tags] in Hm, Hk, Hv.
  unfold headText. destruct tags as [|t tags'] eqn:E.
  - apply split_on_free. now apply token_isnt.
  - rewrite split_on_app by now apply token_isnt.
    rewrite split_on_join; [reflexivity | discriminate |].
    apply pairs_chars; [now apply token_char_isnt | reflexivity |].
    now apply tagStrings_pairs.
Qed.

Lemma fields_split :
  split_on "," (join "," (map (fieldString rt) fields)) = map (fieldString rt) fields.
Proof.
  destruct Hp as (_ & _ & _ & _ & _ & (_ & _ & _ & Hk) & Hne & Hv).
  cbn [p_fields] in Hk, Hv, Hne.
  apply split_on_join.
  - destruct fields; [contradiction | discriminate].
  - apply pairs_chars; [now apply token_char_isnt | reflexivity |].
    now apply fieldStrings_pairs.
Qed.

(** [parseLine] reads back the point that [format] wrote. *)
Lemma parseLine_formatted :
  parseLine rt parseFloat (formatPoint rt (mkPoint m tags fields ts))
  = Ok (mkPoint m tags fields ts).
Proof.
  unfold parseLine.
  rewrite (bounded_trim _ line_bounded_parts), line_split, head_split, fields_split.
  cbn [hd tl].
  destruct Hp as (_ & _ & _ & (Htnd & Hten & Htp & Htk) & Htv
                  & (Hfnd & Hfen & Hfp & Hfk) & _ & Hfv).
  cbn [p_tags p_fields] in *.
  rewrite (tags_fold tags Htk Htv), (assign_rebuilds tags [] Htnd Hten Htp).
  rewrite (fields_fold fields Hfk Hfv), (assign_rebuilds fields [] Hfnd Hfen Hfp).
  rewrite BigInt_string_of_Z. reflexivity.
Qed.

Lemma line_kept : skipped (formatPoint rt (mkPoint m tags fields ts)) = false.
Proof.
  unfold skipped. rewrite (bounded_trim _ line_bounded_parts), line_shape.
  destruct Hp as (_ & Hne & Hhash & _). cbn [p_measurement] in Hne, Hhash.
  unfold headText. destruct m as [|c m']; [contradiction|].
  unfold startsWith in *. cbn [String.prefix] in Hhash.
  destruct tags; cbn [String.append is_empty orb String.prefix];
    destruct (ascii_dec "#" c); try reflexivity;
    destruct m'; discriminate Hhash.
Qed.

End OnePoint.

Lemma parseLine_formatPoint (p : point) :
  isWritable p -> parseLine rt parseFloat (formatPoint rt p) = Ok p.
Proof. destruct p as [m tags fields ts]. apply parseLine_formatted. Qed.

Lemma line_not_skipped (p : point) :
  isWritable p -> skipped (formatPoint rt p) = false.
Proof. destruct p as [m tags fields ts]. apply line_kept. Qed.

Lemma line_bounded (p : point) : isWritable p -> bounded (formatPoint rt p).
Proof. destruct p as [m tags fields ts]. apply line_bounded_parts. Qed.

Lemma line_all_chars (p : point) (q : ascii -> bool) :
  isWritable p ->
  (forall c, token_char c = true -> q c = true) ->
  q "="%char = true -> q ","%char = true -> q " "%char = true ->
  all_chars q (formatPoint rt p) = true.
Proof.
  destruct p as [m tags fields ts]. intro Hp. exact (line_chars m tags fields ts Hp q).
Qed.

Lemma bounded_join (sep : string) (lines : list string) :
  lines <> [] -> Forall bounded lines -> bounded (join sep lines).
Proof.
  induction lines as [|l lines IH]; [contradiction|]. intros _ H.
  inversion H as [|? ? Hl Hrest]; subst. destruct lines as [|l' lines]; [exact Hl|].
  change (join sep (l :: l' :: lines)) with (l ++ sep ++ join sep (l' :: lines))%string.
  assert (Hcons : l' :: lines <> []) by discriminate.
  destruct (IH Hcons Hrest) as [_ (a & b & E & Hne & Hb)].
  destruct Hl as [(c & r & El & Hc) _]. split.
  - exists c, (r ++ sep ++ join sep (l' :: lines))%string. subst l. now split.
  - exists (l ++ sep ++ a)%string, b. rewrite E, !string_app_assoc. now split.
Qed.

Lemma parseStep_formatPoint (acc : list point) (p : point) :
  isWritable p ->
  parseStep rt parseFloat acc (formatPoint rt p) = acc ++ [p].
Proof.
  intro Hp. unfold parseStep.
  now rewrite (line_not_skipped p Hp), (parseLine_formatPoint p Hp).
Qed.

Lemma parse_lines (points : list point) :
  Forall isWritable points ->
  forall acc,
    fold_left (parseStep rt parseFloat) (map (formatPoint rt) points) acc
    = acc ++ points.
Proof.
  induction points as [|p points IH]; intros H acc; cbn [map fold_left].
  - now rewrite app_nil_r.
  - inversion H; subst. rewrite parseStep_formatPoint by assumption.
    rewrite IH by assumption. now rewrite <- app_assoc.
Qed.

End Lines.

(** X19.  Round trip of the line protocol: when every point of a batch
    has a non-empty measurement that does not start with [#], keys and
    texts without white space, comma or equals sign, at least one
    field, and field values that are strings, booleans or integers exact
    as doubles, [parse] reads back, in order, the points whose lines
    [format] wrote, one line per point. *)
Theorem parse_format_round_trip
        (rt : Runtime) (parseFloat : string -> value) (points : list point) :
  (forall s, to_string rt (VString s) = s) ->
  (forall n, Z.abs n < 2 ^ 53 -> to_string rt (VNumber n) = string_of_Z n) ->
  Forall isWritable points ->
  parse rt parseFloat (join (String newline "") (map (formatPoint rt) points))
  = points.
Proof.
  intros Hs Hn Hall. unfold parse.
  destruct points as [|p points]; [reflexivity|].
  assert (Hlines : Forall bounded (map (formatPoint rt) (p :: points))).
  { apply Forall_map. revert Hall. apply Forall_impl. intro q.
    now apply line_bounded. }
  assert (Hne : map (formatPoint rt) (p :: points) <> []) by discriminate.
  rewrite (bounded_trim _ (bounded_join (String newline "") _ Hne Hlines)).
  rewrite split_on_join.
  - now apply (parse_lines rt parseFloat Hs Hn (p :: points) Hall []).
  - discriminate.
  - apply Forall_map. revert Hall. apply Forall_impl. intros q Hq.
    apply (line_all_chars rt Hs Hn q (isnt newline) Hq).
    + apply token_char_isnt. reflexivity.
    + reflexivity.
    + reflexivity.
    + reflexivity.
Qed.

Lemma parse_format_round_trip_witness :
  parse Demo.rt_lines Demo.parseFloat
        (join (String newline "") (map (formatPoint Demo.rt_lines) Demo.batch))
  = Demo.batch.
Proof.
  apply (parse_format_round_trip Demo.rt_lines Demo.parseFloat Demo.batch).
  - intro s. reflexivity.
  - intros n _. reflexivity.
  - repeat constructor; cbn; try lia; try discriminate; intuition discriminate.
Defined.

(** *** Lines that are rejected *)

Lemma trim_trailing_space (head : string) :
  all_chars nonspace head = true -> trim (head ++ " ") = head.
Proof.
  intro H. destruct head as [|c head]; [reflexivity|].
  unfold trim.
  rewrite (trimStart_app_nonspace (String c head) " " ltac:(discriminate) H).
  unfold trimEnd. rewrite rev_string_snoc. cbn [trimStart].
  change (is_space " ") with true. cbv iota.
  rewrite trimStart_nonspace by (now rewrite all_chars_rev, H).
  apply rev_string_involutive.
Qed.

Lemma trim_leading_spaces (T : string) :
  all_chars nonspace T = true -> trim (String " " (String " " T)) = T.
Proof.
  intro H. unfold trim. cbn [trimStart]. change (is_space " ") with true. cbv iota.
  rewrite (trimStart_nonspace T H).
  destruct T as [|c T]; [reflexivity|].
  apply (trimEnd_app_nonspace "" (String c T)); [discriminate | exact H].
Qed.

Lemma nonspace_isnt_space (s : string) :
  all_chars nonspace s = true -> all_chars (isnt " ") s = true.
Proof.
  apply all_chars_impl. intros c H. unfold nonspace in H. unfold isnt.
  destruct (Ascii.eqb_spec c " ") as [E|E]; [subst c; discriminate H | reflexivity].
Qed.

(** A line whose second part is empty, or that has one part only, is
    rejected. *)
Lemma parseLine_no_fields (rt : Runtime) (parseFloat : string -> value)
      (head : string) (T : option string) :
  all_chars nonspace head = true ->
  match T with Some t => all_chars nonspace t = true /\ t <> "" | None => True end ->
  exists msg,
    parseLine rt parseFloat
              (match T with
               | Some t => (head ++ " " ++ "") ++ " " ++ t
               | None => head ++ " " ++ ""
               end)%string
    = Throw msg.
Proof.
  intros Hh HT. unfold parseLine. destruct T as [t|].
  - destruct HT as [Ht Hne].
    change ((head ++ " " ++ "") ++ " " ++ t)%string
      with ((head ++ String " " "") ++ String " " t)%string.
    rewrite string_app_assoc. cbn [String.append].
    destruct head as [|c head].
    + cbn [String.append]. rewrite (trim_leading_spaces t Ht).
      rewrite (split_on_free " " t (nonspace_isnt_space t Ht)). eexists. reflexivity.
    + assert (Htrim : trim (String c head ++ String " " (String " " t))
                      = (String c head ++ String " " (String " " t))%string).
      { unfold trim. rewrite trimStart_app_nonspace by (discriminate || assumption).
        replace (String c head ++ String " " (String " " t))%string
          with ((String c head ++ String " " (String " " "")) ++ t)%string
          by (now rewrite string_app_assoc).
        now apply trimEnd_app_nonspace. }
      rewrite Htrim.
      rewrite (split_on_app " " (String c head) _ (nonspace_isnt_space _ Hh)).
      change (split_on " " (String " " t)) with ("" :: split_on " " t).
      cbn [fold_left split_on setField]. eexists. reflexivity.
  - change (head ++ " " ++ "")%string with (head ++ " ")%string.
    rewrite (trim_trailing_space head Hh).
    rewrite (split_on_free " " head (nonspace_isnt_space head Hh)).
    eexists. reflexivity.
Qed.

(** X20.  [format] accepts a point without fields, but the line it
    writes is one that [parseLine] rejects, with or without a
    timestamp: such a point cannot be written and read back. *)
Theorem format_without_fields_is_rejected
        (rt : Runtime) (parseFloat : string -> value)
        (m : string) (tags : obj) (timestamp : option Z) :
  (forall s, to_string rt (VString s) = s) ->
  isToken m ->
  Forall isToken (map fst tags) ->
  Forall (fun kv => isTagValue (snd kv)) tags ->
  exists msg,
    parseLine rt parseFloat (format rt m (Some tags) [] timestamp) = Throw msg.
Proof.
  intros Hs Hm Hk Hv. unfold format. cbn [map join].
  set (head := match tags with
               | _ :: _ => (m ++ "," ++ join "," (map (tagString rt) tags))%string
               | [] => m
               end).
  assert (Hhead : all_chars nonspace head = true).
  { subst head. destruct tags as [|t tags'] eqn:E; [now apply token_nonspace|].
    rewrite all_chars_app. cbn [String.append all_chars].
    rewrite (token_nonspace m Hm). cbn [andb nonspace]. change (negb (is_space ",")) with true.
    cbn [andb]. apply join_chars; [reflexivity|].
    apply pairs_chars; [exact token_char_nonspace | reflexivity |].
    now apply tagStrings_pairs. }
  destruct timestamp as [t|].
  - apply (parseLine_no_fields rt parseFloat head (Some (string_of_Z t)) Hhead).
    split; [apply token_nonspace, number_is_token | apply string_of_Z_nonempty].
  - exact (parseLine_no_fields rt parseFloat head None Hhead I).
Qed.

Lemma format_without_fields_is_rejected_witness :
  exists msg,
    parseLine Demo.rt_lines Demo.parseFloat
              (format Demo.rt_lines "cpu" (Some [("host", VString "a")]) [] (Some 5))
    = Throw msg.
Proof.
  apply (format_without_fields_is_rejected
           Demo.rt_lines Demo.parseFloat "cpu" [("host", VString "a")] (Some 5)).
  - intro s. reflexivity.
  - reflexivity.
  - repeat constructor.
  - repeat constructor.
Defined.

(** *** What a parsed point holds *)

Lemma split_on_parts (q : ascii -> bool) (c : ascii) (s : string) :
  all_chars q s = true ->
  Forall (fun part => all_chars q part = true) (split_on c s).
Proof.
  induction s as [|a s IH]; cbn [split_on all_chars]; [now repeat constructor|].
  intro H. apply andb_true_iff in H as [Ha Hs]. specialize (IH Hs).
  destruct (Ascii.eqb a c); [now constructor|].
  destruct (split_on c s) as [|h t]; [repeat constructor; cbn; now rewrite Ha|].
  inversion IH; subst. constructor; [cbn; now rewrite Ha | assumption].
Qed.

Lemma split_on_separates (c : ascii) (s : string) :
  Forall (fun part => all_chars (isnt c) part = true) (split_on c s).
Proof.
  induction s as [|a s IH]; cbn [split_on]; [now repeat constructor|].
  destruct (Ascii.eqb a c) eqn:E; [now constructor|].
  destruct (split_on c s) as [|h t]; [repeat constructor; cbn; unfold isnt; now rewrite E|].
  inversion IH; subst. constructor; [|assumption].
  cbn [all_chars]. unfold isnt at 1. now rewrite E.
Qed.

Lemma parseLine_measurement (rt : Runtime) (parseFloat : string -> value)
      (line : string) (p : point) :
  parseLine rt parseFloat line = Ok p ->
  all_chars (isnt " ") (p_measurement p) = true
  /\ all_chars (isnt ",") (p_measurement p) = true.
Proof.
  unfold parseLine. pose proof (split_on_separates " " (trim line)) as Hparts.
  destruct (split_on " " (trim line)) as [|mt [|fp rest]]; try discriminate.
  inversion Hparts as [|? ? Hmt _]; subst.
  pose proof (split_on_separates "," mt) as Hc.
  pose proof (split_on_parts (isnt " ") "," mt Hmt) as Hs.
  pose proof (split_on_nonempty "," mt) as Hne.
  destruct (split_on "," mt) as [|m tagsParts]; [contradiction|].
  inversion Hc; subst. inversion Hs; subst. cbn [hd].
  destruct (fold_left (setField parseFloat) (split_on "," fp) (Ok []));
    [|discriminate].
  destruct rest as [|ts rest'].
  - intro E. injection E as <-. cbn [p_measurement]. now split.
  - destruct (BigInt ts); [|discriminate].
    intro E. injection E as <-. cbn [p_measurement]. now split.
Qed.

(** X21.  Whatever the data, no point that [parse] returns has a space
    or a comma in its measurement, the name under which [insert] creates
    its directories. *)
Theorem parsed_measurement_has_no_separator
        (rt : Runtime) (parseFloat : string -> value) (data : string) :
  Forall (fun p => all_chars (isnt " ") (p_measurement p) = true
                   /\ all_chars (isnt ",") (p_measurement p) = true)
         (parse rt parseFloat data).
Proof.
  unfold parse.
  apply (fold_left_invariant
           (fun points => Forall (fun p => all_chars (isnt " ") (p_measurement p) = true
                                          /\ all_chars (isnt ",") (p_measurement p) = true)
                                 points)); [|constructor].
  intros line _ points Hpoints. unfold parseStep.
  - 
    destruct (skipped line); [exact Hpoints|].
    destruct (parseLine rt parseFloat line) as [p|msg] eqn:E; [|exact Hpoints].
    apply Forall_app. split; [exact Hpoints|].
    constructor; [|constructor]. exact (parseLine_measurement rt parseFloat line p E).
Qed.

(** ** insert *)

Section Grouping.
Import Insert.





End Grouping.



(** Three points of two measurements: two directories, the first for
    [cpu] and the second for [mem]. *)
Example insert_two_measurements :
  Insert.insert Demo.rt_lines Demo.parseFloat
                (fun i : nat => ("2025-04-10"%string, 14 + Z.of_nat i))
                (fun _ => None) "mydb"
                ("cpu a=1i 1" ++ String newline "mem b=2i 2"
                   ++ String newline "cpu a=3i 3")%string
  = Ok (Insert.mkInserted true "Inserted 3 points"
          ["./data/mydb/cpu/date=2025-04-10/hour=14"%string;
           "./data/mydb/mem/date=2025-04-10/hour=15"%string]).
Proof. vm_compute. reflexivity. Qed.

(** ** _postProcessResults *)

Section PostProcessing.
Import PostProcess.
Context (toISOString : jsnum -> option string).

Lemma getProp_obj_insert (k k' : string) (v : value) (o : obj) :
  k' <> k -> getProp k (obj_insert k' v o) = getProp k o.
Proof.
  intro Hne. induction o as [|[k1 v1] o IH]; cbn [obj_insert getProp].
  - now rewrite (proj2 (String.eqb_neq k' k) Hne).
  - destruct (comes_before k' k1); cbn [getProp].
    + now rewrite (proj2 (String.eqb_neq k' k) Hne).
    + now rewrite IH.
Qed.

Lemma getProp_obj_replace (k k' : string) (v : value) (o : obj) :
  k' <> k -> getProp k (obj_replace k' v o) = getProp k o.
Proof.
  intro Hne. induction o as [|[k1 v1] o IH]; cbn [obj_replace getProp]; [reflexivity|].
  destruct (String.eqb_spec k1 k') as [E|E]; cbn [getProp].
  - subst k1. now rewrite (proj2 (String.eqb_neq k' k) Hne).
  - now rewrite IH.
Qed.

(** An assignment leaves the other properties as they are. *)
Lemma getProp_obj_set_other (k k' : string) (v : value) (o : obj) :
  k' <> k -> getProp k (obj_set k' v o) = getProp k o.
Proof.
  intro Hne. unfold obj_set. destruct (String.eqb k' "__proto__"); [reflexivity|].
  destruct (obj_has k' o); [now apply getProp_obj_replace | now apply getProp_obj_insert].
Qed.

Lemma getProp_obj_replace_same (k : string) (v : value) (o : obj) :
  obj_has k o = true -> getProp k (obj_replace k v o) = Some v.
Proof.
  induction o as [|[k1 v1] o IH]; cbn [obj_has existsb fst obj_replace getProp];
    [discriminate|].
  destruct (String.eqb_spec k1 k) as [E|E]; cbn [orb getProp].
  - intros _. subst. now rewrite String.eqb_refl.
  - intro H. rewrite (proj2 (String.eqb_neq k1 k) E). now apply IH.
Qed.

Lemma getProp_obj_insert_same (k : string) (v : value) (o : obj) :
  obj_has k o = false -> getProp k (obj_insert k v o) = Some v.
Proof.
  induction o as [|[k1 v1] o IH]; cbn [obj_has existsb fst obj_insert getProp].
  - intros _. now rewrite String.eqb_refl.
  - intro H. apply orb_false_iff in H as [H1 H2].
    destruct (comes_before k k1); cbn [getProp].
    + now rewrite String.eqb_refl.
    + rewrite H1. now apply IH.
Qed.

(** An assignment is read back. *)
Lemma getProp_obj_set_same (k : string) (v : value) (o : obj) :
  k <> "__proto__" -> getProp k (obj_set k v o) = Some v.
Proof.
  intro Hne. unfold obj_set. rewrite (proj2 (String.eqb_neq _ _) Hne).
  destruct (obj_has k o) eqn:E;
    [now apply getProp_obj_replace_same | now apply getProp_obj_insert_same].
Qed.

Lemma addIso_other (source target k : string) (r : row) :
  target <> k -> getProp k (addIso toISOString source target r) = getProp k r.
Proof.
  intro Hne. unfold addIso.
  destruct (getProp source r) as [[]|]; try reflexivity.
  destruct (z =? 0); [reflexivity|].
  destruct (isoOfNanos toISOString z); [|reflexivity].
  now apply getProp_obj_set_other.
Qed.

Lemma postProcessRow_other (k : string) (r : row) :
  ~ In k isoColumns ->
  getProp k (postProcessRow toISOString r) = getProp k r.
Proof.
  intro Hk. unfold isoColumns in Hk. cbn [In] in Hk.
  unfold postProcessRow, addTimestampIso.
  assert (H1 : "timestamp_iso" <> k) by tauto.
  assert (H2 : "time_iso" <> k) by tauto.
  assert (H3 : "__timestamp_iso" <> k) by tauto.
  destruct (getProp "timestamp" r) as [[]|];
    try (rewrite !addIso_other by assumption; reflexivity).
  destruct (toISOString ms); [|reflexivity].
  rewrite !addIso_other by assumption. now apply getProp_obj_set_other.
Qed.

End PostProcessing.

(** X23.  [_postProcessResults] returns as many rows as it is given,
    and in every row each column other than [timestamp_iso],
    [time_iso] and [__timestamp_iso] reads as in the row it came from:
    no column of the engine is changed or removed. *)
Theorem postProcess_keeps_columns
        (toISOString : jsnum -> option string) (results : list row) :
  List.length (PostProcess._postProcessResults toISOString results)
  = List.length results
  /\ forall i k,
       ~ In k isoColumns ->
       getProp k (nth i (PostProcess._postProcessResults toISOString results) [])
       = getProp k (nth i results []).
Proof.
  unfold PostProcess._postProcessResults. split; [apply length_map|].
  intros i k Hk.
  destruct (Nat.lt_ge_cases i (List.length results)) as [Hi|Hi].
  - rewrite (nth_indep _ [] (PostProcess.postProcessRow toISOString []))
      by now rewrite length_map.
    rewrite map_nth. now apply postProcessRow_other.
  - rewrite !nth_overflow; [reflexivity | assumption | now rewrite length_map].
Qed.

Lemma postProcess_keeps_columns_witness :
  List.length (PostProcess._postProcessResults
                 (fun _ => Some "2025-04-10T14:00:00.000Z")
                 [[("time", VBigInt 1744293600000000000); ("temperature", VNumber 21)]])
  = 1%nat
  /\ getProp "temperature"
             (nth 0 (PostProcess._postProcessResults
                       (fun _ => Some "2025-04-10T14:00:00.000Z")
                       [[("time", VBigInt 1744293600000000000);
                         ("temperature", VNumber 21)]]) [])
     = Some (VNumber 21).
Proof.
  pose proof (postProcess_keeps_columns
                (fun _ => Some "2025-04-10T14:00:00.000Z")
                [[("time", VBigInt 1744293600000000000); ("temperature", VNumber 21)]])
    as [Hlen Hcols].
  split; [exact Hlen|].
  apply (Hcols 0%nat "temperature"). cbn. intuition discriminate.
Defined.

(** X24.  In a row whose [timestamp], if it is a [Date], is a valid one,
    a [time] column holding a BigInt gets its ISO text in [time_iso]
    when the conversion succeeds - unless the BigInt is [0n], the epoch
    itself, for which [time_iso] is left as it was. *)
Theorem postProcess_time_iso
        (toISOString : jsnum -> option string) (r : row) (z : Z) :
  (forall ms, getProp "timestamp" r = Some (VDate ms) -> toISOString ms <> None) ->
  getProp "time" r = Some (VBigInt z) ->
  getProp "time_iso" (PostProcess.postProcessRow toISOString r)
  = if z =? 0 then getProp "time_iso" r
    else match PostProcess.isoOfNanos toISOString z with
         | Some iso => Some (VString iso)
         | None => getProp "time_iso" r
         end.
Proof.
  intros Hvalid Htime. unfold PostProcess.postProcessRow, PostProcess.addTimestampIso.
  assert (Hnew : exists newRow,
             match getProp "timestamp" r with
             | Some (VDate ms) =>
                 match toISOString ms with
                 | Some iso => Ok (obj_set "timestamp_iso" (VString iso) r)
                 | None => Throw "Invalid Date"
                 end
             | _ => Ok r
             end = Ok newRow
             /\ getProp "time" newRow = Some (VBigInt z)
             /\ getProp "time_iso" newRow = getProp "time_iso" r).
  { destruct (getProp "timestamp" r) as [[]|] eqn:E; try (exists r; now repeat split).
    specialize (Hvalid ms eq_refl).
    destruct (toISOString ms) as [iso|]; [|contradiction].
    eexists. split; [reflexivity|].
    rewrite !getProp_obj_set_other by discriminate. now split. }
  destruct Hnew as (newRow & -> & Ht & Hiso).
  rewrite addIso_other by discriminate.
  unfold PostProcess.addIso at 1. rewrite Ht.
  destruct (z =? 0); [exact Hiso|].
  destruct (PostProcess.isoOfNanos toISOString z); [|exact Hiso].
  now apply getProp_obj_set_same.
Qed.

Lemma postProcess_time_iso_witness :
  getProp "time_iso"
          (PostProcess.postProcessRow
             (fun _ => Some "1970-01-01T00:00:00.000Z")
             [("time", VBigInt 0); ("temperature", VNumber 21)])
  = None.
Proof.
  apply (postProcess_time_iso
           (fun _ => Some "1970-01-01T00:00:00.000Z")
           [("time", VBigInt 0); ("temperature", VNumber 21)] 0).
  - intros ms H. discriminate H.
  - reflexivity.
Defined.

(** ** The normalisation of white space in parseQuery *)

(** The characters that a greedy repetition takes, pushed on what came
    before. *)
Lemma rep_greedy_total {R : Type} (p : ascii -> bool) (k : cont R) (s : string) :
  (forall s' pre' c', k s' pre' c' <> None) ->
  forall n pre c,
    (n <= runlen p s)%nat ->
    exists pre',
      rep_greedy R p k n s pre c = k (drop (runlen p s) s) pre' c
      /\ List.length pre' = (runlen p s + List.length pre)%nat.
Proof.
  intro Hk. induction s as [|a s IH]; intros n pre c Hn; cbn [runlen] in *.
  - assert (n = 0%nat) by lia. subst n. exists pre. split; reflexivity.
  - cbn [rep_greedy]. destruct (p a) eqn:Hp.
    + destruct (IH (Nat.pred n) (a :: pre) c ltac:(lia)) as (pre' & E & Hlen).
      exists pre'. rewrite E. cbn [drop]. split.
      * destruct (k (drop (runlen p s) s) pre' c) eqn:Ek; [reflexivity|].
        now apply Hk in Ek.
      * rewrite Hlen. cbn [List.length]. lia.
    + assert (n = 0%nat) by lia. subst n. exists pre. split; reflexivity.
Qed.

Lemma rep_greedy_short {R : Type} (p : ascii -> bool) (k : cont R) (s : string) :
  forall n pre c, (runlen p s < n)%nat -> rep_greedy R p k n s pre c = None.
Proof.
  induction s as [|a s IH]; intros n pre c Hn; cbn [runlen] in Hn; cbn [rep_greedy].
  - destruct n; [lia | reflexivity].
  - destruct (p a).
    + rewrite IH by lia. destruct n; [lia | reflexivity].
    + destruct n; [lia | reflexivity].
Qed.

Lemma length_string_of_rev (l : list ascii) :
  String.length (string_of_rev l) = List.length l.
Proof.
  unfold string_of_rev.
  enough (H : forall acc, String.length (fold_left (fun acc c => String c acc) l acc)
                          = (List.length l + String.length acc)%nat)
    by (rewrite H; cbn; lia).
  induction l as [|a l IH]; intro acc; cbn [fold_left List.length]; [reflexivity|].
  rewrite IH. cbn [String.length]. lia.
Qed.

(** [\s+] at a position: the whole run of white space there, if any. *)
Lemma match_here_ws1 (s : string) (pre : list ascii) :
  match match_here false ws1 s pre with
  | Some m => String.length (m_text m) = runlen is_space s /\ (1 <= runlen is_space s)%nat
  | None => runlen is_space s = 0%nat
  end.
Proof.
  unfold match_here, ws1. cbn [run].
  destruct (Nat.le_gt_cases 1 (runlen is_space s)) as [H|H].
  - destruct (rep_greedy_total
                is_space
                (fun (_ : string) (pre' : list ascii) (c : caps) =>
                   Some (mkMatch (List.length pre)
                                 (string_of_rev
                                    (firstn (List.length pre' - List.length pre) pre'))
                                 c))
                s ltac:(discriminate) 1%nat pre [] H) as (pre' & -> & Hlen).
    cbn [m_text]. split; [|exact H].
    rewrite length_string_of_rev, length_firstn, Hlen. lia.
  - rewrite rep_greedy_short by lia. lia.
Qed.

Lemma replace_ws1 (s : string) :
  forall pre,
    replace_go false ws1 (fun _ => " "%string) s pre (runlen is_space s) = collapse true s
    /\ replace_go false ws1 (fun _ => " "%string) s pre 0 = collapse false s.
Proof.
  induction s as [|a s IH]; intro pre; [split; reflexivity|].
  pose proof (match_here_ws1 (String a s) pre) as Hm.
  cbn [runlen collapse] in *. destruct (is_space a) eqn:Ha.
  - split.
    + cbn [replace_go]. apply IH.
    + cbn [replace_go].
      destruct (match_here false ws1 (String a s) pre) as [m|]; [|discriminate].
      destruct Hm as [-> _]. cbn [String.append]. f_equal. apply IH.
  - split; cbn [replace_go];
      (destruct (match_here false ws1 (String a s) pre) as [m|];
       [destruct Hm; lia | f_equal; apply IH]).
Qed.

Lemma collapse_collapsed (s : string) :
  forall b, collapsed b (collapse b s) = true.
Proof.
  induction s as [|a s IH]; intro b; cbn [collapse]; [reflexivity|].
  destruct (is_space a) eqn:Ha.
  - destruct b; [apply IH|]. cbn [collapsed]. change (is_space " ") with true.
    cbn. apply IH.
  - cbn [collapsed]. rewrite Ha. apply IH.
Qed.

Lemma collapsed_fixed (t : string) :
  forall b, collapsed b t = true -> collapse b t = t.
Proof.
  induction t as [|a t IH]; intro b; cbn [collapsed collapse]; [reflexivity|].
  destruct (is_space a).
  - intro H. apply andb_true_iff in H as [H Ht]. apply andb_true_iff in H as [Ea Hb].
    apply Ascii.eqb_eq in Ea. apply negb_true_iff in Hb. subst a b.
    now rewrite (IH true Ht).
  - intro H. now rewrite (IH false H).
Qed.

Lemma collapsed_weaken (t : string) (b : bool) :
  collapsed b t = true -> collapsed false t = true.
Proof.
  destruct t as [|a t]; cbn [collapsed]; [reflexivity|].
  destruct (is_space a); [|exact (fun H => H)].
  intro H. apply andb_true_iff in H as [H Ht]. apply andb_true_iff in H as [Ea _].
  now rewrite Ea, Ht.
Qed.

Lemma collapsed_trimStart (t : string) :
  forall b, collapsed b t = true -> collapsed false (trimStart t) = true.
Proof.
  induction t as [|a t IH]; intro b; cbn [collapsed trimStart]; [reflexivity|].
  destruct (is_space a) eqn:Ha.
  - intro H. apply andb_true_iff in H as [_ Ht]. now apply (IH true).
  - intro H. cbn [collapsed]. now rewrite Ha.
Qed.

Lemma collapsed_prefix (x w : string) :
  forall b, collapsed b (x ++ w) = true -> collapsed b x = true.
Proof.
  induction x as [|a x IH]; intro b; cbn [String.append collapsed]; [reflexivity|].
  destruct (is_space a).
  - intro H. apply andb_true_iff in H as [H Ht]. rewrite H. now apply IH.
  - apply IH.
Qed.

Lemma trimStart_splits (u : string) :
  exists w, u = (w ++ trimStart u)%string.
Proof.
  induction u as [|a u [w E]]; [now exists ""|]. cbn [trimStart].
  destruct (is_space a).
  - exists (String a w). cbn. now rewrite <- E.
  - now exists "".
Qed.

Lemma trimEnd_splits (t : string) :
  exists w, t = (trimEnd t ++ w)%string.
Proof.
  destruct (trimStart_splits (rev_string t "")) as [w E].
  exists (rev_string w ""). unfold trimEnd.
  rewrite <- (rev_string_involutive t) at 1. rewrite E at 1.
  now rewrite rev_string_app, rev_string_acc.
Qed.

Lemma trimStart_idempotent (s : string) : trimStart (trimStart s) = trimStart s.
Proof.
  induction s as [|a s IH]; [reflexivity|]. cbn [trimStart].
  destruct (is_space a) eqn:Ha; [exact IH|]. cbn [trimStart]. now rewrite Ha.
Qed.

Lemma trim_idempotent (s : string) : trim (trim s) = trim s.
Proof.
  unfold trim. set (u := trimStart s).
  assert (Hstart : trimStart (trimEnd u) = trimEnd u).
  { destruct (trimEnd_splits u) as [w E].
    destruct (trimEnd u) as [|c r] eqn:Ey; [reflexivity|].
    assert (Hu : trimStart u = u) by apply trimStart_idempotent.
    rewrite E in Hu. cbn [String.append trimStart] in Hu. cbn [trimStart].
    destruct (is_space c) eqn:Hc; [|reflexivity].
    exfalso. destruct (trimStart_splits (r ++ w)) as [w' E'].
    rewrite Hu in E'. apply (f_equal String.length) in E'.
    rewrite (length_append w') in E'. cbn [String.length] in E'. lia. }
  rewrite Hstart. unfold trimEnd at 1. unfold trimEnd.
  now rewrite rev_string_involutive, trimStart_idempotent.
Qed.

Lemma normalizeWhitespace_collapse (sql : string) :
  normalizeWhitespace sql = trim (collapse false sql).
Proof.
  unfold normalizeWhitespace, replace_all. now rewrite (proj2 (replace_ws1 sql [])).
Qed.

Lemma normalizeWhitespace_collapsed (sql : string) :
  collapsed false (normalizeWhitespace sql) = true.
Proof.
  rewrite normalizeWhitespace_collapse. unfold trim.
  destruct (trimEnd_splits (trimStart (collapse false sql))) as [w E].
  apply (collapsed_prefix _ w). rewrite <- E.
  apply (collapsed_trimStart _ false), collapse_collapsed.
Qed.

Lemma normalizeWhitespace_idempotent (sql : string) :
  normalizeWhitespace (normalizeWhitespace sql) = normalizeWhitespace sql.
Proof.
  rewrite (normalizeWhitespace_collapse (normalizeWhitespace sql)).
  rewrite (collapsed_fixed _ false (normalizeWhitespace_collapsed sql)).
  rewrite normalizeWhitespace_collapse. apply trim_idempotent.
Qed.

(** X26.  What [parseQuery] works on has single spaces for white space
    and none at either end, and the layout of a statement does not
    matter: a statement and its normalised text give the same
    descriptor, or the same error. *)
Theorem parseQuery_ignores_layout (sql db : string) :
  collapsed false (normalizeWhitespace sql) = true
  /\ trim (normalizeWhitespace sql) = normalizeWhitespace sql
  /\ parseQuery (normalizeWhitespace sql) db = parseQuery sql db.
Proof.
  split; [apply normalizeWhitespace_collapsed|]. split.
  - rewrite normalizeWhitespace_collapse. apply trim_idempotent.
  - unfold parseQuery. now rewrite normalizeWhitespace_idempotent.
Qed.

(** ** The resolved set *)

Section Resolved.
Context (rt : Runtime) (startNs endNs : option jsnum).

Lemma manifestSkipped_pruned (md : manifest) :
  manifestSkipped startNs endNs md = true <-> pruned startNs endNs md.
Proof.
  unfold manifestSkipped, pruned. destruct startNs as [s|], endNs as [e|].
  - rewrite orb_true_iff. split.
    + intro H. now exists s, e.
    + intros (s' & e' & Es & Ee & H). injection Es as <-. injection Ee as <-. exact H.
  - split; [discriminate | intros (s' & e' & _ & E & _); discriminate E].
  - split; [discriminate | intros (s' & e' & E & _); discriminate E].
  - split; [discriminate | intros (s' & e' & E & _); discriminate E].
Qed.

Lemma manifestSkipped_not_pruned (md : manifest) :
  manifestSkipped startNs endNs md = false <-> ~ pruned startNs endNs md.
Proof.
  rewrite <- manifestSkipped_pruned.
  destruct (manifestSkipped startNs endNs md); split; intro H;
    try reflexivity; try discriminate; try (intro; discriminate).
  exfalso. now apply H.
Qed.

Lemma fileSelected_admitted (f : file_entry) :
  fileSelected startNs endNs f = true <-> admitted startNs endNs f.
Proof.
  unfold fileSelected, admitted. destruct startNs as [s|], endNs as [e|].
  - rewrite andb_true_iff. split.
    + intro H. right. right. now exists s, e.
    + intros [E | [E | (s' & e' & Es & Ee & H)]]; try discriminate E.
      injection Es as <-. injection Ee as <-. exact H.
  - split; [intros _; right; now left | reflexivity].
  - split; [intros _; now left | reflexivity].
  - split; [intros _; now left | reflexivity].
Qed.

Lemma existingPath_foundAt (dirPath : string) (f : file_entry) (p : string) :
  existingPath rt dirPath f = Some p <-> foundAt rt dirPath f p.
Proof.
  unfold existingPath, foundAt.
  destruct (existsSync rt (f_path f)) eqn:E1.
  - split.
    + intro H. injection H as <-. left. now split.
    + intros [[_ ->] | [H _]]; [reflexivity | discriminate H].
  - destruct (existsSync rt (path_join rt dirPath (path_basename rt (f_path f)))) eqn:E2.
    + split.
      * intro H. injection H as <-. right. now repeat split.
      * intros [[H _] | (_ & -> & _)]; [discriminate H | reflexivity].
    + split; [discriminate|].
      intros [[H _] | (_ & -> & H)]; [discriminate H | congruence].
Qed.

(** The paths that a manifest that is read gives. *)
Lemma resolveManifest_membership (dirPath : string) (md : manifest)
      (acc : list string) (p : string) :
  In p (resolveManifest rt dirPath md startNs endNs acc)
  <-> In p acc
      \/ (~ pruned startNs endNs md
          /\ exists f, In f (listedFiles md) /\ admitted startNs endNs f
                       /\ foundAt rt dirPath f p).
Proof.
  rewrite resolveManifest_spec.
  destruct (manifestSkipped startNs endNs md) eqn:E.
  - apply manifestSkipped_pruned in E. split; [now left|].
    intros [H | [H _]]; [exact H | contradiction].
  - apply manifestSkipped_not_pruned in E.
    rewrite in_app_iff, in_flat_map. split; (intros [H | H]; [now left | right]).
    + destruct H as (f & Hf & Hp). apply filter_In in Hf as [Hf Hsel].
      split; [exact E|]. exists f. split; [exact Hf|].
      split; [now apply fileSelected_admitted|].
      apply existingPath_foundAt. unfold contribution in Hp.
      destruct (existingPath rt dirPath f) as [q|]; [|contradiction].
      destruct Hp as [-> | []]. reflexivity.
    + destruct H as (_ & f & Hf & Hadm & Hp). exists f. split.
      * apply filter_In. split; [exact Hf | now apply fileSelected_admitted].
      * unfold contribution. apply existingPath_foundAt in Hp. rewrite Hp. now left.
Qed.

Lemma resolveManifest_app (dirPath : string) (md : manifest) (acc : list string) :
  resolveManifest rt dirPath md startNs endNs acc
  = acc ++ resolveManifest rt dirPath md startNs endNs [].
Proof.
  rewrite !resolveManifest_spec. now destruct (manifestSkipped startNs endNs md);
    [rewrite app_nil_r|].
Qed.

Lemma resolvePartition_app (hourPath : string) (hourNode : node) (acc : list string) :
  resolvePartition rt hourPath hourNode startNs endNs acc
  = acc ++ resolvePartition rt hourPath hourNode startNs endNs [].
Proof.
  unfold resolvePartition.
  destruct hourNode as [json|r entries|]; try now rewrite app_nil_r.
  destruct (lookupEntry "metadata.json" entries) as [[[md|]|r' es|]|];
    try now rewrite app_nil_r.
  apply resolveManifest_app.
Qed.

(** What one partition gives: nothing without a manifest that can be
    read, nothing when the manifest is pruned, and else the found paths
    of the listed files that pass the file-level test. *)
Lemma resolvePartition_contribution (hourPath : string) (hourNode : node) :
  match manifestOf hourNode with
  | None => resolvePartition rt hourPath hourNode startNs endNs [] = []
  | Some md =>
      (pruned startNs endNs md ->
       resolvePartition rt hourPath hourNode startNs endNs [] = [])
      /\ (~ pruned startNs endNs md ->
          forall p,
            In p (resolvePartition rt hourPath hourNode startNs endNs [])
            <-> exists f, In f (listedFiles md) /\ admitted startNs endNs f
                          /\ foundAt rt hourPath f p)
  end.
Proof.
  unfold manifestOf, resolvePartition.
  destruct hourNode as [json|r entries|]; try reflexivity.
  destruct (lookupEntry "metadata.json" entries) as [[[md|]|r' es|]|]; try reflexivity.
  split.
  - intro H. apply manifestSkipped_pruned in H. unfold resolveManifest. now rewrite H.
  - intros H p. rewrite resolveManifest_membership. split.
    + intros [[] | [_ Hf]]. exact Hf.
    + intro Hf. right. now split.
Qed.

Lemma partitions_fold (parts : list (string * node)) :
  forall acc,
    fold_left (fun acc h => resolvePartition rt (fst h) (snd h) startNs endNs acc)
              parts acc
    = acc ++ List.concat (map (fun h => resolvePartition rt (fst h) (snd h) startNs endNs [])
                         parts).
Proof.
  induction parts as [|h parts IH]; intro acc; cbn [fold_left map List.concat].
  - now rewrite app_nil_r.
  - rewrite IH, (resolvePartition_app (fst h) (snd h) acc), <- app_assoc. reflexivity.
Qed.

(** The loop over the date directories goes through the partitions that
    the filters select, in order; it throws when a date entry cannot be
    listed, whatever it has found. *)
Lemma resolveDates_partitions (basePath : string) (startDate endDate : date)
      (dates : list (string * node)) :
  forall acc,
    resolveDates rt basePath dates startDate endDate startNs endNs acc
    = match partitionsOf rt basePath dates startDate endDate with
      | Ok parts =>
          Ok (acc ++ List.concat (map (fun h => resolvePartition rt (fst h) (snd h)
                                                            startNs endNs [])
                                 parts))
      | Throw msg => Throw msg
      end.
Proof.
  induction dates as [|[dateDir dateNode] dates IH]; intro acc;
    cbn [resolveDates partitionsOf].
  - now rewrite app_nil_r.
  - destruct (_getHourDirectoriesInRange rt dateDir (Some dateNode) startDate endDate)
      as [hourDirs|msg]; [|reflexivity].
    rewrite IH.
    destruct (partitionsOf rt basePath dates startDate endDate) as [parts|msg];
      [|reflexivity].
    f_equal.
    assert (E : fold_left
                  (fun acc0 h =>
                     resolvePartition rt (path_join rt (path_join rt basePath dateDir) (fst h))
                                      (snd h) startNs endNs acc0)
                  hourDirs acc
                = fold_left
                    (fun acc0 h => resolvePartition rt (fst h) (snd h) startNs endNs acc0)
                    (map (fun h => (path_join rt (path_join rt basePath dateDir) (fst h),
                                    snd h)) hourDirs)
                    acc).
    { clear. revert acc. induction hourDirs as [|h l IHl]; intro acc; cbn; [reflexivity|].
      apply IHl. }
    rewrite E, partitions_fold, map_app, concat_app, app_assoc. reflexivity.
Qed.

(** The Hive resolver returns, partition after partition, what each
    selected partition gives. *)
Lemma hive_partitions (db m : string) (startDate endDate : date) :
  _findFilesByHiveStructure rt db m startDate endDate startNs endNs
  = match partitionsInRange rt db m startDate endDate with
    | Ok parts =>
        Ok (List.concat (map (fun h => resolvePartition rt (fst h) (snd h) startNs endNs [])
                        parts))
    | Throw msg => Throw msg
    end.
Proof.
  unfold _findFilesByHiveStructure, partitionsInRange.
  destruct (_getDateDirectoriesInRange rt db m startDate endDate) as [dates|msg];
    [|reflexivity].
  now rewrite resolveDates_partitions.
Qed.

(** A path is resolved by the Hive resolver exactly when a selected
    partition gives it. *)
Lemma hive_membership (db m : string) (startDate endDate : date)
      (parts : list (string * node)) :
  partitionsInRange rt db m startDate endDate = Ok parts ->
  exists files,
    _findFilesByHiveStructure rt db m startDate endDate startNs endNs = Ok files
    /\ forall p,
         In p files
         <-> exists hourPath hourNode md f,
               In (hourPath, hourNode) parts
               /\ manifestOf hourNode = Some md
               /\ ~ pruned startNs endNs md
               /\ In f (listedFiles md)
               /\ admitted startNs endNs f
               /\ foundAt rt hourPath f p.
Proof.
  intro Hparts. rewrite hive_partitions, Hparts. eexists. split; [reflexivity|].
  intro p. rewrite in_concat. split.
  - intros (l & Hl & Hp). apply in_map_iff in Hl as ([hourPath hourNode] & <- & Hin).
    cbn [fst snd] in Hp.
    pose proof (resolvePartition_contribution hourPath hourNode) as Hc.
    destruct (manifestOf hourNode) as [md|] eqn:Emd.
    + destruct Hc as [Hpr Hnp].
      assert (Hnot : ~ pruned startNs endNs md).
      { intro H. rewrite (Hpr H) in Hp. contradiction. }
      destruct (proj1 (Hnp Hnot p) Hp) as (f & Hf & Ha & Hfound).
      now exists hourPath, hourNode, md, f.
    + rewrite Hc in Hp. contradiction.
  - intros (hourPath & hourNode & md & f & Hin & Emd & Hnot & Hf & Ha & Hfound).
    exists (resolvePartition rt hourPath hourNode startNs endNs []). split.
    + apply in_map_iff. now exists (hourPath, hourNode).
    + pose proof (resolvePartition_contribution hourPath hourNode) as Hc.
      rewrite Emd in Hc. apply (proj2 Hc Hnot). now exists f.
Qed.

End Resolved.

(** ** What the fallback walk collects *)

Section Collected.
Context (rt : Runtime) (startNs endNs : option jsnum).

Lemma pushParquet_membership (dirPath : string) (entries : list (string * node))
      (w : walk) (q : string) :
  In q (filesList (pushParquet rt dirPath entries w))
  <-> In q (filesList w)
      \/ exists name json,
           In (name, File json) entries /\ endsWith ".parquet" name = true
           /\ q = path_join rt dirPath name.
Proof.
  unfold pushParquet. revert w.
  induction entries as [|[name child] entries IH]; intro w; cbn [fold_left].
  - split; [now left | intros [H | (n & j & [] & _)]; exact H].
  - rewrite IH. cbn [fst snd]. split.
    + intros [H | (n & j & Hin & He & Hq)].
      * destruct (isFile child && endsWith ".parquet" name) eqn:E.
        -- cbn [push filesList] in H. apply in_app_iff in H as [H | [<- | []]];
             [now left|].
           apply andb_true_iff in E as [Hf He]. destruct child; try discriminate Hf.
           right. exists name, json. split; [now left | now split].
        -- now left.
      * right. exists n, j. split; [now right | now split].
    + intros [H | (n & j & [Hin | Hin] & He & Hq)].
      * left. destruct (isFile child && endsWith ".parquet" name);
          [cbn [push filesList]; apply in_app_iff; now left | exact H].
      * injection Hin as -> ->. left. cbn [isFile andb]. rewrite He.
        cbn [push filesList]. apply in_app_iff. right. left. now rewrite Hq.
      * right. now exists n, j.
Qed.

Lemma reaches_inv (dirPath : string) (entries : list (string * node))
      (p : string) (es : list (string * node)) :
  reaches rt startNs endNs dirPath (Dir true entries) p es
  <-> (p = dirPath /\ es = entries)
      \/ (~ prunedDirectory startNs endNs entries
          /\ exists name child,
               In (name, child) entries
               /\ reaches rt startNs endNs (path_join rt dirPath name) child p es).
Proof.
  split.
  - intro H. inversion H; subst; [now left|]. right. split; [assumption|].
    now exists name, child.
  - intros [[-> ->] | (Hn & name & child & Hin & Hr)].
    + constructor.
    + now apply (reaches_below rt startNs endNs dirPath entries name child).
Qed.

Lemma reaches_directory (dirPath : string) (n : node) (p : string)
      (es : list (string * node)) :
  reaches rt startNs endNs dirPath n p es -> exists entries, n = Dir true entries.
Proof. intro H. inversion H; subst; now eexists. Qed.

(** A path is in the list after the fallback walk of a directory exactly
    when it was there before or the walk collects it from a directory
    that it reads. *)
Lemma fallback_membership (n : node) :
  forall (level : nat) (dirPath : string) (w : walk) (q : string),
    In q (filesList (_findMetadataFilesRecursively rt level dirPath n startNs endNs w))
    <-> In q (filesList w)
        \/ exists p es,
             reaches rt startNs endNs dirPath n p es
             /\ collectedAt rt startNs endNs p es q.
Proof.
  induction n as [json| |r entries IH] using node_induction; intros level dirPath w q.
  - cbn. split; [now left | intros [H | (p & es & Hr & _)]; [exact H|]].
    apply reaches_directory in Hr as [? Hr]. discriminate Hr.
  - cbn. split; [now left | intros [H | (p & es & Hr & _)]; [exact H|]].
    apply reaches_directory in Hr as [? Hr]. discriminate Hr.
  - destruct r.
    2: { cbn. split; [now left | intros [H | (p & es & Hr & _)]; [exact H|]].
         apply reaches_directory in Hr as [? Hr]. discriminate Hr. }
    cbn [_findMetadataFilesRecursively].
    set (sub := fold_left _ entries).
    set (below := exists name child,
                    In (name, child) entries
                    /\ exists p es,
                         reaches rt startNs endNs (path_join rt dirPath name) child p es
                         /\ collectedAt rt startNs endNs p es q).
    assert (Hsub : forall a,
               In q (filesList (sub a)) <-> In q (filesList a) \/ below).
    { subst sub below. revert IH. generalize entries as l.
      induction l as [|[name child] l IHl]; intros IH a; cbn [fold_left].
      - split; [now left | intros [H | (nm & c & [] & _)]; exact H].
      - inversion IH as [|? ? Hchild Hrest]; subst. cbn [snd] in Hchild.
        rewrite (IHl Hrest).
        assert (Hstep :
                  In q (filesList
                          (if isDirectory child
                           then _findMetadataFilesRecursively
                                  rt (S level) (path_join rt dirPath name) child
                                  startNs endNs a
                           else a))
                  <-> In q (filesList a)
                      \/ exists p es,
                           reaches rt startNs endNs (path_join rt dirPath name) child p es
                           /\ collectedAt rt startNs endNs p es q).
        { destruct (isDirectory child) eqn:Ed; [apply Hchild|].
          split; [now left | intros [H | (p & es & Hr & _)]; [exact H|]].
          apply reaches_directory in Hr as [? ->]. discriminate Ed. }
        rewrite Hstep. split.
        + intros [[H | (p & es & Hr & Hc)] | (nm & c & Hin & H)].
          * now left.
          * right. exists name, child. split; [now left | now exists p, es].
          * right. exists nm, c. split; [now right | exact H].
        + intros [H | (nm & c & [Hin | Hin] & H)].
          * left. now left.
          * injection Hin as -> ->. left. now right.
          * right. now exists nm, c. }
    assert (Hrhs : (exists p es,
                       reaches rt startNs endNs dirPath (Dir true entries) p es
                       /\ collectedAt rt startNs endNs p es q)
                   <-> collectedAt rt startNs endNs dirPath entries q
                       \/ (~ prunedDirectory startNs endNs entries /\ below)).
    { split.
      - intros (p & es & Hr & Hc). apply reaches_inv in Hr
          as [[-> ->] | (Hn & name & child & Hin & Hr)]; [now left|].
        right. split; [exact Hn|]. exists name, child. split; [exact Hin|].
        now exists p, es.
      - intros [Hc | (Hn & name & child & Hin & p & es & Hr & Hc)].
        + exists dirPath, entries. split; [constructor | exact Hc].
        + exists p, es. split; [|exact Hc].
          now apply (reaches_below rt startNs endNs dirPath entries name child). }
    rewrite Hrhs. unfold collectedAt, prunedDirectory.
    destruct (find isMetadataEntry entries) as [[name [[md|]|r' es'|]]|] eqn:Efind.
    + destruct (manifestSkipped startNs endNs md) eqn:Eskip.
      * apply manifestSkipped_pruned in Eskip. cbn [enter filesList]. split; [now left|].
        intros [H | [[Hn _] | [Hn _]]]; [exact H | contradiction |].
        exfalso. apply Hn. now exists name, md.
      * apply manifestSkipped_not_pruned in Eskip.
        assert (Hno : ~ (exists name0 md0,
                            Some (name, File (Some md)) = Some (name0, File (Some md0))
                            /\ pruned startNs endNs md0)).
        { intros (n0 & md0 & E & Hp). injection E as _ <-. contradiction. }
        assert (Hown : forall a : walk,
                   filesList a
                   = filesList w
                     ++ flat_map (contribution rt dirPath)
                                 (filter (fileSelected startNs endNs) (listedFiles md)) ->
                   In q (filesList a)
                   <-> In q (filesList w)
                       \/ exists f, In f (listedFiles md) /\ admitted startNs endNs f
                                    /\ foundAt rt dirPath f q).
        { intros a Ea. rewrite Ea, in_app_iff, in_flat_map.
          split; (intros [H | H]; [now left | right]).
          - destruct H as (f & Hf & Hp). apply filter_In in Hf as [Hf Hsel].
            exists f. split; [exact Hf|]. split; [now apply fileSelected_admitted|].
            apply existingPath_foundAt. unfold contribution in Hp.
            destruct (existingPath rt dirPath f) as [x|]; [|contradiction].
            destruct Hp as [-> | []]. reflexivity.
          - destruct H as (f & Hf & Ha & Hp). exists f. split.
            + apply filter_In. split; [exact Hf | now apply fileSelected_admitted].
            + unfold contribution. apply existingPath_foundAt in Hp. rewrite Hp.
              now left. }
        rewrite Hsub. rewrite Hown.
        -- split.
           ++ intros [[H | H] | H]; [now left | right; left; now split |].
              right. right. now split.
           ++ intros [H | [[_ H] | [_ H]]]; [left; now left | left; now right | now right].
        -- unfold listedFiles. destruct (md_files md) as [files|]; cbn [filesList enter].
           ++ apply pushSelected_spec.
           ++ cbn. now rewrite app_nil_r.
    + rewrite Hsub. cbn [enter filesList]. split.
      * intros [H | H]; [now left|]. right. right. split; [|exact H].
        intros (n0 & md0 & E & _). discriminate E.
      * intros [H | [[] | [_ H]]]; [now left | now right].
    + rewrite Hsub. cbn [enter filesList]. split.
      * intros [H | H]; [now left|]. right. right. split; [|exact H].
        intros (n0 & md0 & E & _). discriminate E.
      * intros [H | [[] | [_ H]]]; [now left | now right].
    + rewrite Hsub. cbn [enter filesList]. split.
      * intros [H | H]; [now left|]. right. right. split; [|exact H].
        intros (n0 & md0 & E & _). discriminate E.
      * intros [H | [[] | [_ H]]]; [now left | now right].
    + rewrite Hsub, pushParquet_membership. cbn [enter filesList]. split.
      * intros [[H | H] | H]; [now left | right; now left |].
        right. right. split; [|exact H]. intros (n0 & md0 & E & _). discriminate E.
      * intros [H | [H | [_ H]]]; [left; now left | left; now right | now right].
Qed.

End Collected.

(** ** The resolved set of a query *)




(** C2, amended.  With a bound present, and the date directories
    listed, the resolved set of [findRelevantFiles] holds exactly
    - the paths at which the files listed in the manifests of the selected
      hour partitions are found, for the manifests that are not pruned and
      the files that pass the file-level test; and,
    - when there is no such path, what the recursive fallback collects
      from the directories it reaches under the measurement: for a manifest
      that is not pruned, again only the found paths of the listed files
      that pass the file-level test.
    A listed file whose own interval lies outside the interval of the query
    is thus left out although its manifest overlaps: the pruning is at the
    level of the file too. *)
Theorem manifest_overlap_file_level_pruning
        (rt : Runtime) (db m : string) (tr : timeRange) (parts : list (string * node))
        (Hbound : isNull (start tr) && isNull (end_ tr) = false)
        (Hparts : partitionsInRange rt db m (date_of_nanos rt (start tr))
                                    (date_of_nanos rt (end_ tr))
                  = Ok parts) :
  let fromPartitions (p : string) : Prop :=
    exists hourPath hourNode md f,
      In (hourPath, hourNode) parts
      /\ manifestOf hourNode = Some md
      /\ ~ pruned (start tr) (end_ tr) md
      /\ In f (listedFiles md)
      /\ admitted (start tr) (end_ tr) f
      /\ foundAt rt hourPath f p in
  let fromFallback (p : string) : Prop :=
    exists root dirPath entries,
      fs_stat rt (basePathOf rt db m) = Some root
      /\ reaches rt (start tr) (end_ tr) (basePathOf rt db m) root dirPath entries
      /\ collectedAt rt (start tr) (end_ tr) dirPath entries p in
  forall p,
    In p (findRelevantFiles rt db m tr)
    <-> fromPartitions p \/ ((forall q, ~ fromPartitions q) /\ fromFallback p).
Proof.
  intros fromPartitions fromFallback p. unfold findRelevantFiles. rewrite Hbound.
  destruct (hive_membership rt (start tr) (end_ tr) db m _ _ parts Hparts)
    as (files & -> & Hfiles).
  destruct files as [|x files].
  - assert (Hnone : forall q, ~ fromPartitions q).
    { intros q Hq. apply Hfiles in Hq. exact Hq. }
    assert (Hfb : In p (filesList (fallbackWalk rt db m (start tr) (end_ tr)))
                  <-> fromFallback p).
    { unfold fallbackWalk, fromFallback.
      destruct (fs_stat rt (basePathOf rt db m)) as [root|].
      - rewrite fallback_membership. cbn [emptyWalk filesList In]. split.
        + intros [[] | (dirPath & entries & Hr & Hc)]. now exists root, dirPath, entries.
        + intros (root' & dirPath & entries & E & Hr & Hc). injection E as <-.
          right. now exists dirPath, entries.
      - cbn. split; [intros [] | intros (root' & _ & _ & E & _); discriminate E]. }
    rewrite Hfb. split.
    + intro H. right. now split.
    + intros [H | [_ H]]; [now apply Hnone in H | exact H].
  - rewrite Hfiles. split.
    + intro H. now left.
    + intros [H | [Hnone _]]; [exact H|].
      exfalso. apply (Hnone x). apply Hfiles. now left.
Qed.

Lemma manifest_overlap_file_level_pruning_witness :
  let tr := mkRange (Some Demo.at_14_00) (Some Demo.at_14_10) None in
  let parts := [("./data/mydb/weather/date=2025-04-10/hour=14", Demo.hour14)] in
  let fromPartitions (p : string) : Prop :=
    exists hourPath hourNode md f,
      In (hourPath, hourNode) parts
      /\ manifestOf hourNode = Some md
      /\ ~ pruned (start tr) (end_ tr) md
      /\ In f (listedFiles md)
      /\ admitted (start tr) (end_ tr) f
      /\ foundAt Demo.rt_weather hourPath f p in
  let fromFallback (p : string) : Prop :=
    exists root dirPath entries,
      fs_stat Demo.rt_weather (basePathOf Demo.rt_weather "mydb" "weather") = Some root
      /\ reaches Demo.rt_weather (start tr) (end_ tr)
                 (basePathOf Demo.rt_weather "mydb" "weather") root dirPath entries
      /\ collectedAt Demo.rt_weather (start tr) (end_ tr) dirPath entries p in
  isNull (start tr) && isNull (end_ tr) = false
  /\ partitionsInRange Demo.rt_weather "mydb" "weather"
                       (date_of_nanos Demo.rt_weather (start tr))
                       (date_of_nanos Demo.rt_weather (end_ tr))
     = Ok parts
  /\ forall p,
       In p (findRelevantFiles Demo.rt_weather "mydb" "weather" tr)
       <-> fromPartitions p \/ ((forall q, ~ fromPartitions q) /\ fromFallback p).
Proof.
  assert (Hparts : partitionsInRange
                     Demo.rt_weather "mydb" "weather"
                     (date_of_nanos Demo.rt_weather (Some Demo.at_14_00))
                     (date_of_nanos Demo.rt_weather (Some Demo.at_14_10))
                   = Ok [("./data/mydb/weather/date=2025-04-10/hour=14", Demo.hour14)])
    by (vm_compute; reflexivity).
  split; [reflexivity|]. split; [exact Hparts|].
  exact (manifest_overlap_file_level_pruning
           Demo.rt_weather "mydb" "weather"
           (mkRange (Some Demo.at_14_00) (Some Demo.at_14_10) None) _ eq_refl Hparts).
Defined.

(** X1.  Every path that the Hive resolver returns exists, and is the
    recorded path of a file listed in the manifest of a selected partition
    or the name of that file in the directory of the partition. *)
Theorem hive_resolves_existing_overlapping
        (rt : Runtime) (db m : string) (startDate endDate : date)
        (startNs endNs : option jsnum) (files : list string)
        (Hfiles : _findFilesByHiveStructure rt db m startDate endDate startNs endNs
                  = Ok files) :
  forall p,
    In p files ->
    existsSync rt p = true
    /\ exists parts hourPath hourNode md f,
         partitionsInRange rt db m startDate endDate = Ok parts
         /\ In (hourPath, hourNode) parts
         /\ manifestOf hourNode = Some md
         /\ In f (listedFiles md)
         /\ (p = f_path f \/ p = path_join rt hourPath (path_basename rt (f_path f))).
Proof.
  intros p Hp. rewrite hive_partitions in Hfiles.
  destruct (partitionsInRange rt db m startDate endDate) as [parts|msg] eqn:Hparts;
    [|discriminate Hfiles].
  destruct (hive_membership rt startNs endNs db m _ _ parts Hparts) as (files' & E & Hin).
  rewrite hive_partitions, Hparts in E. rewrite Hfiles in E. injection E as <-.
  apply Hin in Hp as (hourPath & hourNode & md & f & Hpart & Hmd & _ & Hf & _ & Hfound).
  split.
  - destruct Hfound as [[He ->] | (_ & -> & He)]; exact He.
  - exists parts, hourPath, hourNode, md, f. repeat split; try assumption.
    destruct Hfound as [[_ ->] | (_ & -> & _)]; [now left | now right].
Qed.

Lemma hive_resolves_existing_overlapping_witness :
  _findFilesByHiveStructure Demo.rt_weather "mydb" "weather"
                            (date_of_nanos Demo.rt_weather (Some Demo.at_14_00))
                            (date_of_nanos Demo.rt_weather (Some Demo.at_14_10))
                            (Some Demo.at_14_00) (Some Demo.at_14_10)
  = Ok ["./data/mydb/weather/date=2025-04-10/hour=14/a.parquet"]
  /\ existsSync Demo.rt_weather "./data/mydb/weather/date=2025-04-10/hour=14/a.parquet"
     = true.
Proof.
  assert (H : _findFilesByHiveStructure
                Demo.rt_weather "mydb" "weather"
                (date_of_nanos Demo.rt_weather (Some Demo.at_14_00))
                (date_of_nanos Demo.rt_weather (Some Demo.at_14_10))
                (Some Demo.at_14_00) (Some Demo.at_14_10)
              = Ok ["./data/mydb/weather/date=2025-04-10/hour=14/a.parquet"])
    by (vm_compute; reflexivity).
  split; [exact H|].
  exact (proj1 (hive_resolves_existing_overlapping
                  Demo.rt_weather "mydb" "weather" _ _ _ _ _ H _ (or_introl eq_refl))).
Defined.
(** ** Hour directories, by their names *)

Lemma prefix_app (p s : string) : String.prefix p (p ++ s) = true.
Proof.
  induction p as [|c p IH]; cbn; [now destruct s|].
  destruct (ascii_dec c c) as [_|N]; [exact IH | now contradiction N].
Qed.

Lemma remove_first_prefix (p s : string) : remove_first p (p ++ s)%string = s.
Proof.
  unfold remove_first, indexOf.
  assert (H : indexOf_from p (p ++ s) 0 = Some 0%nat).
  { pose proof (prefix_app p s) as Hp.
    destruct (p ++ s)%string; cbn [indexOf_from]; now rewrite Hp. }
  rewrite H. cbn [take Nat.add append].
  clear H. induction p as [|c p IH]; [now destruct s | exact IH].
Qed.

Lemma digits_all_digits (s : string) :
  forall a h, digits_all 10 s a = Some h -> all_chars is_digit s = true.
Proof.
  induction s as [|c s IH]; intros a h H; cbn [all_chars]; [reflexivity|].
  cbn [digits_all] in H. unfold digit_val in H.
  destruct (is_digit c) eqn:Hc.
  - cbn [andb]. destruct (Z.of_nat (code c - 48) <? 10); [|discriminate H].
    exact (IH _ _ H).
  - exfalso. cbn [andb] in H.
    destruct (between 97 102 c) eqn:E1.
    + unfold between in E1. apply andb_true_iff in E1 as [E1 _]. apply Nat.leb_le in E1.
      replace (Z.of_nat (code c - 87) <? 10) with false in H; [discriminate H|].
      symmetry. apply Z.ltb_ge. lia.
    + destruct (between 65 70 c) eqn:E2; [|discriminate H].
      unfold between in E2. apply andb_true_iff in E2 as [E2 _]. apply Nat.leb_le in E2.
      replace (Z.of_nat (code c - 55) <? 10) with false in H; [discriminate H|].
      symmetry. apply Z.ltb_ge. lia.
Qed.

(** [parseInt] of a text of decimal digits is the number nearest to its
    value. *)
Lemma parseInt_literal (t : string) (h : Z) :
  literal 10 t = Some h -> parseInt t = to_number h.
Proof.
  intro H.
  assert (Hne : t <> ""%string) by (intros ->; discriminate H).
  assert (Hd : all_chars is_digit t = true).
  { destruct t as [|c t]; [contradiction|]. exact (digits_all_digits _ _ _ H). }
  unfold parseInt. rewrite (trimStart_nonspace _ (digit_is_nonspace _ Hd)).
  destruct t as [|a s]; [contradiction|].
  assert (Hsign : match String a s with
                  | String "-" t' => (true, t')
                  | String "+" t' => (false, t')
                  | _ => (false, String a s)
                  end = (false, String a s)).
  { cbn [all_chars] in Hd. apply andb_true_iff in Hd as [Ha _].
    destruct a as [[] [] [] [] [] [] [] []]; try discriminate Ha; reflexivity. }
  rewrite Hsign, (parseInt_unsigned_digits _ Hd), (digits_literal _ Hd Hne), H.
  reflexivity.
Qed.

Lemma digits_all_nonneg (s : string) :
  forall a h, 0 <= a -> digits_all 10 s a = Some h -> 0 <= h.
Proof.
  induction s as [|c s IH]; intros a h Ha H; cbn [digits_all] in H.
  - injection H as <-. exact Ha.
  - destruct (digit_val true c) as [d|] eqn:Ed; [|discriminate H].
    destruct (d <? 10); [|discriminate H].
    assert (Hd : 0 <= d).
    { unfold digit_val in Ed.
      destruct (is_digit c); [injection Ed as <-; lia|]. cbn [andb] in Ed.
      destruct (between 97 102 c); [injection Ed as <-; lia|].
      destruct (between 65 70 c); [injection Ed as <-; lia | discriminate Ed]. }
    assert (Hacc : 0 <= a * 10 + d) by lia.
    exact (IH _ _ Hacc H).
Qed.

(** The hour that the filter reads from the name of an hour directory. *)
Lemma hourOf_named (name : string) (h : Z) :
  hourNamed name h -> h < 2 ^ 53 ->
  startsWith "hour=" name = true /\ hourOf name = Integer h.
Proof.
  intros (t & -> & Ht) Hh. split.
  - apply (prefix_app "hour=" t).
  - unfold hourOf. rewrite (remove_first_prefix "hour=" t), (parseInt_literal _ _ Ht).
    apply to_number_exact.
    assert (0 <= h).
    { unfold literal in Ht. destruct t; [discriminate Ht|].
      exact (digits_all_nonneg _ _ _ (Z.le_refl 0) Ht). }
    lia.
Qed.

Lemma sameDay_onDay (y m d : Z) (c read : calendar) :
  onDay y m d read ->
  (sameDay (Some c) (Some read) = true <-> onDay y m d c).
Proof.
  intros (Hy & Hm & Hd). unfold sameDay, onDay. cbn [getFullYear getMonth getDate strict_eq].
  rewrite !andb_true_iff, !Z.eqb_eq. lia.
Qed.

Lemma sameDay_not_onDay (y m d : Z) (c read : calendar) :
  onDay y m d c -> ~ onDay y m d read -> sameDay (Some c) (Some read) = false.
Proof.
  intros (Hy & Hm & Hd) Hn. unfold sameDay. cbn [getFullYear getMonth getDate strict_eq].
  destruct ((cal_year c =? cal_year read) && (cal_month c =? cal_month read)
            && (cal_day c =? cal_day read)) eqn:E; [|reflexivity].
  exfalso. apply Hn. rewrite !andb_true_iff, !Z.eqb_eq in E. unfold onDay. lia.
Qed.

Section HourNames.
Context (rt : Runtime) (y m d : Z) (allDirs : list (string * node)) (s e read : calendar).
Hypothesis Hread : date_of_string rt (isoDay y m d) = Some read.

Lemma hour_directories_kept :
  _getHourDirectoriesInRange rt ("date=" ++ isoDay y m d) (Some (Dir true allDirs))
                             (Some s) (Some e)
  = Ok (filter (fun x => hourFilter (Some read) (Some s) (Some e) (fst x))
               (filter (fun x => startsWith "hour=" (fst x)) allDirs)).
Proof.
  unfold _getHourDirectoriesInRange.
  now rewrite (remove_first_prefix "date=" (isoDay y m d)), Hread.
Qed.

Lemma hour_directory_kept (name : string) (child : node) (h : Z) :
  hourNamed name h -> h < 2 ^ 53 ->
  In (name, child)
     (filter (fun x => hourFilter (Some read) (Some s) (Some e) (fst x))
             (filter (fun x => startsWith "hour=" (fst x)) allDirs))
  <-> In (name, child) allDirs
      /\ hourFilter (Some read) (Some s) (Some e) name = true.
Proof.
  intros Hn Hh. destruct (hourOf_named name h Hn Hh) as [Hp _].
  rewrite !filter_In. cbn [fst]. rewrite Hp. tauto.
Qed.

End HourNames.

(** C6.  Let a date directory be named for the day [y]-[m]-[d], let
    [read] be the [Date] that the runtime makes of its date string, and
    let [yr]-[mr]-[dr] be the day on which [read] stands in local time.
    The filter goes by that day: of the directories named [hour=h] it
    keeps those with [start.hour <= h <= end.hour] when it is both the
    start day and the end day, those with [h >= start.hour] when it is the
    start day only, those with [h <= end.hour] when it is the end day only,
    and it keeps every [hour=] entry when it is neither.

    Where the runtime reads the date string as the day it names, this is
    what the comments of the filter say.  The date string is read as
    midnight UTC, though, and the day is taken in local time: west of UTC
    that is the day before the named one, and the directory is filtered as
    if it were the directory of that day. *)
Theorem hour_directories_in_range
        (rt : Runtime) (y m d yr mr dr : Z) (allDirs : list (string * node))
        (s e read : calendar)
        (Hread : date_of_string rt (isoDay y m d) = Some read)
        (Hday : onDay yr mr dr read) :
  exists l,
    _getHourDirectoriesInRange rt ("date=" ++ isoDay y m d) (Some (Dir true allDirs))
                               (Some s) (Some e)
    = Ok l
    /\ (forall name child h,
           hourNamed name h -> h < 2 ^ 53 ->
           (onDay yr mr dr s -> onDay yr mr dr e ->
            (In (name, child) l
             <-> In (name, child) allDirs /\ cal_hours s <= h <= cal_hours e))
           /\ (onDay yr mr dr s -> ~ onDay yr mr dr e ->
               (In (name, child) l <-> In (name, child) allDirs /\ cal_hours s <= h))
           /\ (~ onDay yr mr dr s -> onDay yr mr dr e ->
               (In (name, child) l <-> In (name, child) allDirs /\ h <= cal_hours e)))
    /\ (~ onDay yr mr dr s -> ~ onDay yr mr dr e ->
        l = filter (fun x => startsWith "hour=" (fst x)) allDirs).
Proof.
  rewrite (hour_directories_kept rt y m d allDirs s e read Hread).
  eexists. split; [reflexivity|].
  pose proof (sameDay_onDay yr mr dr s read Hday) as Hs.
  pose proof (sameDay_onDay yr mr dr e read Hday) as He.
  assert (Es : ~ onDay yr mr dr s -> sameDay (Some s) (Some read) = false).
  { intro Hno. destruct (sameDay (Some s) (Some read)); [|reflexivity].
    exfalso. apply Hno. now apply Hs. }
  assert (Ee : ~ onDay yr mr dr e -> sameDay (Some e) (Some read) = false).
  { intro Hno. destruct (sameDay (Some e) (Some read)); [|reflexivity].
    exfalso. apply Hno. now apply He. }
  split.
  - intros name child h Hn Hh.
    rewrite (hour_directory_kept allDirs s e read name child h Hn Hh).
    destruct (hourOf_named name h Hn Hh) as [_ Hhour].
    unfold hourFilter. rewrite Hhour. cbn [number_ge number_le getHours].
    split; [|split]; intros Hs' He'.
    + rewrite (proj2 Hs Hs'), (proj2 He He'). cbn [andb].
      rewrite andb_true_iff, !Z.leb_le. tauto.
    + rewrite (proj2 Hs Hs'), (Ee He'). cbn [andb]. rewrite Z.leb_le. tauto.
    + rewrite (Es Hs'), (proj2 He He'). cbn [andb]. rewrite Z.leb_le. tauto.
  - intros Hs' He'. unfold hourFilter. rewrite (Es Hs'), (Ee He'). cbn [andb].
    apply filter_all.
Qed.

(** The range 2025-04-09T14:00 to 2025-04-10T09:00, local time, on the
    directory [date=2025-04-10].  In UTC the directory is read as the
    10th, the end day: [hour=05] is kept as 5 is at most 9.  Five hours
    west of UTC it is read as the 9th, the start day: [hour=05] is kept
    only if 5 is at least 14. *)
Lemma hour_directories_in_range_witness :
  let s := mkCalendar 2025 3 9 14 in
  let e := mkCalendar 2025 3 10 9 in
  let hour05 := ("hour=05"%string, Dir true []) in
  (date_of_string Demo.rt_days (isoDay 2025 4 10) = Some (mkCalendar 2025 3 10 0)
   /\ exists l,
        _getHourDirectoriesInRange Demo.rt_days ("date=" ++ isoDay 2025 4 10)
                                   (Some (Dir true Demo.allHours)) (Some s) (Some e)
        = Ok l
        /\ (In hour05 l <-> In hour05 Demo.allHours /\ 5 <= 9))
  /\ (date_of_string Demo.rt_west (isoDay 2025 4 10) = Some (mkCalendar 2025 3 9 19)
      /\ exists l,
           _getHourDirectoriesInRange Demo.rt_west ("date=" ++ isoDay 2025 4 10)
                                      (Some (Dir true Demo.allHours)) (Some s) (Some e)
           = Ok l
           /\ (In hour05 l <-> In hour05 Demo.allHours /\ 14 <= 5)).
Proof.
  assert (Hutc : date_of_string Demo.rt_days (isoDay 2025 4 10)
                 = Some (mkCalendar 2025 3 10 0)) by (vm_compute; reflexivity).
  assert (Hwest : date_of_string Demo.rt_west (isoDay 2025 4 10)
                  = Some (mkCalendar 2025 3 9 19)) by (vm_compute; reflexivity).
  assert (H9 : forall h, onDay 2025 4 9 (mkCalendar 2025 3 9 h))
    by (intro h; repeat split).
  assert (H10 : forall h, onDay 2025 4 10 (mkCalendar 2025 3 10 h))
    by (intro h; repeat split).
  assert (N9 : forall h, ~ onDay 2025 4 9 (mkCalendar 2025 3 10 h))
    by (intros h (_ & _ & H); discriminate H).
  assert (N10 : forall h, ~ onDay 2025 4 10 (mkCalendar 2025 3 9 h))
    by (intros h (_ & _ & H); discriminate H).
  assert (Hname : hourNamed "hour=05" 5) by (exists "05"%string; split; reflexivity).
  assert (Hlt : 5 < 2 ^ 53) by reflexivity.
  split.
  - split; [exact Hutc|].
    destruct (hour_directories_in_range
                Demo.rt_days 2025 4 10 2025 4 10 Demo.allHours
                (mkCalendar 2025 3 9 14) (mkCalendar 2025 3 10 9)
                (mkCalendar 2025 3 10 0) Hutc (H10 0))
      as (l & Hl & Hnames & _).
    exists l. split; [exact Hl|].
    exact (proj2 (proj2 (Hnames "hour=05"%string (Dir true []) 5 Hname Hlt))
                 (N10 14) (H10 9)).
  - split; [exact Hwest|].
    destruct (hour_directories_in_range
                Demo.rt_west 2025 4 10 2025 4 9 Demo.allHours
                (mkCalendar 2025 3 9 14) (mkCalendar 2025 3 10 9)
                (mkCalendar 2025 3 9 19) Hwest (H9 19))
      as (l & Hl & Hnames & _).
    exists l. split; [exact Hl|].
    exact (proj1 (proj2 (Hnames "hour=05"%string (Dir true []) 5 Hname Hlt))
                 (H9 14) (N9 9)).
Defined.

(** The names of the partitions that the filters select, date directory
    and hour directory. *)
Example selected_partitions_example :
  let names (rt : Runtime) (startNs endNs : jsnum) :=
    match _getDateDirectoriesInRange rt "mydb" "days"
                                     (date_of_nanos rt (Some startNs))
                                     (date_of_nanos rt (Some endNs)) with
    | Ok dates =>
        map (fun dir =>
               (fst dir,
                match _getHourDirectoriesInRange rt (fst dir) (Some (snd dir))
                                                 (date_of_nanos rt (Some startNs))
                                                 (date_of_nanos rt (Some endNs)) with
                | Ok hours => map fst hours
                | Throw _ => []
                end))
            dates
    | Throw _ => []
    end in
  let hours (from count : nat) :=
    map (fun n => ("hour=" ++ Demo.two_digits n)%string) (List.seq from count) in
  (date_of_nanos Demo.rt_days (Some Demo.utc_start) = Some (mkCalendar 2025 3 9 14)
   /\ date_of_nanos Demo.rt_days (Some Demo.utc_end) = Some (mkCalendar 2025 3 10 9)
   /\ names Demo.rt_days Demo.utc_start Demo.utc_end
      = [("date=2025-04-09"%string, hours 14%nat 10%nat);
         ("date=2025-04-10"%string, hours 0%nat 10%nat)])
  /\ (date_of_nanos Demo.rt_west (Some Demo.west_start) = Some (mkCalendar 2025 3 9 14)
      /\ date_of_nanos Demo.rt_west (Some Demo.west_end) = Some (mkCalendar 2025 3 10 9)
      /\ names Demo.rt_west Demo.west_start Demo.west_end
         = [("date=2025-04-10"%string, hours 14%nat 10%nat);
            ("date=2025-04-11"%string, hours 0%nat 10%nat)]).
Proof. vm_compute. repeat split. Qed.

(** ** The later parseQuery and the time range *)

(** C10 as stated fails on a statement without a FROM clause: there
    [parseQuery] throws and returns no descriptor. *)
Lemma parseQuery_returns_no_descriptor_without_from :
  ~ (forall sql db : string,
        exists parsed,
          parseQuery sql db = Ok parsed /\ range parsed = mkRange None None None).
Proof.
  intro H. destruct (H "SELECT 1"%string "mydb"%string) as (parsed & E & _).
  vm_compute in E. discriminate E.
Qed.

(** C10, amended.  The later [parseQuery] throws when, and only when,
    the statement, its white space normalised, holds no FROM clause, and
    [query] then throws the same error without a statement for the
    engine.  Otherwise it
    returns a descriptor of which the time range is null throughout,
    whatever the statement says about time; the files of [query] are then
    those of the all-files scan: without such a file it returns no row and
    hands nothing to the engine, and with such files the statement that it
    hands to the engine is the one built over them. *)
Theorem parseQuery_time_range_null (rt : Runtime) (sql db : string) :
  (exec true fromPattern (normalizeWhitespace sql) = None
   /\ parseQuery sql db = Throw "Invalid query: FROM clause not found or invalid"
   /\ query rt true sql db
      = mkOutcome (Throw "Invalid query: FROM clause not found or invalid") [])
  \/ (exists fm parsed,
         exec true fromPattern (normalizeWhitespace sql) = Some fm
         /\ parseQuery sql db = Ok parsed
         /\ range parsed = mkRange None None None
         /\ findRelevantFiles rt (dbName parsed) (measurement parsed) (range parsed)
            = _findAllFiles rt (dbName parsed) (measurement parsed)
         /\ (_findAllFiles rt (dbName parsed) (measurement parsed) = [] ->
             query rt true sql db = mkOutcome (Ok []) [])
         /\ (forall statement,
                _findAllFiles rt (dbName parsed) (measurement parsed) <> [] ->
                duckdbQuery rt sql parsed
                            (_findAllFiles rt (dbName parsed) (measurement parsed))
                = Ok statement ->
                engineCalls (query rt true sql db) = [statement])).
Proof.
  destruct (parseQuery sql db) as [parsed|msg] eqn:Hp.
  - right.
    assert (Hfm : exists fm, exec true fromPattern (normalizeWhitespace sql) = Some fm).
    { unfold parseQuery in Hp.
      destruct (exec true fromPattern (normalizeWhitespace sql)) as [fm|];
        [now exists fm | discriminate]. }
    destruct Hfm as [fm Hfm]. exists fm, parsed.
    assert (Hr : range parsed = mkRange None None None).
    { unfold parseQuery in Hp.
      destruct (exec true fromPattern (normalizeWhitespace sql)); [|discriminate].
      injection Hp as <-. reflexivity. }
    assert (Hf : findRelevantFiles rt (dbName parsed) (measurement parsed) (range parsed)
                 = _findAllFiles rt (dbName parsed) (measurement parsed)).
    { rewrite Hr. reflexivity. }
    split; [exact Hfm|]. split; [reflexivity|]. split; [exact Hr|]. split; [exact Hf|].
    unfold query. cbn [negb]. rewrite Hp, Hf. split.
    + intros ->. reflexivity.
    + intros statement Hne Hs.
      destruct (_findAllFiles rt (dbName parsed) (measurement parsed)) as [|f files];
        [contradiction|].
      rewrite Hs. now destruct (engine rt statement).
  - left. unfold query. cbn [negb]. rewrite Hp. unfold parseQuery in Hp.
    destruct (exec true fromPattern (normalizeWhitespace sql)); [discriminate|].
    injection Hp as <-. repeat split; reflexivity.
Qed.

(** ** The statement for the engine *)

Lemma suffix_step (pre mid q x : string) (b : bool) :
  (exists after, q = (pre ++ mid ++ after)%string) ->
  exists after, (if b then (q ++ x)%string else q) = (pre ++ mid ++ after)%string.
Proof.
  intros [a H]. destruct b; [|now exists a].
  exists (a ++ x)%string. now rewrite H, !string_app_assoc.
Qed.

Lemma Ok_injective {A : Type} (a b : A) : Ok a = Ok b -> a = b.
Proof. congruence. Qed.

(** X16.  The statement that [query] builds holds the relation over the
    resolved files, every file in it, in order and between single quotes.
    Building it fails only on the table pattern, and not when the names of
    the database and of the measurement are made of word characters. *)
Theorem duckdbQuery_reads_resolved_files
        (rt : Runtime) (sql : string) (parsed : descriptor) (files : list string) :
  let relation :=
    ("FROM read_parquet(["
       ++ String.concat ", " (map (fun f => "'" ++ f ++ "'") files)
       ++ "], union_by_name = true)")%string in
  (forall statement,
      duckdbQuery rt sql parsed files = Ok statement ->
      exists before after, statement = (before ++ relation ++ after)%string)
  /\ (forall msg,
         duckdbQuery rt sql parsed files = Throw msg ->
         isWordText (dbName parsed) && isWordText (measurement parsed) = false
         /\ exists part0 part1 rest,
              split true fromSplit sql = part0 :: part1 :: rest
              /\ regexp_remove rt (tableSource parsed) part1 = Throw msg).
Proof.
  cbv zeta. change ("FROM read_parquet(["
                      ++ String.concat ", " (map (fun f => "'" ++ f ++ "'") files)
                      ++ "], union_by_name = true)")%string with (fromPart files).
  assert (Hfallback :
            exists after,
              (let q := ("SELECT " ++ columns parsed ++ " " ++ fromPart files)%string in
               let q := if nonBlank (whereConditions parsed)
                        then (q ++ " WHERE " ++ quoteTimestamps (whereConditions parsed))%string
                        else q in
               let q := if nonBlank (groupBy parsed)
                        then (q ++ " GROUP BY " ++ groupBy parsed)%string else q in
               let q := if nonBlank (having parsed)
                        then (q ++ " HAVING " ++ having parsed)%string else q in
               let q := if nonBlank (orderBy parsed)
                        then (q ++ " ORDER BY " ++ orderBy parsed)%string else q in
               match limit parsed with
               | Some l => (q ++ " LIMIT " ++ string_of_number rt l)%string
               | None => q
               end)
              = (("SELECT " ++ columns parsed ++ " ") ++ fromPart files ++ after)%string).
  { cbv zeta.
    assert (H0 : exists after,
               ("SELECT " ++ columns parsed ++ " " ++ fromPart files)%string
               = (("SELECT " ++ columns parsed ++ " ") ++ fromPart files ++ after)%string).
    { exists ""%string. now rewrite string_app_nil_r, !string_app_assoc. }
    destruct (limit parsed) as [l|];
      [apply (suffix_step _ _ _ _ true)|];
      do 4 apply suffix_step; exact H0. }
  unfold duckdbQuery.
  destruct (split true fromSplit sql) as [|part0 [|part1 rest]].
  3: { unfold removeTable.
       destruct (isWordText (dbName parsed) && isWordText (measurement parsed)) eqn:Ew.
       - split; [|discriminate]. intros statement E. apply Ok_injective in E. subst statement.
         destruct (is_empty (trim (remove_match true (tablePattern parsed) part1))).
         + exists (part0 ++ " ")%string, ""%string.
           now rewrite string_app_nil_r, string_app_assoc.
         + exists (part0 ++ " ")%string,
             (" " ++ quoteTimestamps
                       (trim (remove_match true (tablePattern parsed) part1)))%string.
           now rewrite !string_app_assoc.
       - destruct (regexp_remove rt (tableSource parsed) part1) as [removed|msg'] eqn:Er.
         + split; [|discriminate]. intros statement E. apply Ok_injective in E. subst statement.
           destruct (is_empty (trim removed)).
           * exists (part0 ++ " ")%string, ""%string.
             now rewrite string_app_nil_r, string_app_assoc.
           * exists (part0 ++ " ")%string, (" " ++ quoteTimestamps (trim removed))%string.
             now rewrite !string_app_assoc.
         + split; [discriminate|]. intros msg E. injection E as <-.
           split; [reflexivity|]. now exists part0, part1, rest. }
  all: split; [|discriminate]; intros statement E; apply Ok_injective in E; subst statement;
    destruct Hfallback as [a Ha];
    exists ("SELECT " ++ columns parsed ++ " ")%string, a; exact Ha.
Qed.

(** The statement for [SELECT * FROM weather LIMIT 5] over two files, and
    the error of a database name that is no pattern. *)
Example duckdbQuery_examples :
  duckdbQuery Demo.rt_weather "SELECT * FROM weather LIMIT 5"
              (mkDescriptor "*" "mydb" "weather" (mkRange None None None) "" "" "" ""
                            (Some (Integer 5)))
              ["a.parquet"; "b.parquet"]%string
  = Ok "SELECT * FROM read_parquet(['a.parquet', 'b.parquet'], union_by_name = true) LIMIT 5"%string
  /\ duckdbQuery Demo.rt_weather "SELECT * FROM weather LIMIT 5"
                 (mkDescriptor "*" "(" "weather" (mkRange None None None) "" "" "" ""
                               (Some (Integer 5)))
                 ["a.parquet"]%string
     = Throw "Invalid regular expression".
Proof. vm_compute. split; reflexivity. Qed.

(** ** The WHERE text of a descriptor *)

Lemma prefix_take (p : string) :
  forall n s, String.prefix p (take n s) = true -> String.prefix p s = true.
Proof.
  induction p as [|c p IH]; intros n s; [now destruct s|].
  destruct n as [|n], s as [|a s]; cbn [take String.prefix]; try discriminate.
  destruct (ascii_dec c a); [apply IH | discriminate].
Qed.

Lemma indexOf_from_ge (p s : string) :
  forall k j, indexOf_from p s k = Some j -> (k <= j)%nat.
Proof.
  induction s as [|a s IH]; intros k j; cbn [indexOf_from].
  - destruct (String.prefix p ""); [|discriminate]. intro E. injection E as <-. lia.
  - destruct (String.prefix p (String a s)).
    + intro E. injection E as <-. lia.
    + intro H. apply IH in H. lia.
Qed.

(** Before its first occurrence a text does not occur. *)
Lemma indexOf_from_cut (p s : string) :
  p <> ""%string ->
  forall k i k', indexOf_from p s k = Some (k + i)%nat ->
                 indexOf_from p (take i s) k' = None.
Proof.
  intro Hp.
  assert (Hempty : forall k', indexOf_from p "" k' = None).
  { intro k'. cbn [indexOf_from]. destruct p; [contradiction | reflexivity]. }
  induction s as [|a s IH]; intros k i k'.
  - intros _. destruct i; apply Hempty.
  - cbn [indexOf_from]. destruct (String.prefix p (String a s)) eqn:E.
    + intro H. injection H as H. assert (i = 0%nat) by lia. subst i. apply Hempty.
    + intro H. pose proof (indexOf_from_ge _ _ _ _ H) as Hge.
      destruct i as [|i]; [lia|].
      cbn [take indexOf_from].
      destruct (String.prefix p (String a (take i s))) eqn:E'.
      * apply (prefix_take p (S i) (String a s)) in E'. congruence.
      * apply (IH (S k)). rewrite H. f_equal. lia.
Qed.

(** A text that does not occur in another does not occur in its
    beginning. *)
Lemma indexOf_from_take (p s : string) :
  forall n k k', indexOf_from p s k = None -> indexOf_from p (take n s) k' = None.
Proof.
  induction s as [|a s IH]; intros n k k'.
  - destruct n; cbn [take]; cbn [indexOf_from];
      destruct (String.prefix p ""); (discriminate || reflexivity).
  - cbn [indexOf_from]. destruct (String.prefix p (String a s)) eqn:E; [discriminate|].
    intro H. destruct n as [|n]; cbn [take indexOf_from].
    + destruct p; [discriminate E | reflexivity].
    + destruct (String.prefix p (String a (take n s))) eqn:E'.
      * apply (prefix_take p (S n) (String a s)) in E'. congruence.
      * now apply (IH n (S k)).
Qed.

(** Apart from the sharp s, the capital of a character is one
    character. *)
Lemma upperText_single (c : ascii) :
  plainCase c = true -> exists u, upperText c = String u "".
Proof.
  unfold plainCase, upperText. intro H.
  destruct (is_lower c); [now eexists|].
  destruct (Nat.eqb (code c) 223); [discriminate H|].
  destruct (between 224 254 c && negb (Nat.eqb (code c) 247)); now eexists.
Qed.

Lemma take_zero (s : string) : take 0 s = ""%string.
Proof. now destruct s. Qed.

Lemma toUpperCase_take (n : nat) (s : string) :
  all_chars plainCase s = true ->
  toUpperCase (take n s) = take n (toUpperCase s).
Proof.
  revert n. induction s as [|a s IH]; intros n H.
  - now destruct n.
  - destruct n as [|n]; [now rewrite !take_zero|].
    cbn [all_chars] in H. apply andb_true_iff in H as [Ha Hs].
    cbn [take toUpperCase].
    destruct (upperText_single a Ha) as [u ->]. cbn [append take].
    now rewrite (IH n Hs).
Qed.

Lemma all_chars_take (p : ascii -> bool) (n : nat) (s : string) :
  all_chars p s = true -> all_chars p (take n s) = true.
Proof.
  revert n. induction s as [|a s IH]; intros [|n] H; cbn [take all_chars];
    try reflexivity.
  cbn [all_chars] in H. apply andb_true_iff in H as [Ha Hs].
  now rewrite Ha, (IH n Hs).
Qed.

Lemma cutAt_plain (w k : string) :
  all_chars plainCase w = true -> all_chars plainCase (cutAt w k) = true.
Proof.
  intro H. unfold cutAt. destruct (indexOf k (toUpperCase w)); [|exact H].
  now apply all_chars_take.
Qed.

Lemma cutAt_removes (w k : string) :
  all_chars plainCase w = true ->
  k <> ""%string -> indexOf k (toUpperCase (cutAt w k)) = None.
Proof.
  intros Hw Hk. unfold cutAt. destruct (indexOf k (toUpperCase w)) as [i|] eqn:E;
    [|exact E].
  rewrite (toUpperCase_take i w Hw). now apply (indexOf_from_cut k _ Hk 0%nat i 0%nat).
Qed.

Lemma cutAt_keeps_absent (w k k' : string) :
  all_chars plainCase w = true ->
  indexOf k' (toUpperCase w) = None ->
  indexOf k' (toUpperCase (cutAt w k)) = None.
Proof.
  intros Hw H. unfold cutAt. destruct (indexOf k (toUpperCase w)) as [i|]; [|exact H].
  rewrite (toUpperCase_take i w Hw). now apply (indexOf_from_take k' _ i 0%nat 0%nat).
Qed.

Lemma cuts_keep_absent (keywords : list string) (k' : string) :
  forall w,
    all_chars plainCase w = true ->
    indexOf k' (toUpperCase w) = None ->
    indexOf k' (toUpperCase (fold_left cutAt keywords w)) = None.
Proof.
  induction keywords as [|k keywords IH]; intros w Hw H; cbn [fold_left]; [exact H|].
  apply IH; [now apply cutAt_plain | now apply cutAt_keeps_absent].
Qed.

Lemma cuts_remove (keywords : list string) :
  Forall (fun k => k <> ""%string) keywords ->
  forall w k, all_chars plainCase w = true ->
              In k keywords ->
              indexOf k (toUpperCase (fold_left cutAt keywords w)) = None.
Proof.
  induction keywords as [|k0 keywords IH]; intros Hne w k Hw Hin; [contradiction|].
  inversion Hne; subst. cbn [fold_left]. destruct Hin as [<-|Hin].
  - apply cuts_keep_absent; [now apply cutAt_plain | now apply cutAt_removes].
  - apply IH; [assumption | now apply cutAt_plain | assumption].
Qed.

(** The characters of the normalised statement and of the parts it is
    split in are characters of the statement, or spaces. *)
Lemma all_chars_collapse (p : ascii -> bool) (s : string) :
  p " "%char = true ->
  all_chars p s = true -> forall b, all_chars p (collapse b s) = true.
Proof.
  intro Hsp. induction s as [|a s IH]; intros H b; cbn [collapse]; [reflexivity|].
  cbn [all_chars] in H. apply andb_true_iff in H as [Ha Hs].
  destruct (is_space a).
  - destruct b; [now apply IH|]. cbn [all_chars]. now rewrite Hsp, (IH Hs true).
  - cbn [all_chars]. now rewrite Ha, (IH Hs false).
Qed.

Lemma all_chars_trim (p : ascii -> bool) (s : string) :
  all_chars p s = true -> all_chars p (trim s) = true.
Proof.
  intro H. unfold trim.
  destruct (trimStart_splits s) as [w E].
  assert (H1 : all_chars p (trimStart s) = true).
  { rewrite E, all_chars_app in H. now apply andb_true_iff in H as [_ H]. }
  destruct (trimEnd_splits (trimStart s)) as [w' E'].
  rewrite E', all_chars_app in H1. now apply andb_true_iff in H1 as [H1 _].
Qed.

Lemma all_chars_normalizeWhitespace (p : ascii -> bool) (sql : string) :
  p " "%char = true ->
  all_chars p sql = true -> all_chars p (normalizeWhitespace sql) = true.
Proof.
  intros Hsp H. rewrite normalizeWhitespace_collapse.
  apply all_chars_trim. now apply all_chars_collapse.
Qed.

Lemma all_chars_string_of_rev (p : ascii -> bool) (l : list ascii) :
  forallb p l = true -> all_chars p (string_of_rev l) = true.
Proof.
  unfold string_of_rev.
  assert (H : forall acc, all_chars p acc = true -> forallb p l = true ->
                          all_chars p (fold_left (fun acc c => String c acc) l acc) = true).
  { induction l as [|c l IH]; intros acc Hacc Hl; cbn [fold_left]; [exact Hacc|].
    cbn [forallb] in Hl. apply andb_true_iff in Hl as [Hc Hl].
    apply IH; [|exact Hl]. cbn [all_chars]. now rewrite Hc, Hacc. }
  now apply H.
Qed.

Lemma split_go_chars (p : ascii -> bool) (icase : bool) (r : re) (s : string) :
  forall pre cur skip,
    all_chars p s = true -> forallb p cur = true ->
    Forall (fun x => all_chars p x = true) (split_go icase r s pre cur skip).
Proof.
  induction s as [|a s IH]; intros pre cur skip Hs Hcur; cbn [split_go].
  - constructor; [now apply all_chars_string_of_rev | constructor].
  - cbn [all_chars] in Hs. apply andb_true_iff in Hs as [Ha Hs].
    assert (Hcur' : forallb p (a :: cur) = true) by (cbn [forallb]; now rewrite Ha, Hcur).
    destruct skip as [|n]; [|now apply IH].
    destruct (match_here icase r (String a s) pre) as [m|]; [|now apply IH].
    destruct (String.length (m_text m)); [now apply IH|].
    constructor; [now apply all_chars_string_of_rev | now apply IH].
Qed.

(** X25.  In a statement without a sharp s (the one character of which
    the capital has more letters, so that positions in the capitals are
    not positions in the text), the WHERE text of the descriptor stops
    before the clauses that follow it: in no mix of upper and lower case
    does it hold [ GROUP BY ], [ ORDER BY ], [ LIMIT ] or [ HAVING ]
    between spaces. *)
Theorem parsed_where_stops_at_clauses (sql db : string) (parsed : descriptor) :
  all_chars plainCase sql = true ->
  parseQuery sql db = Ok parsed ->
  forall keyword,
    In keyword endClauseKeywords ->
    indexOf keyword (toUpperCase (whereConditions parsed)) = None.
Proof.
  unfold parseQuery. intros Hplain H keyword Hin.
  destruct (exec true fromPattern (normalizeWhitespace sql)) as [fm|]; [|discriminate].
  injection H as <-. cbn [whereConditions].
  pose proof (split_go_chars plainCase true whereSplit (normalizeWhitespace sql) [] [] 0
                (all_chars_normalizeWhitespace plainCase sql eq_refl Hplain) eq_refl)
    as Hparts.
  change (split_go true whereSplit (normalizeWhitespace sql) [] [] 0)
    with (split true whereSplit (normalizeWhitespace sql)) in Hparts.
  destruct (split true whereSplit (normalizeWhitespace sql)) as [|p0 [|p1 rest]].
  - cbn in Hin. intuition (subst; reflexivity).
  - cbn in Hin. intuition (subst; reflexivity).
  - inversion Hparts as [|? ? _ Hrest]; subst.
    inversion Hrest as [|? ? Hp1 _]; subst.
    refine (cuts_remove endClauseKeywords _ p1 keyword Hp1 Hin).
    repeat constructor; discriminate.
Qed.

Lemma parsed_where_stops_at_clauses_witness :
  all_chars plainCase "SELECT * FROM weather WHERE temperature > 20 order by time LIMIT 5"
  = true
  /\ parseQuery "SELECT * FROM weather WHERE temperature > 20 order by time LIMIT 5" "mydb"
     = Ok (mkDescriptor "*" "mydb" "weather" (mkRange None None None)
                        "temperature > 20" "time" "" "" (Some (Integer 5)))
  /\ indexOf " ORDER BY " (toUpperCase "temperature > 20") = None.
Proof.
  assert (H : parseQuery "SELECT * FROM weather WHERE temperature > 20 order by time LIMIT 5"
                         "mydb"
              = Ok (mkDescriptor "*" "mydb" "weather" (mkRange None None None)
                                 "temperature > 20" "time" "" "" (Some (Integer 5))))
    by (vm_compute; reflexivity).
  assert (Hplain : all_chars plainCase
                     "SELECT * FROM weather WHERE temperature > 20 order by time LIMIT 5"
                   = true) by reflexivity.
  split; [exact Hplain|]. split; [exact H|].
  apply (parsed_where_stops_at_clauses _ _ _ Hplain H " ORDER BY ").
  right. left. reflexivity.
Defined.

(** With ten sharp s in a text before it, [ GROUP BY ] is found ten
    positions further in the capitals than it stands in the text, and the
    WHERE text is cut after it. *)
Example where_text_with_sharp_s :
  let text := String.concat "" (repeat sharp_s 10) in
  exists parsed,
    parseQuery ("SELECT * FROM t WHERE a = '" ++ text ++ "' GROUP BY x") "mydb" = Ok parsed
    /\ whereConditions parsed = ("a = '" ++ text ++ "' GROUP BY ")%string.
Proof. eexists. split; vm_compute; reflexivity. Qed.
